(** * OCR ensemble / polish scripts: a shallow embedding

    The two scripts under [src/gpt_pdf_ocr] are batch drivers around one call
    to a text-generation service:

    - [ocr_gptepolish_ensemble.py] (module [Ensemble] below) merges several
      OCR transcriptions of one document into one request;
    - [ocr_gptpolish.py] (module [Polish] below) sends one transcription.

    Modelling decisions.

    - A Python [str] is a [string] holding the UTF-8 encoding of the text.
      Concatenation, [startswith], [endswith], [replace] with an ASCII
      pattern and the search for the separator ['/'] act on the UTF-8 bytes
      as they act on the code points.  [strip] drops the white space of
      Unicode, character by character in its encoding.  Writing such a text
      with [encoding='utf-8'] stores these very bytes.  Lone surrogates have
      no representation.
    - The platform is POSIX: [os.path] is [posixpath], the separator is
      ['/'], and no newline translation happens on writing.
    - The file system is a tree of directories and regular files (no
      symbolic links); a directory keeps its entries in listing order.
      A path is walked component by component from the root or from the
      working directory, as the kernel does: every component, the empty one
      after a trailing separator too, is taken from a directory, ['.']
      stays there and ['..'] goes to the parent.  One error kind differs
      from the kernel's: opening for writing a path that ends in a separator
      after a missing name is reported as a missing file.
    - Effects are threaded through a state-and-exception monad over [World]:
      the file system, the lines printed so far and the requests sent to the
      service so far.  The world reached when an exception is raised is kept.
    - [chardet], the text codecs and the completion endpoint are external
      collaborators, gathered in the record [Externals]. *)

From Stdlib Require Import String Ascii List Arith Lia Bool Permutation.
From Stdlib Require Import DecimalString DecimalNat Decimal.
Import ListNotations.
Local Open Scope string_scope.
Local Open Scope list_scope.

(** ** Python string operations *)

Module Str.

Definition sep : ascii := "/"%char.
Definition newline : string := String "010"%char EmptyString.

(** [str(i)] for a non-negative integer. *)
Definition of_nat (i : nat) : string := NilZero.string_of_uint (Nat.to_uint i).

(** [s.startswith(p)] *)
Definition startswith (s p : string) : bool := String.prefix p s.

(** [s.endswith(p)]: some suffix of [s] equals [p]. *)
Fixpoint endswith (s p : string) : bool :=
  (s =? p) ||
  match s with
  | EmptyString => false
  | String _ s' => endswith s' p
  end.

(** [p in s] *)
Fixpoint contains (s p : string) : bool :=
  String.prefix p s ||
  match s with
  | EmptyString => false
  | String _ s' => contains s' p
  end.

Fixpoint has_char (c : ascii) (s : string) : bool :=
  match s with
  | EmptyString => false
  | String d s' => Ascii.eqb d c || has_char c s'
  end.

(** The characters [str.strip()] takes for white space, each in its UTF-8
    encoding: U+0009 to U+000D, U+001C to U+0020, U+0085, U+00A0, U+1680,
    U+2000 to U+200A, U+2028, U+2029, U+202F, U+205F and U+3000. *)
Definition of_bytes (l : list nat) : string :=
  fold_right (fun n s => String (ascii_of_nat n) s) EmptyString l.

Definition white_space : list string :=
  map of_bytes
    [[9]; [10]; [11]; [12]; [13]; [28]; [29]; [30]; [31]; [32];
     [194; 133]; [194; 160];
     [225; 154; 128];
     [226; 128; 128]; [226; 128; 129]; [226; 128; 130]; [226; 128; 131];
     [226; 128; 132]; [226; 128; 133]; [226; 128; 134]; [226; 128; 135];
     [226; 128; 136]; [226; 128; 137]; [226; 128; 138];
     [226; 128; 168]; [226; 128; 169]; [226; 128; 175];
     [226; 129; 159];
     [227; 128; 128]].

(** [s] is one white space character. *)
Definition is_white_space (s : string) : bool :=
  existsb (String.eqb s) white_space.

(** [s.lstrip()]: the white space characters [s] begins with are dropped.
    A character takes one, two or three bytes. *)
Fixpoint lstrip (s : string) : string :=
  match s with
  | EmptyString => EmptyString
  | String a s1 =>
      if is_white_space (String a EmptyString) then lstrip s1
      else
        match s1 with
        | EmptyString => s
        | String b s2 =>
            if is_white_space (String a (String b EmptyString)) then lstrip s2
            else
              match s2 with
              | EmptyString => s
              | String c s3 =>
                  if is_white_space
                       (String a (String b (String c EmptyString)))
                  then lstrip s3
                  else s
              end
        end
  end.

(** [s.rstrip()]: the white space characters [s] ends with are dropped.
    What is left of [String c s'] is [c] before what is left of [s'],
    unless that is a white space character itself. *)
Fixpoint rstrip (s : string) : string :=
  match s with
  | EmptyString => EmptyString
  | String c s' =>
      let r := String c (rstrip s') in
      if is_white_space r then EmptyString else r
  end.

(** [s.strip()] *)
Definition strip (s : string) : string := rstrip (lstrip s).

(** [s] is white space from end to end. *)
Definition blank (s : string) : bool := lstrip s =? "".

(** [a] is the first byte of a white space character. *)
Definition lead (a : ascii) : bool :=
  existsb
    (fun e =>
       match e with
       | EmptyString => false
       | String b _ => Ascii.eqb a b
       end)
    white_space.

(** [s.replace(old, new)]: every occurrence of [old], leftmost first and
    without overlap.  [skip] counts the characters of a matched occurrence
    still to be passed over. *)
Fixpoint replace_from (old new : string) (skip : nat) (s : string) : string :=
  match s with
  | EmptyString => EmptyString
  | String c s' =>
      match skip with
      | S k => replace_from old new k s'
      | O =>
          if String.prefix old s
          then new ++ replace_from old new (String.length old - 1) s'
          else String c (replace_from old new 0 s')
      end
  end.

(** With an empty [old], Python inserts [new] before every character and at
    the end. *)
Fixpoint intersperse (new s : string) : string :=
  match s with
  | EmptyString => new
  | String c s' => new ++ String c (intersperse new s')
  end.

Definition replace (s old new : string) : string :=
  match old with
  | EmptyString => intersperse new s
  | _ => replace_from old new 0 s
  end.

End Str.

(** ** [os.path] on POSIX *)

Module Path.

(** [os.path.join(a, b)] *)
Definition join (a b : string) : string :=
  if Str.startswith b "/" then b
  else if (a =? "") || Str.endswith a "/" then a ++ b
  else a ++ "/" ++ b.

(** [os.path.basename(p)]: what follows the last separator. *)
Fixpoint basename (p : string) : string :=
  match p with
  | EmptyString => EmptyString
  | String _ p' => if Str.has_char Str.sep p then basename p' else p
  end.

(** [p.split('/')]: never empty. *)
Fixpoint split_sep (s : string) : list string :=
  match s with
  | EmptyString => [EmptyString]
  | String c s' =>
      if Ascii.eqb c Str.sep then EmptyString :: split_sep s'
      else match split_sep s' with
           | [] => [String c EmptyString]
           | x :: xs => String c x :: xs
           end
  end.

Definition is_absolute (p : string) : bool := Str.startswith p "/".

(** A name a directory entry can bear. *)
Definition valid_name (f : string) : bool :=
  negb (Str.has_char Str.sep f) && negb (f =? "") && negb (f =? ".")
  && negb (f =? "..").

End Path.

(** ** Exceptions and results *)

Inductive exn : Type :=
| FileNotFoundError
| NotADirectoryError
| IsADirectoryError
| FileExistsError
| UnicodeDecodeError
| LookupError
| IndexError
| TypeError
| APIError (message : string).

(** The exceptions of the file system, subclasses of [OSError]. *)
Definition is_OSError (e : exn) : bool :=
  match e with
  | FileNotFoundError | NotADirectoryError | IsADirectoryError
  | FileExistsError => true
  | _ => false
  end.

Inductive result (A : Type) : Type :=
| Ok (a : A)
| Raise (e : exn).
Arguments Ok {A} a.
Arguments Raise {A} e.

Definition rbind {A B} (r : result A) (k : A -> result B) : result B :=
  match r with
  | Ok a => k a
  | Raise e => Raise e
  end.

(** ** The file system *)

#[warnings="-register-all"]
Inductive node : Type :=
| File (data : string)
| Dir (entries : list (string * node)).

Fixpoint assoc {A} (k : string) (l : list (string * A)) : option A :=
  match l with
  | [] => None
  | (k', v) :: l' => if k' =? k then Some v else assoc k l'
  end.

Fixpoint assoc_set {A} (k : string) (v : A) (l : list (string * A))
  : list (string * A) :=
  match l with
  | [] => []
  | (k', v') :: l' =>
      if k' =? k then (k', v) :: l' else (k', v') :: assoc_set k v l'
  end.

Module FS.

(** Walk down from [n] along the components [p]. *)
Fixpoint lookup (p : list string) (n : node) : result node :=
  match p with
  | [] => Ok n
  | c :: p' =>
      match n with
      | File _ => Raise NotADirectoryError
      | Dir es =>
          match assoc c es with
          | Some n' => lookup p' n'
          | None => Raise FileNotFoundError
          end
      end
  end.

(** Making sure that the components [p] lead to a directory below [n]:
    missing directories are created, at the end of their parent's
    listing. *)
Fixpoint mkdirs (p : list string) (n : node) : result node :=
  match p with
  | [] =>
      match n with
      | Dir _ => Ok n
      | File _ => Raise FileExistsError
      end
  | c :: p' =>
      match n with
      | File _ => Raise NotADirectoryError
      | Dir es =>
          match assoc c es with
          | Some n' =>
              rbind (mkdirs p' n') (fun n'' => Ok (Dir (assoc_set c n'' es)))
          | None =>
              rbind (mkdirs p' (Dir [])) (fun n'' => Ok (Dir (es ++ [(c, n'')])))
          end
      end
  end.

(** Create or replace the regular file at [p] with content [data]. *)
Fixpoint store (p : list string) (data : string) (n : node) : result node :=
  match p with
  | [] =>
      match n with
      | File _ => Ok (File data)
      | Dir _ => Raise IsADirectoryError
      end
  | c :: p' =>
      match n with
      | File _ => Raise NotADirectoryError
      | Dir es =>
          match assoc c es with
          | Some n' =>
              rbind (store p' data n') (fun n'' => Ok (Dir (assoc_set c n'' es)))
          | None =>
              match p' with
              | [] => Ok (Dir (es ++ [(c, File data)]))
              | _ :: _ => Raise FileNotFoundError
              end
          end
      end
  end.

(** Where the components [raw] of a path lead from the directory at
    [cur], as the kernel walks them: every step starts from a directory; an
    empty component and [.] stay, [..] goes to the parent (the root is its
    own parent), a name goes into the entry, which need not be there. *)
Fixpoint walk (r : node) (cur raw : list string) : result (list string) :=
  match raw with
  | [] => Ok cur
  | c :: raw' =>
      match lookup cur r with
      | Raise e => Raise e
      | Ok (File _) => Raise NotADirectoryError
      | Ok (Dir _) =>
          walk r
            (if (c =? "") || (c =? ".") then cur
             else if c =? ".." then removelast cur
             else (cur ++ [c])%list)
            raw'
      end
  end.

(** [os.makedirs(., exist_ok=True)] along the components [raw] from [cur]:
    a name that is missing in its directory is created as a directory;
    [.] and [..] need a directory to start from; what the path leads to
    must be a directory in the end. *)
Fixpoint mkwalk (r : node) (cur raw : list string) : result node :=
  match raw with
  | [] =>
      match lookup cur r with
      | Ok (Dir _) => Ok r
      | Ok (File _) => Raise FileExistsError
      | Raise e => Raise e
      end
  | c :: raw' =>
      if c =? "" then mkwalk r cur raw'
      else
        match lookup cur r with
        | Raise e => Raise e
        | Ok (File _) => Raise NotADirectoryError
        | Ok (Dir es) =>
            if c =? "." then mkwalk r cur raw'
            else if c =? ".." then mkwalk r (removelast cur) raw'
            else
              match assoc c es with
              | Some _ => mkwalk r (cur ++ [c])%list raw'
              | None =>
                  rbind (mkdirs (cur ++ [c])%list r)
                    (fun r' => mkwalk r' (cur ++ [c])%list raw')
              end
        end
  end.

End FS.

(** ** The world and the monad of scripts *)

Record message : Type := Message { role : string; content : string }.

(** One call of [client.chat.completions.create]. *)
Record request : Type := Request {
  req_api_key : string;
  req_model : string;
  req_messages : list message;
  req_max_tokens : nat
}.

(** What the scripts read of a response: the message content of each
    choice, [None] for a choice without text. *)
Record response : Type := Response { choices : list (option string) }.

Record World : Type := MkWorld {
  root : node;                (* the directory [/] *)
  cwd : list string;          (* components of the working directory *)
  stdout : list string;       (* lines printed, oldest first *)
  requests : list request     (* calls made to the service, oldest first *)
}.

Record Externals : Type := MkExternals {
  (* [chardet.detect(raw)['encoding']] *)
  chardet_detect : string -> option string;
  (* reading bytes in text mode under an encoding; [None] is the locale's
     default encoding *)
  text_decode : option string -> string -> result string;
  (* the endpoint: the calls made before, then the call *)
  completions_create : list request -> request -> result response
}.

Definition M (A : Type) : Type := World -> result A * World.

Definition ret {A} (a : A) : M A := fun w => (Ok a, w).

Definition raise {A} (e : exn) : M A := fun w => (Raise e, w).

Definition bind {A B} (m : M A) (k : A -> M B) : M B :=
  fun w =>
    match m w with
    | (Ok a, w') => k a w'
    | (Raise e, w') => (Raise e, w')
    end.

Definition lift {A} (r : result A) : M A := fun w => (r, w).

Declare Scope script_scope.
Delimit Scope script_scope with script.
Notation "x <- m ;; k" := (bind m (fun x => k))
  (at level 100, m at next level, right associativity) : script_scope.
Notation "m ;;; k" := (bind m (fun _ => k))
  (at level 100, right associativity) : script_scope.
Local Open Scope script_scope.

(** [for x in l: body x] *)
Fixpoint for_each {A} (l : list A) (body : A -> M unit) : M unit :=
  match l with
  | [] => ret tt
  | x :: l' => body x ;;; for_each l' body
  end.

(** [[value x for x in l if cond x]] *)
Fixpoint comprehension {A B} (l : list A) (cond : A -> M bool)
  (value : A -> M B) : M (list B) :=
  match l with
  | [] => ret []
  | x :: l' =>
      b <- cond x ;;
      if b then
        v <- value x ;;
        vs <- comprehension l' cond value ;;
        ret (v :: vs)
      else comprehension l' cond value
  end.

(** *** Primitives *)

(** Where the path [p] leads, in components from the root: the walk starts
    at the root for an absolute path and at the working directory
    otherwise; the empty path leads nowhere. The last component need not
    exist. *)
Definition locate (w : World) (p : string) : result (list string) :=
  if p =? "" then Raise FileNotFoundError
  else
    FS.walk (root w) (if Path.is_absolute p then [] else cwd w)
      (Path.split_sep p).

(** The same, when the walk gets through. *)
Definition resolve (w : World) (p : string) : option (list string) :=
  match locate w p with
  | Ok cs => Some cs
  | Raise _ => None
  end.

(** [os.stat(p)]: what the path leads to. *)
Definition stat (w : World) (p : string) : result node :=
  rbind (locate w p) (fun cs => FS.lookup cs (root w)).

Definition set_root (w : World) (n : node) : World :=
  MkWorld n (cwd w) (stdout w) (requests w).

(** [print(line)] *)
Definition print (line : string) : M unit :=
  fun w => (Ok tt, MkWorld (root w) (cwd w) (stdout w ++ [line]) (requests w)).

(** [os.path.exists(p)] *)
Definition exists_ (p : string) : M bool :=
  fun w => (Ok match stat w p with Ok _ => true | Raise _ => false end, w).

(** [os.path.isdir(p)] *)
Definition isdir (p : string) : M bool :=
  fun w => (Ok match stat w p with Ok (Dir _) => true | _ => false end, w).

(** [os.path.isfile(p)] *)
Definition isfile (p : string) : M bool :=
  fun w => (Ok match stat w p with Ok (File _) => true | _ => false end, w).

(** [os.listdir(p)] *)
Definition listdir (p : string) : M (list string) :=
  fun w =>
    (match stat w p with
     | Ok (Dir es) => Ok (map fst es)
     | Ok (File _) => Raise NotADirectoryError
     | Raise e => Raise e
     end, w).

(** [os.makedirs(p, exist_ok=True)] *)
Definition makedirs (p : string) : M unit :=
  fun w =>
    if p =? "" then (Raise FileNotFoundError, w)
    else
      match
        FS.mkwalk (root w) (if Path.is_absolute p then [] else cwd w)
          (Path.split_sep p)
      with
      | Ok n => (Ok tt, set_root w n)
      | Raise e => (Raise e, w)
      end.

(** [open(p, 'rb').read()] *)
Definition read_bytes (p : string) : M string :=
  fun w =>
    (match stat w p with
     | Ok (File data) => Ok data
     | Ok (Dir _) => Raise IsADirectoryError
     | Raise e => Raise e
     end, w).

(** [open(p, 'r', encoding=enc).read()] *)
Definition read_text (ext : Externals) (p : string) (enc : option string)
  : M string :=
  raw <- read_bytes p ;;
  lift (text_decode ext enc raw).

(** [open(p, 'w', encoding='utf-8')]: the file is created or truncated. *)
Definition open_w (p : string) : M unit :=
  fun w =>
    match locate w p with
    | Raise e => (Raise e, w)
    | Ok cs =>
        match FS.store cs "" (root w) with
        | Ok n => (Ok tt, set_root w n)
        | Raise e => (Raise e, w)
        end
    end.

(** [file.write(content)] on the file opened at [p], then closing it.
    A content that is not a [str] raises [TypeError]. *)
Definition file_write (p : string) (content : option string) : M unit :=
  match content with
  | None => raise TypeError
  | Some text =>
      fun w =>
        match locate w p with
        | Raise e => (Raise e, w)
        | Ok cs =>
            match FS.store cs text (root w) with
            | Ok n => (Ok tt, set_root w n)
            | Raise e => (Raise e, w)
            end
        end
  end.

(** [with open(p, 'w', encoding='utf-8') as file: file.write(content)] *)
Definition write_text (p : string) (content : option string) : M unit :=
  open_w p ;;;
  file_write p content.

(** [response.choices[0].message.content] *)
Definition first_choice_content (r : response) : M (option string) :=
  match choices r with
  | [] => raise IndexError
  | c :: _ => ret c
  end.

(** How the interpreter ends a script whose [main()] returned or raised. *)
Definition exit_status (r : result unit) : nat :=
  match r with
  | Ok _ => 0
  | Raise _ => 1
  end.

(** What the interpreter writes on the standard error stream for an
    exception that nothing caught: a traceback whose last line starts with
    the name of the class of the exception.  [APIError] stands for the
    classes of the service's library, which the traceback names with their
    module. *)
Definition class_name (e : exn) : string :=
  match e with
  | FileNotFoundError => "FileNotFoundError"
  | NotADirectoryError => "NotADirectoryError"
  | IsADirectoryError => "IsADirectoryError"
  | FileExistsError => "FileExistsError"
  | UnicodeDecodeError => "UnicodeDecodeError"
  | LookupError => "LookupError"
  | IndexError => "IndexError"
  | TypeError => "TypeError"
  | APIError _ => "openai."
  end.

Definition traceback (r : result unit) : option string :=
  match r with
  | Ok _ => None
  | Raise e => Some (class_name e)
  end.

(** The client object, as far as the scripts use it: it carries the key. *)
Definition client : Type := string.
Definition OpenAI (api_key : string) : client := api_key.

(** [enumerate(l, start)] *)
Fixpoint enumerate {A} (l : list A) (start : nat) : list (nat * A) :=
  match l with
  | [] => []
  | x :: l' => (start, x) :: enumerate l' (S start)
  end.

Definition nl : string := Str.newline.

(** ** [ocr_gptepolish_ensemble.py] *)

Module Ensemble.

Definition system_prompt : string :=
  "Du har en mycket viktig uppgift!" ++ nl ++ nl ++
  "#### DIN UPPGIFT ####" ++ nl ++
  "Din uppgift är att ordagrant återskapa texten från ett inscannat dokument. " ++
  "För att göra detta kommer du få tillgång till en eller flera OCR-transkriptioner av dokumentet." ++ nl ++ nl ++
  "#### DETALJER #### " ++ nl ++ nl ++
  "Analysera de tillgängliga OCR-transkriptionerna och konstruera baserat på dem den " ++
  "mest exakta ordagranna transkriptionen av originaldokumentet. " ++
  "Ta hänsyn till skillnader mellan transkriptionerna, såväl som löptextens innebörd och sammanhang." ++ nl ++ nl.

(** The entry appended for the [i]-th transcription. *)
Definition user_message (i : nat) (ocr : string) : message :=
  Message "user"
    ("#### OCR-transkription " ++ Str.of_nat i ++ ": #### " ++ nl ++ ocr ++ nl ++ nl).

Definition construct_messages (ocrs : list string) : list message :=
  let messages := [Message "system" system_prompt] in
  fold_left
    (fun messages '(i, ocr) => messages ++ [user_message i ocr])
    (enumerate ocrs 1) messages.

Section Script.
Context (ext : Externals).

Definition get_api_key (api_path : string) : M string :=
  text <- read_text ext api_path None ;;
  ret (Str.strip text).

Definition get_encoding (file_path : string) : M (option string) :=
  raw_data <- read_bytes file_path ;;
  ret (chardet_detect ext raw_data).

Definition get_ocr (file_path : string) : M string :=
  encoding <- get_encoding file_path ;;
  content <- read_text ext file_path encoding ;;
  ret content.

(** Line 70: the paths of the entries of [s_path] named [*.txt]. *)
Definition file_paths (s_path : string) : M (list string) :=
  names <- listdir s_path ;;
  comprehension names
    (fun f => ret (Str.endswith f ".txt"))
    (fun f => ret (Path.join s_path f)).

Definition get_ocrs (s_path : string) : M (list string) :=
  file_paths <- file_paths s_path ;;
  ocrs <- comprehension file_paths (fun _ => ret true) get_ocr ;;
  ret ocrs.

Definition generate_response (c : client) (model : string)
  (messages : list message) (max_tokens : nat) : M response :=
  fun w =>
    let req := Request c model messages max_tokens in
    (completions_create ext (requests w) req,
     MkWorld (root w) (cwd w) (stdout w) (requests w ++ [req])).

Definition save_response (content : option string) (s_name save_dir : string)
  : M unit :=
  makedirs save_dir ;;;
  let file_path := Path.join save_dir (s_name ++ "-ensemble.txt") in
  write_text file_path content.

Definition process_subdirectory (c : client) (model : string)
  (max_tokens : nat) (s_path save_dir : string) : M unit :=
  ocrs <- get_ocrs s_path ;;
  let messages := construct_messages ocrs in
  response <- generate_response c model messages max_tokens ;;
  content <- first_choice_content response ;;
  let s_name := Path.basename s_path in
  save_response content s_name save_dir.

(** Line 179: the paths of the entries of [DIR_PATH] that are directories. *)
Definition subdirectories (DIR_PATH : string) : M (list string) :=
  names <- listdir DIR_PATH ;;
  comprehension names
    (fun d => isdir (Path.join DIR_PATH d))
    (fun d => ret (Path.join DIR_PATH d)).

(** Lines 181-183: the body of the loop of [main]. *)
Definition main_loop_body (c : client) (MODEL : string) (MAX_TOKENS : nat)
  (SAVE_DIR s_path : string) : M unit :=
  print ("Processing directory: " ++ s_path) ;;;
  process_subdirectory c MODEL MAX_TOKENS s_path SAVE_DIR.

(** [main], with the constants it sets at its head as parameters. *)
Definition main_with (API_PATH DIR_PATH SAVE_DIR MODEL : string)
  (MAX_TOKENS : nat) : M unit :=
  key <- get_api_key API_PATH ;;
  let c := OpenAI key in
  subdirectories <- subdirectories DIR_PATH ;;
  for_each subdirectories (main_loop_body c MODEL MAX_TOKENS SAVE_DIR) ;;;
  print "DONE".

Definition main : M unit :=
  main_with "{YOUR PATH HERE}" "{YOUR PATH HERE}" "{YOUR PATH HERE}"
    "gpt-4o" 1000.

End Script.
End Ensemble.

(** ** [ocr_gptpolish.py] *)

Module Polish.

Definition system_prompt : string :=
  "Du har en mycket viktig uppgift!" ++ nl ++ nl ++
  "#### DIN UPPGIFT ####" ++ nl ++
  "En mjukvara har producerat följande OCR av en pdf." ++ nl ++
  "Ditt jobb är följande: Med hjälp av den presenterade OCRen ska du återskapa texten i dokumentet, så ordagrannt som möjligt." ++ nl ++ nl ++
  "#### DETALJER #### " ++ nl ++ nl ++
  "Du är strikt förbjuden att ändra på innehållet i dokumentet och det är av yttersta vikt att det du returnerar ska vara så nära originalet du kan förmå. " ++
  "Om det finns tecken eller symboler du ej kan avläsa, ersätt dem med en asterix: '*'" ++ nl ++ nl.

Definition construct_messages (ocr : string) : list message :=
  let messages := [Message "system" system_prompt] in
  let messages :=
    messages ++
    [Message "user"
       ("#### OCR-transkription: #### " ++ nl ++ ocr ++ nl ++ nl ++ ocr)] in
  messages.

(** Line 154: where the polished text of [file_path] goes. *)
Definition save_path (OUT_PATH file_path : string) : string :=
  Path.join OUT_PATH
    (Str.replace (Path.basename file_path) "ABBYY" "PROCESSED").

Section Script.
Context (ext : Externals).

Definition get_api_key (api_path : string) : M string :=
  text <- read_text ext api_path None ;;
  ret (Str.strip text).

Definition get_encoding (file_path : string) : M (option string) :=
  raw_data <- read_bytes file_path ;;
  ret (chardet_detect ext raw_data).

Definition get_ocr (file_path : string) : M string :=
  encoding <- get_encoding file_path ;;
  content <- read_text ext file_path encoding ;;
  ret content.

Definition generate_response (c : client) (model : string)
  (messages : list message) (max_tokens : nat) : M response :=
  fun w =>
    let req := Request c model messages max_tokens in
    (completions_create ext (requests w) req,
     MkWorld (root w) (cwd w) (stdout w) (requests w ++ [req])).

(** Line 144: the paths of the entries of [ABBYY_PATH] that are regular
    files. *)
Definition file_paths (ABBYY_PATH : string) : M (list string) :=
  names <- listdir ABBYY_PATH ;;
  comprehension names
    (fun f => isfile (Path.join ABBYY_PATH f))
    (fun f => ret (Path.join ABBYY_PATH f)).

(** Lines 146-159: the body of the loop of [main]. *)
Definition main_loop_body (c : client) (MODEL : string) (MAX_TOKENS : nat)
  (OUT_PATH file_path : string) : M unit :=
  print ("Processing file: " ++ file_path) ;;;
  ocr <- get_ocr file_path ;;
  let messages := construct_messages ocr in
  response <- generate_response c MODEL messages MAX_TOKENS ;;
  content <- first_choice_content response ;;
  let save_path := save_path OUT_PATH file_path in
  write_text save_path content ;;;
  print ("Saved processed file to: " ++ save_path).

(** [main], with the constants it sets at its head as parameters. *)
Definition main_with (DIR_PATH API_PATH MODEL : string) (MAX_TOKENS : nat)
  : M unit :=
  key <- get_api_key API_PATH ;;
  let c := OpenAI key in
  let ABBYY_PATH := Path.join DIR_PATH "ABBYY_OCR" in
  let OUT_PATH := Path.join DIR_PATH "PROCESSED_OCR" in
  dir_exists <- exists_ DIR_PATH ;;
  if negb dir_exists then
    print ("Error: The directory " ++ DIR_PATH ++ " does not exist.")
  else
    abbyy_exists <- exists_ ABBYY_PATH ;;
    if negb abbyy_exists then
      print ("Error: The directory " ++ ABBYY_PATH ++ " does not exist.")
    else
      makedirs OUT_PATH ;;;
      file_paths <- file_paths ABBYY_PATH ;;
      for_each file_paths (main_loop_body c MODEL MAX_TOKENS OUT_PATH) ;;;
      print "DONE".

Definition main : M unit :=
  main_with "/Users/filipberntsson/Documents/Work/P1/transcriptions"
    "/Users/filipberntsson/Documents/Work/misc/api_key.txt"
    "gpt-4o-mini" 200.

End Script.
End Polish.

(** ** Reading a payload back

    What a reader of a payload sees of an entry: its label and the text it
    carries.  These observers are not part of the scripts. *)

Module Payload.

Fixpoint take (n : nat) (s : string) : string :=
  match n, s with
  | S k, String c s' => String c (take k s')
  | _, _ => EmptyString
  end.

Fixpoint drop (n : nat) (s : string) : string :=
  match n, s with
  | S k, String _ s' => drop k s'
  | _, _ => s
  end.

(** The characters of [s] before the first [c]. *)
Fixpoint before (c : ascii) (s : string) : string :=
  match s with
  | EmptyString => EmptyString
  | String d s' => if Ascii.eqb d c then EmptyString else String d (before c s')
  end.

(** The characters of [s] after the first [c]. *)
Fixpoint after (c : ascii) (s : string) : string :=
  match s with
  | EmptyString => EmptyString
  | String d s' => if Ascii.eqb d c then s' else after c s'
  end.

Definition label_prefix : string := "#### OCR-transkription ".

(** The number an entry of the ensemble payload is labelled with. *)
Definition label (m : message) : option nat :=
  if Str.startswith (content m) label_prefix then
    match
      NilZero.uint_of_string
        (before ":"%char (drop (String.length label_prefix) (content m)))
    with
    | Some d => Some (Nat.of_uint d)
    | None => None
    end
  else None.

(** The text an entry of the ensemble payload carries: what lies between
    the header line and the closing blank line. *)
Definition text (m : message) : string :=
  let body := after "010"%char (content m) in
  take (String.length body - 2) body.


End Payload.

Definition is_digit (c : ascii) : bool :=
  let n := nat_of_ascii c in Nat.leb 48 n && Nat.leb n 57.

Fixpoint all_chars (P : ascii -> bool) (s : string) : bool :=
  match s with
  | EmptyString => true
  | String c s' => P c && all_chars P s'
  end.

(** An entry of the ensemble payload, from a numbered transcription. *)
Definition ensemble_entry (p : nat * string) : message :=
  Ensemble.user_message (fst p) (snd p).

(** ** Vocabulary of the statements *)

(** A computation that leaves the world as it found it. *)
Definition readonly {A} (m : M A) : Prop := forall w, snd (m w) = w.

(** The payloads sent to the service between the worlds [w] and [w']. *)
Definition sent (w w' : World) : list (list message) :=
  map req_messages (skipn (length (requests w)) (requests w')).

Definition is_dir_node (n : node) : bool :=
  match n with Dir _ => true | File _ => false end.

Definition is_file_node (n : node) : bool :=
  match n with File _ => true | Dir _ => false end.

(** The names of the entries of a listing that are directories, and of
    those that are regular files, in listing order. *)
Definition dir_names (es : list (string * node)) : list string :=
  map fst (filter (fun e => is_dir_node (snd e)) es).

Definition file_names (es : list (string * node)) : list string :=
  map fst (filter (fun e => is_file_node (snd e)) es).

(** The names of a listing are those of a directory: valid and distinct. *)
Definition listing_ok (es : list (string * node)) : Prop :=
  NoDup (map fst es) /\ Forall (fun f => Path.valid_name f = true) (map fst es).

(** The progress lines of the two drivers. *)
Definition ensemble_progress (s_path : string) : string :=
  "Processing directory: " ++ s_path.

Definition polish_progress (OUT_PATH file_path : string) : list string :=
  [("Processing file: " ++ file_path)%string;
   ("Saved processed file to: " ++ Polish.save_path OUT_PATH file_path)%string].

(** The regular file at the components [q] holds [d]. *)
Definition file_holds (q : list string) (d : string) (w : World) : Prop :=
  FS.lookup q (root w) = Ok (File d).

(** There is a regular file at the components [q]. *)
Definition file_at (q : list string) (w : World) : Prop :=
  exists d, FS.lookup q (root w) = Ok (File d).

(** There is a directory at the components [c]. *)
Definition dir_at (c : list string) (w : World) : Prop :=
  exists es, FS.lookup c (root w) = Ok (Dir es).

(** [w'] has the working directory of [w], and what is a directory or a
    regular file in [w] is one in [w'] too.  Paths lead in [w'] where they
    lead in [w]. *)
Definition grows (w w' : World) : Prop :=
  cwd w' = cwd w /\
  (forall c, dir_at c w -> dir_at c w') /\
  (forall c, file_at c w -> file_at c w').

(** A computation that keeps a property of the world, however it ends. *)
Definition preserves {A} (P : World -> Prop) (m : M A) : Prop :=
  forall w, P w -> P (snd (m w)).

(** What [get_ocr] makes of a node: the bytes of a regular file decoded
    under the encoding detected on them. *)
Definition read_node (ext : Externals) (n : node) : result string :=
  match n with
  | File data => text_decode ext (chardet_detect ext data) data
  | Dir _ => Raise IsADirectoryError
  end.

(** ** A small corpus to run the scripts on *)

Module Sample.

(** A codec that takes the bytes as they are, and a service that echoes
    the texts of the segments it receives. *)
Definition echo : Externals :=
  MkExternals
    (fun _ => Some "utf-8")
    (fun _ raw => Ok raw)
    (fun _ req =>
       Ok (Response [Some (String.concat "" (map content (req_messages req)))])).

(** The same, with a service that answers one call and then refuses. *)
Definition one_call : Externals :=
  MkExternals
    (fun _ => Some "utf-8")
    (fun _ raw => Ok raw)
    (fun before req =>
       match before with
       | [] =>
           Ok (Response [Some (String.concat "" (map content (req_messages req)))])
       | _ :: _ => Raise (APIError "quota exceeded")
       end).

Definition report1 : list (string * node) :=
  [("a.txt", File "Hello wrold"); ("b.txt", File "Hello world")].

Definition corpus : list (string * node) :=
  [("report1", Dir report1);
   ("README", File "two scans");
   ("empty", Dir [("notes.md", File "no transcription yet")]);
   ("report2", Dir [("a.txt", File "Second")])].

Definition abbyy_ocr : list (string * node) :=
  [("ABBYY_001.txt", File "Frist");
   ("old", Dir []);
   ("ABBYY_002", File "Second");
   ("ABBYY_003.txt", File "Third")].

Definition disk : node :=
  Dir [("key.txt", File ("sk-test" ++ nl)%string);
       ("corpus", Dir corpus);
       ("transcriptions", Dir [("ABBYY_OCR", Dir abbyy_ocr)]);
       ("out", Dir [])].

Definition world : World := MkWorld disk [] [] [].

(** The same disk, later in a run. *)
Definition world_later : World :=
  MkWorld disk [] ["Processing directory: /corpus/report2"]
    [Request "sk-test" "gpt-4o" [Message "system" Ensemble.system_prompt] 1000].

(** A document one candidate of which is a directory, and an archive that
    already holds an artifact. *)
Definition scan : list (string * node) :=
  [("a.txt", File "Page one");
   ("b.txt", Dir [("inner", File "not a transcription")]);
   ("c.txt", File "Page three")].

Definition world_broken : World :=
  MkWorld
    (Dir [("key.txt", File "sk-test");
          ("docs", Dir [("scan", Dir scan)]);
          ("out", Dir [("scan-ensemble.txt", File "an earlier result")])])
    [] [] [].

(** A service that answers with a choice that carries no text. *)
Definition no_text : Externals :=
  MkExternals
    (fun _ => Some "utf-8")
    (fun _ raw => Ok raw)
    (fun _ _ => Ok (Response [None])).

(** A codec that refuses the byte 255, which no UTF-8 text holds, and a
    key file that holds it. *)
Definition utf8_only : Externals :=
  MkExternals
    (fun _ => Some "utf-8")
    (fun _ raw =>
       if Str.has_char "255"%char raw then Raise UnicodeDecodeError
       else Ok raw)
    (fun _ req =>
       Ok (Response [Some (String.concat "" (map content (req_messages req)))])).

Definition world_bad_key : World :=
  MkWorld (Dir [("key.txt", File (String "255"%char "sk-test"))]) [] [] [].

(** A key file that ends with a no-break space and a newline. *)
Definition world_nbsp_key : World :=
  MkWorld
    (Dir [("key.txt", File ("sk-test" ++ Str.of_bytes [194; 160] ++ nl)%string)])
    [] [] [].

(** A working directory that is given through the parent of one of its
    subdirectories, with a polished file of an earlier run. *)
Definition world_parent : World :=
  MkWorld
    (Dir [("key.txt", File "sk-test");
          ("t", Dir [("x", Dir []);
                     ("ABBYY_OCR", Dir [("ABBYY_1.txt", File "Frist")]);
                     ("PROCESSED_OCR", Dir [("PROCESSED_1.txt", File "old")])])])
    [] [] [].

End Sample.

(** ** The library functions at work *)

Example join_out_doc42 :
  Path.join "/out" "doc42-ensemble.txt" = "/out/doc42-ensemble.txt".
Proof. reflexivity. Qed.

Example replace_abbyy :
  Str.replace "ABBYY_001.txt" "ABBYY" "PROCESSED" = "PROCESSED_001.txt".
Proof. reflexivity. Qed.

Example basename_ex : Path.basename "/a/b/c.txt" = "c.txt".
Proof. reflexivity. Qed.

Example split_sep_ex :
  Path.split_sep "/a//b/./c.txt" = [""; "a"; ""; "b"; "."; "c.txt"].
Proof. reflexivity. Qed.

Example strip_ex : Str.strip (" sk-1 2 " ++ Str.newline) = "sk-1 2".
Proof. reflexivity. Qed.

(** A no-break space (U+00A0) and an em space (U+2003) are white space. *)
Example strip_unicode_ex :
  Str.strip
    (Str.of_bytes [226; 128; 131] ++ "sk-test" ++ Str.of_bytes [194; 160; 10])
  = "sk-test".
Proof. reflexivity. Qed.

(** Paths as the kernel walks them: [..] goes up from a directory that is
    there, and nothing lies below a regular file. *)
Example locate_ex :
  locate Sample.world "/corpus//report1/./../report2"
  = Ok ["corpus"; "report2"] /\
  locate Sample.world "/corpus/report1/new.txt"
  = Ok ["corpus"; "report1"; "new.txt"] /\
  stat Sample.world "/corpus/missing/.." = Raise FileNotFoundError /\
  stat Sample.world "/key.txt/" = Raise NotADirectoryError /\
  fst (exists_ "/corpus/report1/.." Sample.world) = Ok true.
Proof. repeat split. Qed.

Example of_nat_ex : Str.of_nat 12 = "12" /\ Str.of_nat 0 = "0".
Proof. split; reflexivity. Qed.

Example join_shapes :
  Path.join "/out/" "a.txt" = "/out/a.txt" /\
  Path.join "" "a.txt" = "a.txt" /\
  Path.join "/out" "/etc/a.txt" = "/etc/a.txt".
Proof. repeat split. Qed.

Example replace_every_occurrence :
  Str.replace "ABBYY_ABBYYY.ABBY" "ABBYY" "PROCESSED"
  = "PROCESSED_PROCESSEDY.ABBY" /\
  Str.replace "aaa" "aa" "b" = "ba" /\
  Str.replace "ab" "" "-" = "-a-b-".
Proof. repeat split. Qed.

Example endswith_txt :
  Str.endswith "a.txt" ".txt" = true /\ Str.endswith ".txt" ".txt" = true /\
  Str.endswith "a.txt.bak" ".txt" = false /\ Str.endswith "txt" ".txt" = false.
Proof. repeat split. Qed.

(** A working directory named through [..]: the run passes both guards
    and replaces the polished file of the earlier run. *)
Example polish_through_parent :
  fst (exists_ "/t/x/.." Sample.world_parent) = Ok true /\
  stat Sample.world_parent "/t/x/../PROCESSED_OCR/PROCESSED_1.txt"
  = Ok (File "old") /\
  match
    stat
      (snd (Polish.main_with Sample.echo "/t/x/.." "/key.txt" "gpt-4o-mini"
              200 Sample.world_parent))
      "/t/PROCESSED_OCR/PROCESSED_1.txt"
  with
  | Ok (File text) => Str.contains text "Frist"
  | _ => false
  end = true.
Proof. repeat split; vm_compute; reflexivity. Qed.

(** The scenario of the two scans of [report1], with the echoing service:
    the artifact holds both transcriptions. *)
Example report1_end_to_end :
  match
    stat
      (snd (Ensemble.process_subdirectory Sample.echo "sk-test" "gpt-4o" 1000
              "/corpus/report1" "/out" Sample.world))
      "/out/report1-ensemble.txt"
  with
  | Ok (File text) =>
      Str.contains text "Hello wrold" && Str.contains text "Hello world"
  | _ => false
  end = true.
Proof. vm_compute. reflexivity. Qed.

(** A whole run of each script over the sample corpus. *)
Example ensemble_run :
  stdout
    (snd (Ensemble.main_with Sample.echo "/key.txt" "/corpus" "/out" "gpt-4o"
            1000 Sample.world))
  = ["Processing directory: /corpus/report1";
     "Processing directory: /corpus/empty";
     "Processing directory: /corpus/report2";
     "DONE"].
Proof. vm_compute. reflexivity. Qed.

Example polish_run :
  stdout
    (snd (Polish.main_with Sample.echo "/transcriptions" "/key.txt"
            "gpt-4o-mini" 200 Sample.world))
  = ["Processing file: /transcriptions/ABBYY_OCR/ABBYY_001.txt";
     "Saved processed file to: /transcriptions/PROCESSED_OCR/PROCESSED_001.txt";
     "Processing file: /transcriptions/ABBYY_OCR/ABBYY_002";
     "Saved processed file to: /transcriptions/PROCESSED_OCR/PROCESSED_002";
     "Processing file: /transcriptions/ABBYY_OCR/ABBYY_003.txt";
     "Saved processed file to: /transcriptions/PROCESSED_OCR/PROCESSED_003.txt";
     "DONE"].
Proof. vm_compute. reflexivity. Qed.

(** [main] as it stands, its paths left as they are in the source: the key
    file is not there. *)
Example main_as_is :
  fst (Ensemble.main Sample.echo Sample.world) = Raise FileNotFoundError /\
  fst (Polish.main Sample.echo Sample.world) = Raise FileNotFoundError.
Proof. split; vm_compute; reflexivity. Qed.

(** * Properties *)

Local Open Scope string_scope.

(** ** Strings *)

Lemma append_nil_r (s : string) : s ++ "" = s.
Proof. induction s; simpl; congruence. Qed.

Lemma append_assoc (a b c : string) : (a ++ b) ++ c = a ++ b ++ c.
Proof. induction a; simpl; congruence. Qed.

Lemma length_append (a b : string) :
  String.length (a ++ b) = String.length a + String.length b.
Proof. induction a; simpl; auto. Qed.

Lemma prefix_empty (s : string) : String.prefix "" s = true.
Proof. now destruct s. Qed.

Lemma prefix_append (p s : string) : String.prefix p (p ++ s) = true.
Proof.
  induction p as [|c p IH]; simpl.
  - now destruct s.
  - destruct (ascii_dec c c); [assumption | congruence].
Qed.

Lemma contains_prefix (s p : string) :
  String.prefix p s = true -> Str.contains s p = true.
Proof. intros H. destruct s; cbn [Str.contains]; rewrite H; reflexivity. Qed.

Lemma contains_append (a b c : string) : Str.contains (a ++ b ++ c) b = true.
Proof.
  induction a as [|x a IH]; simpl.
  - apply contains_prefix, prefix_append.
  - rewrite IH. apply orb_true_r.
Qed.

Lemma has_char_append (c : ascii) (a b : string) :
  Str.has_char c (a ++ b) = Str.has_char c a || Str.has_char c b.
Proof.
  induction a as [|x a IH]; simpl; [reflexivity|].
  rewrite IH. apply orb_assoc.
Qed.

Lemma endswith_refl (b : string) : Str.endswith b b = true.
Proof. destruct b; cbn [Str.endswith]; rewrite String.eqb_refl; reflexivity. Qed.

Lemma endswith_append (a b : string) : Str.endswith (a ++ b) b = true.
Proof.
  induction a as [|x a IH].
  - apply endswith_refl.
  - cbn [String.append Str.endswith]. rewrite IH. apply orb_true_r.
Qed.

Lemma endswith_inv (s p : string) :
  Str.endswith s p = true -> exists a, s = a ++ p.
Proof.
  induction s as [|x s IH]; cbn [Str.endswith].
  - rewrite orb_false_r. intros H. apply String.eqb_eq in H. subst.
    exists "". reflexivity.
  - intros H. apply orb_true_iff in H. destruct H as [H|H].
    + apply String.eqb_eq in H. exists "". simpl. assumption.
    + destruct (IH H) as [a ->]. exists (String x a). reflexivity.
Qed.

(** *** Decimal numerals *)

Lemma digits_NilEmpty (d : uint) :
  all_chars is_digit (NilEmpty.string_of_uint d) = true.
Proof. induction d; simpl; auto. Qed.

Lemma digits_of_nat (i : nat) : all_chars is_digit (Str.of_nat i) = true.
Proof.
  unfold Str.of_nat, NilZero.string_of_uint.
  destruct (Nat.to_uint i) eqn:E; try (rewrite <- E; apply digits_NilEmpty).
  reflexivity.
Qed.

Lemma all_chars_has_char (P : ascii -> bool) (c : ascii) (s : string) :
  all_chars P s = true -> P c = false -> Str.has_char c s = false.
Proof.
  intros Hs Hc. induction s as [|x s IH]; simpl in *; [reflexivity|].
  apply andb_true_iff in Hs. destruct Hs as [Hx Hs].
  rewrite (IH Hs), orb_false_r.
  destruct (Ascii.eqb_spec x c); [congruence | reflexivity].
Qed.

Lemma of_nat_inj_parse (i : nat) :
  NilZero.uint_of_string (Str.of_nat i) = Some (Nat.to_uint i).
Proof.
  unfold Str.of_nat. apply NilZero.usu.
  destruct i; simpl; [discriminate|].
  intros H.
  assert (E : Nat.of_uint (Nat.to_uint (S i)) = 0) by (simpl; rewrite H; reflexivity).
  rewrite Unsigned.of_to in E. discriminate.
Qed.

(** ** The payload builders *)

Lemma fold_left_snoc {A B} (f : A -> B) (l : list A) (acc : list B) :
  fold_left (fun acc x => (acc ++ [f x])%list) l acc = (acc ++ map f l)%list.
Proof.
  revert acc. induction l as [|x l IH]; intros acc; simpl.
  - now rewrite app_nil_r.
  - rewrite IH, <- app_assoc. reflexivity.
Qed.

Lemma enumerate_length {A} (l : list A) (s : nat) :
  length (enumerate l s) = length l.
Proof. revert s. induction l; intros s; simpl; auto. Qed.

Lemma enumerate_nth {A} (l : list A) (s i : nat) :
  nth_error (enumerate l s) i =
  option_map (fun x => (s + i, x)) (nth_error l i).
Proof.
  revert s i. induction l as [|x l IH]; intros s [|i]; simpl; try reflexivity.
  - now rewrite Nat.add_0_r.
  - rewrite IH. now rewrite Nat.add_succ_r.
Qed.


Lemma enumerate_map_fst {A} (l : list A) (s : nat) :
  map fst (enumerate l s) = seq s (length l).
Proof. revert s. induction l; intros s; simpl; congruence. Qed.

Lemma fold_left_pointwise {A B} (f g : A -> B -> A) (l : list B) (a : A) :
  (forall x y, f x y = g x y) -> fold_left f l a = fold_left g l a.
Proof.
  intros E. revert a. induction l as [|y l IH]; intros a; simpl.
  - reflexivity.
  - rewrite E. apply IH.
Qed.

Lemma ensemble_construct_messages_eq (ocrs : list string) :
  Ensemble.construct_messages ocrs =
  Message "system" Ensemble.system_prompt
    :: map ensemble_entry (enumerate ocrs 1).
Proof.
  unfold Ensemble.construct_messages.
  transitivity
    (fold_left (fun acc x => (acc ++ [ensemble_entry x])%list)
       (enumerate ocrs 1) [Message "system" Ensemble.system_prompt]).
  - apply fold_left_pointwise. intros acc [i ocr]. reflexivity.
  - rewrite fold_left_snoc. reflexivity.
Qed.

Lemma before_append (c : ascii) (a b : string) :
  Str.has_char c a = false ->
  Payload.before c (a ++ String c b) = a.
Proof.
  induction a as [|x a IH]; simpl.
  - now rewrite Ascii.eqb_refl.
  - intros H. apply orb_false_iff in H. destruct H as [Hx Ha].
    rewrite Hx, (IH Ha). reflexivity.
Qed.

Lemma after_append (c : ascii) (a b : string) :
  Str.has_char c a = false ->
  Payload.after c (a ++ String c b) = b.
Proof.
  induction a as [|x a IH]; simpl.
  - now rewrite Ascii.eqb_refl.
  - intros H. apply orb_false_iff in H. destruct H as [Hx Ha].
    rewrite Hx. apply (IH Ha).
Qed.

Lemma drop_append (a b : string) : Payload.drop (String.length a) (a ++ b) = b.
Proof. induction a; simpl; auto. Qed.

Lemma take_append (a b : string) : Payload.take (String.length a) (a ++ b) = a.
Proof. induction a; simpl; [now destruct b | congruence]. Qed.

Lemma label_user_message (i : nat) (ocr : string) :
  Payload.label (Ensemble.user_message i ocr) = Some i.
Proof.
  unfold Payload.label, Ensemble.user_message. cbn [content].
  change ("#### OCR-transkription " ++ Str.of_nat i ++ ": #### " ++ nl ++ ocr ++ nl ++ nl)
    with (Payload.label_prefix ++ Str.of_nat i ++ String ":"%char (" #### " ++ nl ++ ocr ++ nl ++ nl)).
  unfold Str.startswith. rewrite prefix_append, drop_append.
  rewrite before_append.
  - rewrite of_nat_inj_parse. f_equal. apply Unsigned.of_to.
  - apply (all_chars_has_char is_digit); [apply digits_of_nat | reflexivity].
Qed.

Lemma text_of_content (r h body : string) :
  Str.has_char "010"%char h = false ->
  Payload.text (Message r (h ++ nl ++ body ++ nl ++ nl)) = body.
Proof.
  intros Hh. unfold Payload.text. cbn [content].
  change (h ++ nl ++ body ++ nl ++ nl)
    with (h ++ String "010"%char (body ++ nl ++ nl)).
  rewrite (after_append _ _ _ Hh), length_append.
  change (String.length (nl ++ nl)) with 2.
  rewrite Nat.add_sub. apply take_append.
Qed.

Lemma text_user_message (i : nat) (ocr : string) :
  Payload.text (Ensemble.user_message i ocr) = ocr.
Proof.
  unfold Ensemble.user_message.
  replace ("#### OCR-transkription " ++ Str.of_nat i ++ ": #### " ++ nl ++ ocr ++ nl ++ nl)
    with (("#### OCR-transkription " ++ Str.of_nat i ++ ": #### ") ++ nl ++ ocr ++ nl ++ nl)
    by (rewrite !append_assoc; reflexivity).
  apply text_of_content.
  rewrite !has_char_append.
  rewrite (all_chars_has_char is_digit "010"%char _ (digits_of_nat i) eq_refl).
  reflexivity.
Qed.



Lemma labels_construct_messages (ocrs : list string) :
  map Payload.label (tl (Ensemble.construct_messages ocrs)) =
  map Some (seq 1 (length ocrs)).
Proof.
  rewrite ensemble_construct_messages_eq. cbn [tl].
  rewrite <- (enumerate_map_fst ocrs 1), !map_map.
  apply map_ext. intros [i ocr]. apply label_user_message.
Qed.

(** C1. The ensemble payload has one segment more than there are candidates:
    the fixed system instruction first, then one user segment per candidate
    in input order.  The candidate at (0-based) position [i] sits at
    (0-based) position [i + 1] of the payload, its text is embedded verbatim
    between the header line and the closing blank line, and it is labelled
    [i + 1]; read back from the payload, the labels are [1, ..., n].  (This
    holds for the empty sequence too, whose payload is the system segment
    alone.) *)
Theorem ensemble_payload_shape (ocrs : list string) :
  let messages := Ensemble.construct_messages ocrs in
  length messages = length ocrs + 1 /\
  nth_error messages 0 = Some (Message "system" Ensemble.system_prompt) /\
  map Payload.label (tl messages) = map Some (seq 1 (length ocrs)) /\
  forall (i : nat) (ocr : string),
    nth_error ocrs i = Some ocr ->
    exists m : message,
      nth_error messages (i + 1) = Some m /\
      role m = "user" /\
      content m =
        "#### OCR-transkription " ++ Str.of_nat (i + 1) ++ ": #### " ++ nl
          ++ ocr ++ nl ++ nl /\
      Payload.label m = Some (i + 1) /\
      Payload.text m = ocr /\
      Str.contains (content m) ocr = true.
Proof.
  cbv zeta. split; [|split; [|split]].
  - rewrite ensemble_construct_messages_eq. cbn [length].
    rewrite length_map, enumerate_length. lia.
  - rewrite ensemble_construct_messages_eq. reflexivity.
  - apply labels_construct_messages.
  - intros i ocr Hi. exists (Ensemble.user_message (i + 1) ocr).
    split; [|split; [|split; [|split; [|split]]]].
    + rewrite ensemble_construct_messages_eq, Nat.add_1_r. cbn [nth_error].
      rewrite nth_error_map, enumerate_nth, Hi. cbn [option_map].
      unfold ensemble_entry. cbn [fst snd]. reflexivity.
    + reflexivity.
    + reflexivity.
    + apply label_user_message.
    + apply text_user_message.
    + cbn [content Ensemble.user_message].
      replace ("#### OCR-transkription " ++ Str.of_nat (i + 1) ++ ": #### " ++ nl ++ ocr ++ nl ++ nl)
        with (("#### OCR-transkription " ++ Str.of_nat (i + 1) ++ ": #### " ++ nl) ++ ocr ++ nl ++ nl)
        by (rewrite !append_assoc; reflexivity).
      apply contains_append.
Qed.

Lemma ensemble_payload_shape_witness :
  exists m : message,
    nth_error (Ensemble.construct_messages ["Hello wrold"; "Hello world"]) 2
      = Some m /\
    Payload.label m = Some 2 /\ Payload.text m = "Hello world".
Proof.
  destruct (ensemble_payload_shape ["Hello wrold"; "Hello world"])
    as (_ & _ & _ & H).
  destruct (H 1 "Hello world" eq_refl) as (m & Hm & _ & _ & Hl & Ht & _).
  exists m. split; [exact Hm | split; [exact Hl | exact Ht]].
Defined.

(** C3. The polish payload is the fixed instruction segment followed by
    exactly one user entry; the entry's content is the label header, a
    newline, the text, a blank line, and the text again. *)
Theorem polish_payload_shape (ocr : string) :
  let messages := Polish.construct_messages ocr in
  length messages = 2 /\
  nth_error messages 0 = Some (Message "system" Polish.system_prompt) /\
  (exists m : message,
     filter (fun m => role m =? "user") messages = [m] /\
     nth_error messages 1 = Some m /\
     content m = "#### OCR-transkription: #### " ++ nl ++ ocr ++ nl ++ nl ++ ocr /\
     Str.contains (content m) ocr = true /\
     String.length (content m) = 30 + String.length ocr + 2 + String.length ocr).
Proof.
  cbv zeta. split; [reflexivity | split; [reflexivity|]].
  eexists. split; [reflexivity | split; [reflexivity | split; [reflexivity|]]].
  cbn [content]. split.
  - replace ("#### OCR-transkription: #### " ++ nl ++ ocr ++ nl ++ nl ++ ocr)
      with (("#### OCR-transkription: #### " ++ nl) ++ ocr ++ nl ++ nl ++ ocr)
      by (rewrite !append_assoc; reflexivity).
    apply contains_append.
  - rewrite !length_append. cbn [String.length nl Str.newline]. lia.
Qed.



(** ** Paths *)

Lemma split_sep_nonempty (s : string) : Path.split_sep s <> [].
Proof.
  destruct s as [|c s]; cbn [Path.split_sep]; [discriminate|].
  destruct (Ascii.eqb c Str.sep); [discriminate|].
  destruct (Path.split_sep s); discriminate.
Qed.

Lemma split_sep_append (a b : string) :
  Path.split_sep (a ++ String Str.sep b) =
  (Path.split_sep a ++ Path.split_sep b)%list.
Proof.
  induction a as [|c a IH]; cbn [String.append Path.split_sep].
  - rewrite Ascii.eqb_refl. reflexivity.
  - rewrite IH. destruct (Ascii.eqb c Str.sep); [reflexivity|].
    destruct (Path.split_sep a) eqn:E; [|reflexivity].
    now apply split_sep_nonempty in E.
Qed.

Lemma split_sep_no_sep (f : string) :
  Str.has_char Str.sep f = false -> Path.split_sep f = [f].
Proof.
  induction f as [|c f IH]; cbn [Str.has_char Path.split_sep]; [reflexivity|].
  intros H. apply orb_false_iff in H. destruct H as [Hc Hf].
  rewrite Hc, (IH Hf). reflexivity.
Qed.

Lemma valid_name_inv (f : string) :
  Path.valid_name f = true ->
  Str.has_char Str.sep f = false /\ (f =? "") = false /\
  (f =? ".") = false /\ (f =? "..") = false.
Proof.
  unfold Path.valid_name. intros H.
  apply andb_true_iff in H. destruct H as [H H4].
  apply andb_true_iff in H. destruct H as [H H3].
  apply andb_true_iff in H. destruct H as [H1 H2].
  apply negb_true_iff in H1, H2, H3, H4. auto.
Qed.

Lemma valid_name_no_sep (f : string) :
  Path.valid_name f = true -> Str.has_char Str.sep f = false.
Proof. intros H. now apply valid_name_inv in H. Qed.

Lemma startswith_sep_no_sep (f : string) :
  Str.has_char Str.sep f = false -> Str.startswith f "/" = false.
Proof.
  destruct f as [|c f]; [reflexivity|].
  cbn [Str.has_char]. intros H. apply orb_false_iff in H. destruct H as [Hc _].
  unfold Str.startswith. cbn [String.prefix].
  destruct (ascii_dec "/" c) as [E|E]; [|reflexivity].
  subst c. discriminate.
Qed.

(** The three shapes [os.path.join] gives to a relative second argument. *)
Lemma join_cases (a f : string) :
  Str.has_char Str.sep f = false ->
  (a = "" /\ Path.join a f = f) \/
  (a <> "" /\ (exists a', a = a' ++ "/") /\ Path.join a f = a ++ f) \/
  (a <> "" /\ Str.endswith a "/" = false /\ Path.join a f = a ++ "/" ++ f).
Proof.
  intros Hf. unfold Path.join. rewrite (startswith_sep_no_sep f Hf).
  destruct a as [|c a]; [left; split; reflexivity|].
  right. change (String c a =? "") with false. cbn [orb].
  destruct (Str.endswith (String c a) "/") eqn:E.
  - left. split; [discriminate|]. split; [|reflexivity].
    now apply endswith_inv.
  - right. split; [discriminate|]. split; reflexivity.
Qed.

Lemma is_absolute_join (a f : string) :
  a <> "" -> Str.has_char Str.sep f = false ->
  Path.is_absolute (Path.join a f) = Path.is_absolute a.
Proof.
  intros Ha Hf.
  destruct (join_cases a f Hf) as [[E _] | [(_ & _ & ->) | (_ & _ & ->)]];
    [contradiction | |]; destruct a as [|c a]; try contradiction;
    unfold Path.is_absolute, Str.startswith;
    cbn [String.append String.prefix]; destruct (ascii_dec "/" c);
    rewrite ?prefix_empty; reflexivity.
Qed.

Lemma join_nonempty (a f : string) :
  a <> "" -> Str.has_char Str.sep f = false -> Path.join a f <> "".
Proof.
  intros Ha Hf.
  destruct (join_cases a f Hf) as [[E _] | [(_ & _ & ->) | (_ & _ & ->)]];
    [contradiction | |]; destruct a; try contradiction; discriminate.
Qed.

Lemma basename_no_sep (f : string) :
  Str.has_char Str.sep f = false -> Path.basename f = f.
Proof.
  intros H. destruct f as [|c f]; [reflexivity|].
  cbn [Path.basename]. now rewrite H.
Qed.

Lemma basename_append (a f : string) :
  Str.has_char Str.sep f = false ->
  Path.basename (a ++ String Str.sep f) = f.
Proof.
  intros Hf. induction a as [|c a IH]; cbn [String.append Path.basename].
  - cbn [Str.has_char]. rewrite Ascii.eqb_refl. cbn [orb].
    now apply basename_no_sep.
  - cbn [Str.has_char]. rewrite has_char_append. cbn [Str.has_char].
    rewrite Ascii.eqb_refl, orb_true_r, orb_true_r. exact IH.
Qed.

Lemma basename_join (a f : string) :
  Str.has_char Str.sep f = false -> Path.basename (Path.join a f) = f.
Proof.
  intros Hf.
  destruct (join_cases a f Hf) as [[_ ->] | [(_ & [a' E] & ->) | (_ & _ & ->)]].
  - now apply basename_no_sep.
  - subst a. rewrite append_assoc. now apply basename_append.
  - now apply basename_append.
Qed.

(** ** The file system *)

Lemma assoc_set_same {A} (k : string) (v v0 : A) (es : list (string * A)) :
  assoc k es = Some v0 -> assoc k (assoc_set k v es) = Some v.
Proof.
  induction es as [|[k' v'] es IH]; cbn [assoc assoc_set]; [discriminate|].
  destruct (k' =? k) eqn:E; cbn [assoc]; rewrite E; auto.
Qed.

Lemma assoc_app_new {A} (k : string) (v : A) (es : list (string * A)) :
  assoc k es = None -> assoc k (es ++ [(k, v)])%list = Some v.
Proof.
  induction es as [|[k' v'] es IH]; cbn [assoc List.app].
  - now rewrite String.eqb_refl.
  - destruct (k' =? k); [discriminate | exact IH].
Qed.

Lemma assoc_not_In {A} (k : string) (es : list (string * A)) :
  ~ In k (map fst es) -> assoc k es = None.
Proof.
  induction es as [|[k' v'] es IH]; cbn [assoc map fst In]; [reflexivity|].
  intros H. destruct (String.eqb_spec k' k) as [E|E].
  - exfalso. apply H. now left.
  - apply IH. intros H'. apply H. now right.
Qed.

Lemma assoc_In_NoDup {A} (k : string) (v : A) (es : list (string * A)) :
  NoDup (map fst es) -> In (k, v) es -> assoc k es = Some v.
Proof.
  induction es as [|[k' v'] es IH]; cbn [assoc map fst In]; [contradiction|].
  intros Hnd [H|H]; inversion Hnd as [|? ? Hk Hes]; subst.
  - inversion H; subst. now rewrite String.eqb_refl.
  - destruct (String.eqb_spec k' k) as [E|E]; [|now apply IH].
    subst k'. exfalso. apply Hk.
    change k with (fst (k, v)). now apply in_map.
Qed.

Lemma lookup_app (p q : list string) (n : node) :
  FS.lookup (p ++ q)%list n = rbind (FS.lookup p n) (FS.lookup q).
Proof.
  revert n. induction p as [|c p IH]; intros n; cbn [List.app FS.lookup rbind].
  - reflexivity.
  - destruct n as [data|es]; [reflexivity|].
    destruct (assoc c es); [apply IH | reflexivity].
Qed.

Lemma lookup_store (p : list string) (data : string) (n n' : node) :
  FS.store p data n = Ok n' -> FS.lookup p n' = Ok (File data).
Proof.
  revert n n'. induction p as [|c p IH]; intros n n'; cbn [FS.store].
  - destruct n; intros H; inversion H. reflexivity.
  - destruct n as [d|es]; [discriminate|].
    destruct (assoc c es) as [n0|] eqn:E.
    + destruct (FS.store p data n0) as [n1|e] eqn:S; cbn [rbind];
        intros H; inversion H; subst.
      cbn [FS.lookup]. rewrite (assoc_set_same c n1 n0 es E).
      now apply (IH n0).
    + destruct p; intros H; inversion H; subst.
      cbn [FS.lookup]. now rewrite (assoc_app_new c (File data) es E).
Qed.

(** A path that leads somewhere goes through directories only. *)
Lemma lookup_parent (p : list string) (c : string) (n x : node) :
  FS.lookup (p ++ [c])%list n = Ok x -> exists es, FS.lookup p n = Ok (Dir es).
Proof.
  rewrite lookup_app. destruct (FS.lookup p n) as [[d|es]|e]; cbn [rbind FS.lookup].
  - discriminate.
  - intros _. now exists es.
  - discriminate.
Qed.

Lemma lookup_child (p : list string) (c : string) (n : node)
  (es : list (string * node)) :
  FS.lookup p n = Ok (Dir es) ->
  FS.lookup (p ++ [c])%list n =
  match assoc c es with
  | Some x => Ok x
  | None => Raise FileNotFoundError
  end.
Proof.
  intros H. rewrite lookup_app, H. cbn [rbind FS.lookup].
  destruct (assoc c es); reflexivity.
Qed.

Lemma assoc_set_other {A} (k k' : string) (v : A) (es : list (string * A)) :
  k' <> k -> assoc k' (assoc_set k v es) = assoc k' es.
Proof.
  intros Hk. induction es as [|[k0 v0] es IH]; cbn [assoc assoc_set];
    [reflexivity|].
  destruct (String.eqb_spec k0 k) as [E|E]; cbn [assoc].
  - subst k0. destruct (String.eqb_spec k k') as [E'|E']; [congruence|].
    reflexivity.
  - now rewrite IH.
Qed.

Lemma assoc_app_some {A} (k : string) (v : A) (es l : list (string * A)) :
  assoc k es = Some v -> assoc k (es ++ l)%list = Some v.
Proof.
  induction es as [|[k0 v0] es IH]; cbn [assoc List.app]; [discriminate|].
  destruct (k0 =? k); auto.
Qed.

Lemma mkdirs_keeps_files (p q : list string) (n n' : node) (d : string) :
  FS.mkdirs p n = Ok n' ->
  FS.lookup q n = Ok (File d) -> FS.lookup q n' = Ok (File d).
Proof.
  revert q n n'. induction p as [|c p IH]; intros q n n'; cbn [FS.mkdirs].
  - destruct n; intros H; inversion H; subst; auto.
  - destruct n as [d0|es]; [discriminate|].
    destruct q as [|c' q]; [discriminate|]. cbn [FS.lookup].
    destruct (assoc c' es) as [x|] eqn:Ex; [|discriminate].
    destruct (assoc c es) as [n0|] eqn:E.
    + destruct (FS.mkdirs p n0) as [n1|e] eqn:S; cbn [rbind]; [|discriminate].
      intros H Hq. inversion H; subst n'. cbn [FS.lookup].
      destruct (String.eqb_spec c' c) as [E'|E'].
      * subst c'. rewrite (assoc_set_same c n1 n0 es E).
        rewrite E in Ex. inversion Ex; subst x. now apply (IH q n0).
      * now rewrite (assoc_set_other c c' n1 es E'), Ex.
    + destruct (FS.mkdirs p (Dir [])) as [n1|e]; cbn [rbind]; [|discriminate].
      intros H Hq. inversion H; subst n'. cbn [FS.lookup].
      now rewrite (assoc_app_some c' x es _ Ex).
Qed.

Lemma store_keeps_files (p q : list string) (data : string) (n n' : node)
  (d : string) :
  FS.store p data n = Ok n' -> q <> p ->
  FS.lookup q n = Ok (File d) -> FS.lookup q n' = Ok (File d).
Proof.
  revert q n n'. induction p as [|c p IH]; intros q n n'; cbn [FS.store].
  - destruct n as [d0|es]; [|discriminate]. intros _ Hq.
    destruct q as [|c' q]; [contradiction | discriminate].
  - destruct n as [d0|es]; [discriminate|].
    destruct q as [|c' q]; [discriminate|]. cbn [FS.lookup].
    destruct (assoc c' es) as [x|] eqn:Ex; [|discriminate].
    destruct (assoc c es) as [n0|] eqn:E.
    + destruct (FS.store p data n0) as [n1|e] eqn:S; cbn [rbind]; [|discriminate].
      intros H Hne Hq. inversion H; subst n'. cbn [FS.lookup].
      destruct (String.eqb_spec c' c) as [E'|E'].
      * subst c'. rewrite (assoc_set_same c n1 n0 es E).
        rewrite E in Ex. inversion Ex; subst x.
        apply (IH q n0); [assumption | congruence | assumption].
      * now rewrite (assoc_set_other c c' n1 es E'), Ex.
    + destruct p; [|discriminate].
      intros H Hne Hq. inversion H; subst n'. cbn [FS.lookup].
      now rewrite (assoc_app_some c' x es _ Ex).
Qed.

(** A regular file stays a regular file, whatever is stored. *)
Lemma store_keeps_file_kind (p q : list string) (data : string) (n n' : node)
  (d : string) :
  FS.store p data n = Ok n' ->
  FS.lookup q n = Ok (File d) -> exists d', FS.lookup q n' = Ok (File d').
Proof.
  intros H Hq. destruct (list_eq_dec string_dec q p) as [E|E].
  - subst q. exists data. now apply lookup_store in H.
  - exists d. now apply (store_keeps_files p q data n n').
Qed.

(** Creating directories and storing a file keep the directories. *)
Lemma mkdirs_keeps_dirs (p q : list string) (n n' : node)
  (es : list (string * node)) :
  FS.mkdirs p n = Ok n' ->
  FS.lookup q n = Ok (Dir es) -> exists es', FS.lookup q n' = Ok (Dir es').
Proof.
  revert q n n' es. induction p as [|c p IH]; intros q n n' es; cbn [FS.mkdirs].
  - destruct n; intros H; inversion H; subst; eauto.
  - destruct n as [d0|es0]; [discriminate|].
    destruct (assoc c es0) as [n0|] eqn:E.
    + destruct (FS.mkdirs p n0) as [n1|e] eqn:S; cbn [rbind]; [|discriminate].
      intros H Hq. inversion H; subst n'.
      destruct q as [|c' q]; [cbn [FS.lookup]; eauto|].
      cbn [FS.lookup] in *.
      destruct (assoc c' es0) as [x|] eqn:Ex; [|discriminate].
      destruct (String.eqb_spec c' c) as [E'|E'].
      * subst c'. rewrite (assoc_set_same c n1 n0 es0 E).
        rewrite E in Ex. inversion Ex; subst x. now apply (IH q n0 n1 es).
      * rewrite (assoc_set_other c c' n1 es0 E'), Ex. eauto.
    + destruct (FS.mkdirs p (Dir [])) as [n1|e]; cbn [rbind]; [|discriminate].
      intros H Hq. inversion H; subst n'.
      destruct q as [|c' q]; [cbn [FS.lookup]; eauto|].
      cbn [FS.lookup] in *.
      destruct (assoc c' es0) as [x|] eqn:Ex; [|discriminate].
      rewrite (assoc_app_some c' x es0 _ Ex). eauto.
Qed.

Lemma store_keeps_dirs (p q : list string) (data : string) (n n' : node)
  (es : list (string * node)) :
  FS.store p data n = Ok n' ->
  FS.lookup q n = Ok (Dir es) -> exists es', FS.lookup q n' = Ok (Dir es').
Proof.
  revert q n n' es. induction p as [|c p IH]; intros q n n' es; cbn [FS.store].
  - destruct n as [d0|es0]; [|discriminate]. intros _.
    destruct q; discriminate.
  - destruct n as [d0|es0]; [discriminate|].
    destruct (assoc c es0) as [n0|] eqn:E.
    + destruct (FS.store p data n0) as [n1|e] eqn:S; cbn [rbind];
        [|discriminate].
      intros H Hq. inversion H; subst n'.
      destruct q as [|c' q]; [cbn [FS.lookup]; eauto|].
      cbn [FS.lookup] in *.
      destruct (assoc c' es0) as [x|] eqn:Ex; [|discriminate].
      destruct (String.eqb_spec c' c) as [E'|E'].
      * subst c'. rewrite (assoc_set_same c n1 n0 es0 E).
        rewrite E in Ex. inversion Ex; subst x. now apply (IH q n0 n1 es).
      * rewrite (assoc_set_other c c' n1 es0 E'), Ex. eauto.
    + destruct p; [|discriminate].
      intros H Hq. inversion H; subst n'.
      destruct q as [|c' q]; [cbn [FS.lookup]; eauto|].
      cbn [FS.lookup] in *.
      destruct (assoc c' es0) as [x|] eqn:Ex; [|discriminate].
      rewrite (assoc_app_some c' x es0 _ Ex). eauto.
Qed.

Lemma lookup_removelast (cur : list string) (n : node)
  (es : list (string * node)) :
  FS.lookup cur n = Ok (Dir es) ->
  exists es', FS.lookup (removelast cur) n = Ok (Dir es').
Proof.
  intros H. destruct cur as [|c cur]; [cbn [removelast]; eauto|].
  assert (Hne : c :: cur <> []) by discriminate.
  rewrite (app_removelast_last "" Hne) in H.
  now apply lookup_parent in H.
Qed.

(** ** Walking a path *)

Lemma walk_app (r : node) (cur raw1 raw2 : list string) :
  FS.walk r cur (raw1 ++ raw2)%list =
  rbind (FS.walk r cur raw1) (fun c => FS.walk r c raw2).
Proof.
  revert cur. induction raw1 as [|c raw1 IH]; intros cur;
    cbn [List.app FS.walk rbind]; [reflexivity|].
  destruct (FS.lookup cur r) as [[d|es]|e]; cbn [rbind]; auto.
Qed.

(** A walk with a step to take starts from a directory. *)
Lemma walk_cons_inv (r : node) (cur : list string) (c : string)
  (raw cs : list string) :
  FS.walk r cur (c :: raw) = Ok cs ->
  (exists es, FS.lookup cur r = Ok (Dir es)) /\
  FS.walk r
    (if (c =? "") || (c =? ".") then cur
     else if c =? ".." then removelast cur
     else (cur ++ [c])%list) raw = Ok cs.
Proof.
  cbn [FS.walk]. destruct (FS.lookup cur r) as [[d|es]|e]; try discriminate.
  intros H. split; [eauto | exact H].
Qed.

Lemma walk_dir (r : node) (cur : list string) (c : string)
  (raw : list string) (es : list (string * node)) :
  FS.lookup cur r = Ok (Dir es) ->
  FS.walk r cur (c :: raw) =
  FS.walk r
    (if (c =? "") || (c =? ".") then cur
     else if c =? ".." then removelast cur
     else (cur ++ [c])%list) raw.
Proof. intros H. cbn [FS.walk]. now rewrite H. Qed.

(** One step into the entry named [f]. *)
Lemma walk_name (r : node) (cur : list string) (f : string) :
  Path.valid_name f = true ->
  FS.walk r cur [f] =
  match FS.lookup cur r with
  | Ok (Dir _) => Ok (cur ++ [f])%list
  | Ok (File _) => Raise NotADirectoryError
  | Raise e => Raise e
  end.
Proof.
  intros Hf. destruct (valid_name_inv f Hf) as (_ & H1 & H2 & H3).
  cbn [FS.walk]. rewrite H1, H2, H3. reflexivity.
Qed.

(** A walk that ends at a directory started from one. *)
Lemma walk_start_dir (r : node) (cur raw cs : list string)
  (es : list (string * node)) :
  FS.walk r cur raw = Ok cs -> FS.lookup cs r = Ok (Dir es) ->
  exists es', FS.lookup cur r = Ok (Dir es').
Proof.
  destruct raw as [|c raw].
  - cbn [FS.walk]. intros H. inversion H; subst. eauto.
  - intros H _. now apply walk_cons_inv in H.
Qed.

(** Where directories stay directories, paths lead where they led. *)
Lemma walk_mono (r r' : node) (cur raw cs : list string) :
  (forall c es, FS.lookup c r = Ok (Dir es) ->
                exists es', FS.lookup c r' = Ok (Dir es')) ->
  FS.walk r cur raw = Ok cs -> FS.walk r' cur raw = Ok cs.
Proof.
  intros Hd. revert cur. induction raw as [|c raw IH]; intros cur;
    [easy|].
  intros H. apply walk_cons_inv in H. destruct H as [[es He] H].
  destruct (Hd cur es He) as [es' He'].
  rewrite (walk_dir r' cur c raw es' He'). now apply IH.
Qed.

(** *** [os.makedirs] *)

Lemma mkwalk_keeps_files (r r' : node) (cur raw q : list string)
  (d : string) :
  FS.mkwalk r cur raw = Ok r' ->
  FS.lookup q r = Ok (File d) -> FS.lookup q r' = Ok (File d).
Proof.
  revert r cur. induction raw as [|c raw IH]; intros r cur; cbn [FS.mkwalk].
  - destruct (FS.lookup cur r) as [[d0|es]|e]; intros H; inversion H; subst.
    auto.
  - destruct (c =? ""); [apply IH|].
    destruct (FS.lookup cur r) as [[d0|es]|e]; try discriminate.
    destruct (c =? "."); [apply IH|].
    destruct (c =? ".."); [apply IH|].
    destruct (assoc c es); [apply IH|].
    destruct (FS.mkdirs (cur ++ [c]) r) as [r1|e] eqn:E; cbn [rbind];
      [|discriminate].
    intros H Hq. apply (IH r1 _ H).
    now apply (mkdirs_keeps_files _ q r r1 d E).
Qed.

Lemma mkwalk_keeps_dirs (r r' : node) (cur raw q : list string)
  (es : list (string * node)) :
  FS.mkwalk r cur raw = Ok r' ->
  FS.lookup q r = Ok (Dir es) -> exists es', FS.lookup q r' = Ok (Dir es').
Proof.
  revert r cur es. induction raw as [|c raw IH]; intros r cur es;
    cbn [FS.mkwalk].
  - destruct (FS.lookup cur r) as [[d0|es0]|e]; intros H; inversion H; subst.
    eauto.
  - destruct (c =? ""); [apply IH|].
    destruct (FS.lookup cur r) as [[d0|es0]|e]; try discriminate.
    destruct (c =? "."); [apply IH|].
    destruct (c =? ".."); [apply IH|].
    destruct (assoc c es0); [apply IH|].
    destruct (FS.mkdirs (cur ++ [c]) r) as [r1|e] eqn:E; cbn [rbind];
      [|discriminate].
    intros H Hq. destruct (mkdirs_keeps_dirs _ q r r1 es E Hq) as [es1 H1].
    now apply (IH r1 _ es1 H).
Qed.

(** After [os.makedirs] the path leads to a directory. *)
Lemma mkwalk_walk (r r' : node) (cur raw : list string) :
  FS.mkwalk r cur raw = Ok r' ->
  (exists es, FS.lookup cur r' = Ok (Dir es)) /\
  exists cs es, FS.walk r' cur raw = Ok cs /\ FS.lookup cs r' = Ok (Dir es).
Proof.
  revert r cur. induction raw as [|c raw IH]; intros r cur.
  - cbn [FS.mkwalk FS.walk].
    destruct (FS.lookup cur r) as [[d0|es]|e] eqn:E; intros H; inversion H;
      subst. split; [eauto | exists cur, es; auto].
  - cbn [FS.mkwalk]. destruct (String.eqb_spec c "") as [E0|E0].
    { intros H. destruct (IH r cur H) as [[es He] (cs & es' & Hw & Hl)].
      split; [eauto|]. exists cs, es'. split; [|exact Hl].
      rewrite (walk_dir r' cur c raw es He). subst c. exact Hw. }
    destruct (FS.lookup cur r) as [[d0|es]|e] eqn:E; try discriminate.
    assert (Hwalk : forall cur',
      FS.mkwalk r cur' raw = Ok r' ->
      (exists es1, FS.lookup cur r' = Ok (Dir es1))).
    { intros cur' H. now apply (mkwalk_keeps_dirs r r' cur' raw cur es H). }
    destruct (String.eqb_spec c ".") as [E1|E1].
    { intros H. destruct (IH r cur H) as [[es1 He] (cs & es' & Hw & Hl)].
      split; [eauto|]. exists cs, es'. split; [|exact Hl].
      rewrite (walk_dir r' cur c raw es1 He). subst c. exact Hw. }
    destruct (String.eqb_spec c "..") as [E2|E2].
    { intros H. destruct (Hwalk _ H) as [es1 He].
      destruct (IH r _ H) as [_ (cs & es' & Hw & Hl)].
      split; [eauto|]. exists cs, es'. split; [|exact Hl].
      rewrite (walk_dir r' cur c raw es1 He). subst c. exact Hw. }
    assert (Hstep : forall r1, FS.mkwalk r1 (cur ++ [c]) raw = Ok r' ->
      (exists es0, FS.lookup cur r' = Ok (Dir es0)) /\
      exists cs es0, FS.walk r' cur (c :: raw) = Ok cs /\
                     FS.lookup cs r' = Ok (Dir es0)).
    { intros r1 H. destruct (IH r1 _ H) as [[es1 He] (cs & es' & Hw & Hl)].
      destruct (lookup_parent cur c r' _ He) as [es2 He2].
      split; [eauto|]. exists cs, es'. split; [|exact Hl].
      rewrite (walk_dir r' cur c raw es2 He2).
      apply String.eqb_neq in E0, E1, E2. rewrite E0, E1, E2. exact Hw. }
    destruct (assoc c es); [apply Hstep|].
    destruct (FS.mkdirs (cur ++ [c]) r) as [r1|e]; cbn [rbind];
      [apply Hstep | discriminate].
Qed.

(** [os.makedirs(., exist_ok=True)] on a directory that is there changes
    nothing. *)
Lemma mkwalk_existing (r : node) (cur raw cs : list string)
  (es : list (string * node)) :
  FS.walk r cur raw = Ok cs -> FS.lookup cs r = Ok (Dir es) ->
  FS.mkwalk r cur raw = Ok r.
Proof.
  revert cur. induction raw as [|c raw IH]; intros cur.
  - cbn [FS.walk FS.mkwalk]. intros H Hl. inversion H; subst.
    now rewrite Hl.
  - intros H Hl. apply walk_cons_inv in H. destruct H as [[es0 He] H].
    cbn [FS.mkwalk]. rewrite He.
    destruct (String.eqb_spec c "") as [E0|E0]; [now apply IH|].
    destruct (String.eqb_spec c ".") as [E1|E1]; [now apply IH|].
    destruct (String.eqb_spec c "..") as [E2|E2]; [now apply IH|].
    cbn [orb] in H.
    destruct (walk_start_dir r _ raw cs es H Hl) as [es1 H1].
    rewrite (lookup_child cur c r es0 He) in H1.
    destruct (assoc c es0); [now apply IH | discriminate].
Qed.

(** *** Paths in a world *)

Lemma resolve_locate (w : World) (p : string) (cs : list string) :
  resolve w p = Some cs <-> locate w p = Ok cs.
Proof.
  unfold resolve. destruct (locate w p); split; intros H; inversion H;
    reflexivity.
Qed.

Lemma locate_nonempty (w : World) (p : string) (cs : list string) :
  locate w p = Ok cs -> p <> "".
Proof. intros H ->. discriminate. Qed.

Lemma locate_frame (w w' : World) (p : string) :
  root w' = root w -> cwd w' = cwd w -> locate w' p = locate w p.
Proof. intros Hr Hc. unfold locate. now rewrite Hr, Hc. Qed.

Lemma grows_refl (w : World) : grows w w.
Proof. repeat split; auto. Qed.

Lemma grows_trans (w1 w2 w3 : World) :
  grows w1 w2 -> grows w2 w3 -> grows w1 w3.
Proof.
  intros (C1 & D1 & F1) (C2 & D2 & F2). repeat split; auto. congruence.
Qed.

Lemma grows_frame (w w' : World) :
  root w' = root w -> cwd w' = cwd w -> grows w w'.
Proof.
  intros Hr Hc. unfold grows, dir_at, file_at. rewrite Hr. auto.
Qed.

Lemma locate_grows (w w' : World) (p : string) (cs : list string) :
  grows w w' -> locate w p = Ok cs -> locate w' p = Ok cs.
Proof.
  intros (Hc & Hd & _). unfold locate. rewrite Hc.
  destruct (p =? ""); [easy|]. apply walk_mono. intros c es H.
  apply (Hd c). now exists es.
Qed.

(** A regular file stays one at its path. *)
Lemma stat_grows (w w' : World) (p : string) (d : string) :
  grows w w' -> stat w p = Ok (File d) -> exists d', stat w' p = Ok (File d').
Proof.
  intros G. unfold stat. destruct (locate w p) as [cs|e] eqn:E;
    cbn [rbind]; [|discriminate].
  intros H. rewrite (locate_grows w w' p cs G E). cbn [rbind].
  destruct G as (_ & _ & F). apply (F cs). now exists d.
Qed.

Lemma stat_locate (w : World) (p : string) (n : node) :
  stat w p = Ok n ->
  exists cs, locate w p = Ok cs /\ FS.lookup cs (root w) = Ok n.
Proof.
  unfold stat. destruct (locate w p) as [cs|e]; cbn [rbind];
    [|discriminate].
  intros H. now exists cs.
Qed.

Lemma locate_stat (w : World) (p : string) (cs : list string) :
  locate w p = Ok cs -> stat w p = FS.lookup cs (root w).
Proof. intros H. unfold stat. now rewrite H. Qed.

(** The walk to [os.path.join(a, f)] is the walk to [a] and one more
    step, when [a] is not empty. *)
Lemma locate_join_walk (w : World) (a f : string) :
  a <> "" -> Str.has_char Str.sep f = false ->
  locate w (Path.join a f) =
  rbind (locate w a)
    (fun c =>
       match FS.lookup c (root w) with
       | Ok (Dir _) => FS.walk (root w) c [f]
       | Ok (File _) => Raise NotADirectoryError
       | Raise e => Raise e
       end)
  \/
  locate w (Path.join a f) =
  rbind (locate w a) (fun c => FS.walk (root w) c [f]).
Proof.
  intros Ha Hf. pose proof (join_nonempty a f Ha Hf) as Hj.
  pose proof (is_absolute_join a f Ha Hf) as Hi.
  unfold locate. apply String.eqb_neq in Ha, Hj. rewrite Ha, Hj, Hi.
  apply String.eqb_neq in Ha.
  destruct (join_cases a f Hf) as [[E _] | [(_ & [a' E] & ->) | (_ & _ & ->)]].
  - contradiction.
  - left. subst a. rewrite append_assoc.
    change ("/" ++ f) with (String Str.sep f).
    change (a' ++ "/") with (a' ++ String Str.sep "").
    rewrite !split_sep_append, (split_sep_no_sep f Hf).
    change (Path.split_sep "") with [""].
    rewrite !walk_app.
    destruct (FS.walk (root w) _ (Path.split_sep a')) as [c|e];
      cbn [rbind]; [|reflexivity].
    cbn [FS.walk].
    destruct (FS.lookup c (root w)) as [[d|es]|e] eqn:E; cbn [rbind orb];
      try reflexivity.
    change ("" =? "") with true. cbn [orb rbind]. now rewrite E.
  - right. change ("/" ++ f) with (String Str.sep f).
    rewrite split_sep_append, (split_sep_no_sep f Hf), walk_app.
    reflexivity.
Qed.

(** The entry named [f] of the directory that [a] leads to. *)
Lemma locate_join (w : World) (a f : string) (cs : list string) :
  locate w a = Ok cs -> dir_at cs w -> Path.valid_name f = true ->
  locate w (Path.join a f) = Ok (cs ++ [f])%list.
Proof.
  intros Hl [es Hd] Hf. pose proof (locate_nonempty w a cs Hl) as Ha.
  pose proof (walk_name (root w) cs f Hf) as Hw. rewrite Hd in Hw.
  destruct (locate_join_walk w a f Ha (valid_name_no_sep f Hf)) as [-> | ->];
    rewrite Hl; cbn [rbind]; [rewrite Hd|]; exact Hw.
Qed.

(** A path [os.path.join(a, f)] that leads somewhere goes through the
    directory that [a] leads to. *)
Lemma locate_join_inv (w : World) (a f : string) (pc : list string) :
  a <> "" -> Path.valid_name f = true ->
  locate w (Path.join a f) = Ok pc ->
  exists cs, locate w a = Ok cs /\ dir_at cs w /\ pc = (cs ++ [f])%list.
Proof.
  intros Ha Hf H.
  assert (H' : rbind (locate w a) (fun c => FS.walk (root w) c [f]) = Ok pc).
  { destruct (locate_join_walk w a f Ha (valid_name_no_sep f Hf)) as [E|E];
      rewrite E in H; [|exact H].
    destruct (locate w a) as [c|e]; cbn [rbind] in *; [|discriminate].
    destruct (FS.lookup c (root w)) as [[d|es]|e]; try discriminate.
    exact H. }
  destruct (locate w a) as [cs|e]; cbn [rbind] in H'; [|discriminate].
  rewrite (walk_name (root w) cs f Hf) in H'. exists cs.
  destruct (FS.lookup cs (root w)) as [[d|es]|e] eqn:E; try discriminate.
  inversion H'. repeat split. now exists es.
Qed.

(** The path of an entry named [f] ends with the component [f]. *)
Lemma resolve_join_last (w : World) (a f : string) (pc : list string) :
  Path.valid_name f = true ->
  resolve w (Path.join a f) = Some pc -> last pc "" = f.
Proof.
  intros Hf H. apply resolve_locate in H.
  destruct (String.eqb_spec a "") as [E|E].
  - subst a. pose proof (valid_name_no_sep f Hf) as Hs.
    destruct (join_cases "" f Hs) as [[_ Ej] | [(Hne & _) | (Hne & _)]];
      try (now destruct Hne).
    rewrite Ej in H. unfold locate in H.
    destruct (f =? ""); [discriminate|].
    rewrite (split_sep_no_sep f Hs), (walk_name _ _ f Hf) in H.
    destruct (FS.lookup _ (root w)) as [[d|es]|e]; try discriminate.
    inversion H. apply last_last.
  - destruct (locate_join_inv w a f pc E Hf H) as (cs & _ & _ & ->).
    apply last_last.
Qed.

(** What a path leads to is the entry [f] of a directory. *)
Lemma stat_join (w : World) (a f : string) (es : list (string * node)) :
  stat w a = Ok (Dir es) -> Path.valid_name f = true ->
  stat w (Path.join a f) =
  match assoc f es with
  | Some x => Ok x
  | None => Raise FileNotFoundError
  end.
Proof.
  intros H Hf. apply stat_locate in H. destruct H as (cs & Hl & Hd).
  assert (D : dir_at cs w) by now exists es.
  rewrite (locate_stat w _ _ (locate_join w a f cs Hl D Hf)).
  now apply lookup_child.
Qed.

(** ** The monad of scripts *)

Lemma bind_ok {A B} (m : M A) (k : A -> M B) (w w' : World) (a : A) :
  m w = (Ok a, w') -> bind m k w = k a w'.
Proof. intros H. unfold bind. now rewrite H. Qed.

Lemma bind_raise {A B} (m : M A) (k : A -> M B) (w w' : World) (e : exn) :
  m w = (Raise e, w') -> bind m k w = (Raise e, w').
Proof. intros H. unfold bind. now rewrite H. Qed.

Lemma readonly_run {A} (m : M A) (w : World) :
  readonly m -> m w = (fst (m w), w).
Proof. intros H. rewrite <- (H w) at 3. now destruct (m w). Qed.

Lemma bind_readonly {A B} (m : M A) (k : A -> M B) (w : World) :
  readonly m ->
  bind m k w =
  match fst (m w) with
  | Ok a => k a w
  | Raise e => (Raise e, w)
  end.
Proof.
  intros H. unfold bind. specialize (H w).
  destruct (m w) as [[a|e] w']; cbn [fst snd] in *; now subst.
Qed.

Lemma readonly_ret {A} (a : A) : readonly (ret a).
Proof. intros w. reflexivity. Qed.

Lemma readonly_raise {A} (e : exn) : readonly (@raise A e).
Proof. intros w. reflexivity. Qed.

Lemma readonly_lift {A} (r : result A) : readonly (lift r).
Proof. intros w. reflexivity. Qed.

Lemma readonly_bind {A B} (m : M A) (k : A -> M B) :
  readonly m -> (forall a, readonly (k a)) -> readonly (bind m k).
Proof.
  intros Hm Hk w. unfold bind. specialize (Hm w).
  destruct (m w) as [[a|e] w']; cbn [snd] in *; subst; [apply Hk | reflexivity].
Qed.

Lemma readonly_comprehension {A B} (l : list A) (cond : A -> M bool)
  (value : A -> M B) :
  (forall x, readonly (cond x)) -> (forall x, readonly (value x)) ->
  readonly (comprehension l cond value).
Proof.
  intros Hc Hv. induction l as [|x l IH]; cbn [comprehension].
  - apply readonly_ret.
  - apply readonly_bind; [apply Hc|]. intros [|]; [|exact IH].
    apply readonly_bind; [apply Hv|]. intros v.
    apply readonly_bind; [exact IH|]. intros vs. apply readonly_ret.
Qed.

(** A loop stops at the first iteration that raises. *)
Lemma for_each_raise {A} (body : A -> M unit) (pre post : list A) (d : A)
  (w1 w2 w3 : World) (e : exn) :
  for_each pre body w1 = (Ok tt, w2) ->
  body d w2 = (Raise e, w3) ->
  for_each (pre ++ d :: post)%list body w1 = (Raise e, w3).
Proof.
  revert w1. induction pre as [|x pre IH]; intros w1; cbn [for_each List.app].
  - intros H Hd. inversion H; subst. now apply bind_raise.
  - unfold bind. destruct (body x w1) as [[[]|e'] w']; [|discriminate].
    apply IH.
Qed.

(** *** The primitives *)

Lemma readonly_exists (p : string) : readonly (exists_ p).
Proof. intros w. reflexivity. Qed.

Lemma readonly_isdir (p : string) : readonly (isdir p).
Proof. intros w. reflexivity. Qed.

Lemma readonly_isfile (p : string) : readonly (isfile p).
Proof. intros w. reflexivity. Qed.

Lemma readonly_listdir (p : string) : readonly (listdir p).
Proof. intros w. reflexivity. Qed.

Lemma readonly_read_bytes (p : string) : readonly (read_bytes p).
Proof. intros w. reflexivity. Qed.

Lemma readonly_read_text (ext : Externals) (p : string) (enc : option string) :
  readonly (read_text ext p enc).
Proof.
  apply readonly_bind; [apply readonly_read_bytes|].
  intros raw. apply readonly_lift.
Qed.

Lemma readonly_first_choice_content (r : response) :
  readonly (first_choice_content r).
Proof. intros w. unfold first_choice_content. now destruct (choices r). Qed.

Lemma makedirs_frame (p : string) (w : World) :
  let w' := snd (makedirs p w) in
  cwd w' = cwd w /\ stdout w' = stdout w /\ requests w' = requests w.
Proof.
  unfold makedirs. destruct (p =? ""); [now cbn|].
  destruct (FS.mkwalk (root w) _ _); now cbn.
Qed.

Lemma open_w_frame (p : string) (w : World) :
  let w' := snd (open_w p w) in
  cwd w' = cwd w /\ stdout w' = stdout w /\ requests w' = requests w.
Proof.
  unfold open_w. destruct (locate w p) as [cs|]; [|now cbn].
  destruct (FS.store cs "" (root w)); now cbn.
Qed.

Lemma file_write_frame (p : string) (content : option string) (w : World) :
  let w' := snd (file_write p content w) in
  cwd w' = cwd w /\ stdout w' = stdout w /\ requests w' = requests w.
Proof.
  unfold file_write. destruct content as [text|]; [|now cbn].
  destruct (locate w p) as [cs|]; [|now cbn].
  destruct (FS.store cs text (root w)); now cbn.
Qed.

Lemma write_text_frame (p : string) (content : option string) (w : World) :
  let w' := snd (write_text p content w) in
  cwd w' = cwd w /\ stdout w' = stdout w /\ requests w' = requests w.
Proof.
  unfold write_text, bind.
  pose proof (open_w_frame p w) as H.
  destruct (open_w p w) as [[[]|e] w1]; cbn [snd] in *; [|exact H].
  pose proof (file_write_frame p content w1) as H1. cbv zeta in *.
  destruct H as (<- & <- & <-). exact H1.
Qed.

Lemma print_frame (line : string) (w : World) :
  print line w =
  (Ok tt, MkWorld (root w) (cwd w) (stdout w ++ [line])%list (requests w)).
Proof. reflexivity. Qed.

(** Writing keeps what is there: directories stay directories and regular
    files stay regular files. *)
Lemma store_grows (w : World) (cs : list string) (data : string) (n : node) :
  FS.store cs data (root w) = Ok n -> grows w (set_root w n).
Proof.
  intros H. split; [reflexivity|]. split.
  - intros c [es He]. now apply (store_keeps_dirs cs c data (root w) n es).
  - intros c [d Hd]. now apply (store_keeps_file_kind cs c data (root w) n d).
Qed.

Lemma makedirs_grows (p : string) (w : World) : grows w (snd (makedirs p w)).
Proof.
  unfold makedirs. destruct (p =? ""); [apply grows_refl|].
  destruct (FS.mkwalk (root w) _ _) as [n|e] eqn:E; [|apply grows_refl].
  split; [reflexivity|]. split.
  - intros c [es He]. now apply (mkwalk_keeps_dirs _ _ _ _ c es E).
  - intros c [d Hd]. exists d. now apply (mkwalk_keeps_files _ _ _ _ c d E).
Qed.

Lemma open_w_grows (p : string) (w : World) : grows w (snd (open_w p w)).
Proof.
  unfold open_w. destruct (locate w p) as [cs|]; [|apply grows_refl].
  destruct (FS.store cs "" (root w)) as [n|e] eqn:E; [|apply grows_refl].
  now apply (store_grows w cs "").
Qed.

Lemma file_write_grows (p : string) (content : option string) (w : World) :
  grows w (snd (file_write p content w)).
Proof.
  unfold file_write. destruct content as [text|]; [|apply grows_refl].
  destruct (locate w p) as [cs|]; [|apply grows_refl].
  destruct (FS.store cs text (root w)) as [n|e] eqn:E; [|apply grows_refl].
  now apply (store_grows w cs text).
Qed.

Lemma write_text_grows (p : string) (content : option string) (w : World) :
  grows w (snd (write_text p content w)).
Proof.
  unfold write_text, bind. pose proof (open_w_grows p w) as H.
  destruct (open_w p w) as [[[]|e] w1]; cbn [snd] in *; [|exact H].
  apply (grows_trans w w1); [exact H | apply file_write_grows].
Qed.

(** When [os.makedirs] returns, the path leads to a directory, and every
    regular file holds what it held. *)
Lemma makedirs_ok (p : string) (w w' : World) :
  makedirs p w = (Ok tt, w') ->
  (exists cs, locate w' p = Ok cs /\ dir_at cs w') /\
  (forall q d, file_holds q d w -> file_holds q d w').
Proof.
  unfold makedirs, locate. destruct (p =? ""); [discriminate|].
  destruct (FS.mkwalk (root w) _ _) as [n|e] eqn:E; [|discriminate].
  intros H. inversion H; subst w'. cbn [root cwd set_root]. split.
  - destruct (mkwalk_walk _ _ _ _ E) as [_ (cs & es & Hw & Hl)].
    exists cs. split; [exact Hw | now exists es].
  - intros q d Hq. now apply (mkwalk_keeps_files _ _ _ _ q d E).
Qed.

(** [os.makedirs(., exist_ok=True)] on a directory that is there changes
    nothing. *)
Lemma makedirs_existing (p : string) (w : World) (es : list (string * node)) :
  stat w p = Ok (Dir es) -> makedirs p w = (Ok tt, set_root w (root w)).
Proof.
  intros H. apply stat_locate in H. destruct H as (cs & Hl & Hd).
  unfold makedirs. unfold locate in Hl.
  destruct (p =? ""); [discriminate|].
  now rewrite (mkwalk_existing _ _ _ cs es Hl Hd).
Qed.

(** ** The ensemble script *)

Section EnsembleFacts.
Context (ext : Externals).

Lemma ensemble_readonly_get_api_key (p : string) :
  readonly (Ensemble.get_api_key ext p).
Proof.
  apply readonly_bind; [apply readonly_read_text|].
  intros text. apply readonly_ret.
Qed.

Lemma ensemble_readonly_get_ocr (p : string) :
  readonly (Ensemble.get_ocr ext p).
Proof.
  apply readonly_bind.
  - apply readonly_bind; [apply readonly_read_bytes|].
    intros raw. apply readonly_ret.
  - intros enc. apply readonly_bind; [apply readonly_read_text|].
    intros text. apply readonly_ret.
Qed.

Lemma ensemble_readonly_file_paths (s_path : string) :
  readonly (Ensemble.file_paths s_path).
Proof.
  apply readonly_bind; [apply readonly_listdir|]. intros names.
  apply readonly_comprehension; intros f; apply readonly_ret.
Qed.

Lemma ensemble_readonly_get_ocrs (s_path : string) :
  readonly (Ensemble.get_ocrs ext s_path).
Proof.
  apply readonly_bind; [apply ensemble_readonly_file_paths|]. intros paths.
  apply readonly_bind; [|intros ocrs; apply readonly_ret].
  apply readonly_comprehension; intros f;
    [apply readonly_ret | apply ensemble_readonly_get_ocr].
Qed.

Lemma ensemble_readonly_subdirectories (DIR_PATH : string) :
  readonly (Ensemble.subdirectories DIR_PATH).
Proof.
  apply readonly_bind; [apply readonly_listdir|]. intros names.
  apply readonly_comprehension; intros f;
    [apply readonly_isdir | apply readonly_ret].
Qed.

Lemma save_response_frame (content : option string) (s_name save_dir : string)
  (w : World) :
  let w' := snd (Ensemble.save_response content s_name save_dir w) in
  cwd w' = cwd w /\ stdout w' = stdout w /\ requests w' = requests w.
Proof.
  unfold Ensemble.save_response, bind.
  pose proof (makedirs_frame save_dir w) as H.
  destruct (makedirs save_dir w) as [[[]|e] w1]; cbn [snd] in *; [|exact H].
  pose proof (write_text_frame
                (Path.join save_dir (s_name ++ "-ensemble.txt")) content w1)
    as H1.
  cbv zeta in *. destruct H as (<- & <- & <-). exact H1.
Qed.

(** What a document's processing does to the output and to the log of
    calls: nothing is printed, and at most one call is made, with the
    payload built from the candidates loaded. *)
Lemma ensemble_bind_generate_response {B} (c : client) (model : string)
  (messages : list message) (max_tokens : nat) (k : response -> M B)
  (w : World) :
  bind (Ensemble.generate_response ext c model messages max_tokens) k w =
  let req := Request c model messages max_tokens in
  let w1 := MkWorld (root w) (cwd w) (stdout w) (requests w ++ [req])%list in
  match completions_create ext (requests w) req with
  | Ok resp => k resp w1
  | Raise e => (Raise e, w1)
  end.
Proof. reflexivity. Qed.

Lemma process_subdirectory_effects (c : client) (model : string)
  (max_tokens : nat) (s_path save_dir : string) (w : World) :
  let w' := snd (Ensemble.process_subdirectory ext c model max_tokens
                   s_path save_dir w) in
  stdout w' = stdout w /\ cwd w' = cwd w /\
  match fst (Ensemble.get_ocrs ext s_path w) with
  | Ok ocrs =>
      requests w' =
      (requests w ++
         [Request c model (Ensemble.construct_messages ocrs) max_tokens])%list
  | Raise _ => w' = w
  end.
Proof.
  unfold Ensemble.process_subdirectory.
  rewrite (bind_readonly _ _ w (ensemble_readonly_get_ocrs s_path)).
  destruct (fst (Ensemble.get_ocrs ext s_path w)) as [ocrs|e]; [|now cbn].
  rewrite ensemble_bind_generate_response. cbv zeta.
  destruct (completions_create ext (requests w) _) as [resp|e]; [|now cbn].
  rewrite (bind_readonly _ _ _ (readonly_first_choice_content resp)).
  destruct (fst (first_choice_content resp _)) as [content|e]; [|now cbn].
  match goal with
  | |- context [Ensemble.save_response content ?n ?d ?w1] =>
      pose proof (save_response_frame content n d w1) as H
  end.
  cbv zeta in H. destruct H as (-> & -> & ->). now cbn.
Qed.

Lemma ensemble_body_effects (c : client) (MODEL : string) (MAX_TOKENS : nat)
  (SAVE_DIR s_path : string) (w : World) :
  let w' := snd (Ensemble.main_loop_body ext c MODEL MAX_TOKENS SAVE_DIR
                   s_path w) in
  stdout w' = (stdout w ++ [ensemble_progress s_path])%list /\
  cwd w' = cwd w /\
  length (requests w') <= length (requests w) + 1.
Proof.
  unfold Ensemble.main_loop_body.
  rewrite (bind_ok _ _ _ _ _ (print_frame _ w)).
  match goal with
  | |- context [Ensemble.process_subdirectory _ _ _ _ _ _ ?w1] =>
      pose proof (process_subdirectory_effects c MODEL MAX_TOKENS s_path
                    SAVE_DIR w1) as H;
      destruct (fst (Ensemble.get_ocrs ext s_path w1))
  end;
  cbv zeta in *; destruct H as (Ho & Hc & H); rewrite Ho, Hc, H;
  cbn [stdout cwd requests]; rewrite ?length_app; cbn [length];
  (split; [reflexivity | split; [reflexivity | lia]]).
Qed.

Lemma ensemble_loop_ok (c : client) (MODEL : string) (MAX_TOKENS : nat)
  (SAVE_DIR : string) (l : list string) (w w' : World) :
  for_each l (Ensemble.main_loop_body ext c MODEL MAX_TOKENS SAVE_DIR) w
    = (Ok tt, w') ->
  stdout w' = (stdout w ++ map ensemble_progress l)%list /\
  cwd w' = cwd w /\
  length (requests w') <= length (requests w) + length l.
Proof.
  revert w. induction l as [|x l IH]; intros w; cbn [for_each].
  - intros H. inversion H; subst. cbn. rewrite app_nil_r. auto with arith.
  - unfold bind.
    pose proof (ensemble_body_effects c MODEL MAX_TOKENS SAVE_DIR x w) as H.
    destruct (Ensemble.main_loop_body ext c MODEL MAX_TOKENS SAVE_DIR x w)
      as [[[]|e] w1]; [|discriminate].
    cbv zeta in H. cbn [snd] in H. destruct H as (Hout & Hcwd & Hreq).
    intros H. destruct (IH w1 H) as (Hout' & Hcwd' & Hreq').
    rewrite Hout', Hout, <- app_assoc, Hcwd', Hcwd. cbn [map length List.app].
    split; [reflexivity | split; [reflexivity | lia]].
Qed.

End EnsembleFacts.

(** ** The polish script *)

Section PolishFacts.
Context (ext : Externals).

Lemma polish_readonly_get_api_key (p : string) :
  readonly (Polish.get_api_key ext p).
Proof.
  apply readonly_bind; [apply readonly_read_text|].
  intros text. apply readonly_ret.
Qed.

Lemma polish_readonly_get_ocr (p : string) :
  readonly (Polish.get_ocr ext p).
Proof.
  apply readonly_bind.
  - apply readonly_bind; [apply readonly_read_bytes|].
    intros raw. apply readonly_ret.
  - intros enc. apply readonly_bind; [apply readonly_read_text|].
    intros text. apply readonly_ret.
Qed.

Lemma polish_readonly_file_paths (ABBYY_PATH : string) :
  readonly (Polish.file_paths ABBYY_PATH).
Proof.
  apply readonly_bind; [apply readonly_listdir|]. intros names.
  apply readonly_comprehension; intros f;
    [apply readonly_isfile | apply readonly_ret].
Qed.

Lemma polish_bind_generate_response {B} (c : client) (model : string)
  (messages : list message) (max_tokens : nat) (k : response -> M B)
  (w : World) :
  bind (Polish.generate_response ext c model messages max_tokens) k w =
  let req := Request c model messages max_tokens in
  let w1 := MkWorld (root w) (cwd w) (stdout w) (requests w ++ [req])%list in
  match completions_create ext (requests w) req with
  | Ok resp => k resp w1
  | Raise e => (Raise e, w1)
  end.
Proof. reflexivity. Qed.

(** What one iteration does to the output and to the log of calls: the
    progress line, at most one call, and the closing line when it ends
    well. *)
Lemma polish_body_effects (c : client) (MODEL : string) (MAX_TOKENS : nat)
  (OUT_PATH file_path : string) (w : World) :
  let r := Polish.main_loop_body ext c MODEL MAX_TOKENS OUT_PATH file_path w in
  cwd (snd r) = cwd w /\
  length (requests (snd r)) <= length (requests w) + 1 /\
  stdout (snd r) =
    (stdout w ++
       match fst r with
       | Ok _ => polish_progress OUT_PATH file_path
       | Raise _ => [("Processing file: " ++ file_path)%string]
       end)%list.
Proof.
  unfold Polish.main_loop_body.
  rewrite (bind_ok _ _ _ _ _ (print_frame _ w)).
  rewrite (bind_readonly _ _ _ (polish_readonly_get_ocr file_path)).
  destruct (fst (Polish.get_ocr ext file_path _)) as [ocr|e];
    [|cbn; auto with arith].
  rewrite polish_bind_generate_response. cbv zeta.
  destruct (completions_create ext _ _) as [resp|e];
    [|cbn; rewrite length_app; cbn; auto with arith].
  rewrite (bind_readonly _ _ _ (readonly_first_choice_content resp)).
  destruct (fst (first_choice_content resp _)) as [content|e];
    [|cbn; rewrite length_app; cbn; auto with arith].
  unfold bind.
  match goal with
  | |- context [write_text ?p content ?w1] =>
      pose proof (write_text_frame p content w1) as H;
      destruct (write_text p content w1) as [[[]|e] w2]
  end;
  cbv zeta in H; cbn [snd] in H; destruct H as (Hc & Ho & Hr);
  cbn [fst snd print stdout cwd requests]; rewrite Hc, Ho, Hr;
  cbn [stdout cwd requests]; rewrite length_app; cbn [length];
  (split; [reflexivity | split; [lia|]]); rewrite <- ?app_assoc; reflexivity.
Qed.

Lemma polish_loop_ok (c : client) (MODEL : string) (MAX_TOKENS : nat)
  (OUT_PATH : string) (l : list string) (w w' : World) :
  for_each l (Polish.main_loop_body ext c MODEL MAX_TOKENS OUT_PATH) w
    = (Ok tt, w') ->
  stdout w' = (stdout w ++ flat_map (polish_progress OUT_PATH) l)%list /\
  cwd w' = cwd w /\
  length (requests w') <= length (requests w) + length l.
Proof.
  revert w. induction l as [|x l IH]; intros w; cbn [for_each].
  - intros H. inversion H; subst. cbn. rewrite app_nil_r. auto with arith.
  - unfold bind.
    pose proof (polish_body_effects c MODEL MAX_TOKENS OUT_PATH x w) as H.
    destruct (Polish.main_loop_body ext c MODEL MAX_TOKENS OUT_PATH x w)
      as [[[]|e] w1]; [|discriminate].
    cbv zeta in H. cbn [fst snd] in H. destruct H as (Hcwd & Hreq & Hout).
    intros H. destruct (IH w1 H) as (Hout' & Hcwd' & Hreq').
    rewrite Hout', Hout, <- app_assoc, Hcwd', Hcwd. cbn [flat_map length].
    split; [reflexivity | split; [reflexivity | lia]].
Qed.

End PolishFacts.

(** ** The batch drivers *)

(** C5. The batch drivers do not catch what a document's processing raises.
    When the enumeration yields [pre ++ d :: post], the documents of [pre]
    go through and [d] raises [e], [main] ends raising [e] in the very world
    in which [d] failed: nothing of [post] is loaded, sent or written.  The
    lines printed are the progress lines of [pre] and [d] only (no line for
    a later document, no closing line), and at most one call per document
    of [pre] and for [d] was made. *)
Theorem batch_fail_fast (ext : Externals) :
  (forall (API_PATH DIR_PATH SAVE_DIR MODEL : string) (MAX_TOKENS : nat)
          (key : string) (pre post : list string) (d : string)
          (w w2 w3 : World) (e : exn),
     let body :=
       Ensemble.main_loop_body ext (OpenAI key) MODEL MAX_TOKENS SAVE_DIR in
     fst (Ensemble.get_api_key ext API_PATH w) = Ok key ->
     fst (Ensemble.subdirectories DIR_PATH w) = Ok (pre ++ d :: post)%list ->
     for_each pre body w = (Ok tt, w2) ->
     body d w2 = (Raise e, w3) ->
     Ensemble.main_with ext API_PATH DIR_PATH SAVE_DIR MODEL MAX_TOKENS w
       = (Raise e, w3) /\
     stdout w3 = (stdout w ++ map ensemble_progress (pre ++ [d]))%list /\
     length (requests w3) <= length (requests w) + length pre + 1)
  /\
  (forall (DIR_PATH API_PATH MODEL : string) (MAX_TOKENS : nat)
          (key : string) (pre post : list string) (d : string)
          (w w1 w2 w3 : World) (e : exn),
     let ABBYY_PATH := Path.join DIR_PATH "ABBYY_OCR" in
     let OUT_PATH := Path.join DIR_PATH "PROCESSED_OCR" in
     let body :=
       Polish.main_loop_body ext (OpenAI key) MODEL MAX_TOKENS OUT_PATH in
     fst (Polish.get_api_key ext API_PATH w) = Ok key ->
     fst (exists_ DIR_PATH w) = Ok true ->
     fst (exists_ ABBYY_PATH w) = Ok true ->
     makedirs OUT_PATH w = (Ok tt, w1) ->
     fst (Polish.file_paths ABBYY_PATH w1) = Ok (pre ++ d :: post)%list ->
     for_each pre body w1 = (Ok tt, w2) ->
     body d w2 = (Raise e, w3) ->
     Polish.main_with ext DIR_PATH API_PATH MODEL MAX_TOKENS w
       = (Raise e, w3) /\
     stdout w3 =
       (stdout w ++ flat_map (polish_progress OUT_PATH) pre
          ++ [("Processing file: " ++ d)%string])%list /\
     length (requests w3) <= length (requests w) + length pre + 1).
Proof.
  split.
  - intros API_PATH DIR_PATH SAVE_DIR MODEL MAX_TOKENS key pre post d w w2 w3 e
      body Hkey Hdirs Hpre Hd.
    split; [|].
    + unfold Ensemble.main_with.
      rewrite (bind_readonly _ _ _ (ensemble_readonly_get_api_key ext API_PATH)),
        Hkey.
      rewrite (bind_readonly _ _ _ (ensemble_readonly_subdirectories DIR_PATH)),
        Hdirs.
      apply bind_raise. now apply for_each_raise with (w2 := w2).
    + destruct (ensemble_loop_ok ext _ _ _ _ _ _ _ Hpre) as (Ho & _ & Hr).
      pose proof (ensemble_body_effects ext (OpenAI key) MODEL MAX_TOKENS
                    SAVE_DIR d w2) as H.
      fold body in H. rewrite Hd in H. cbv zeta in H. cbn [snd] in H.
      destruct H as (Ho' & _ & Hr').
      rewrite Ho', Ho, <- app_assoc, map_app. split; [reflexivity | lia].
  - intros DIR_PATH API_PATH MODEL MAX_TOKENS key pre post d w w1 w2 w3 e
      ABBYY_PATH OUT_PATH body Hkey Hdir Habbyy Hmk Hfiles Hpre Hd.
    split; [|].
    + unfold Polish.main_with.
      rewrite (bind_readonly _ _ _ (polish_readonly_get_api_key ext API_PATH)),
        Hkey.
      rewrite (bind_readonly _ _ _ (readonly_exists DIR_PATH)), Hdir.
      cbn [negb].
      rewrite (bind_readonly _ _ _ (readonly_exists _)).
      fold ABBYY_PATH. rewrite Habbyy. cbn [negb].
      fold OUT_PATH. rewrite (bind_ok _ _ _ _ _ Hmk).
      rewrite (bind_readonly _ _ _ (polish_readonly_file_paths _)), Hfiles.
      apply bind_raise. now apply for_each_raise with (w2 := w2).
    + pose proof (makedirs_frame OUT_PATH w) as Hf. rewrite Hmk in Hf.
      cbv zeta in Hf. cbn [snd] in Hf. destruct Hf as (_ & Ho1 & Hr1).
      destruct (polish_loop_ok ext _ _ _ _ _ _ _ Hpre) as (Ho & _ & Hr).
      pose proof (polish_body_effects ext (OpenAI key) MODEL MAX_TOKENS
                    OUT_PATH d w2) as H.
      fold body in H. rewrite Hd in H. cbv zeta in H. cbn [fst snd] in H.
      destruct H as (_ & Hr' & Ho').
      rewrite Hr1 in Hr.
      rewrite Ho', Ho, Ho1, <- app_assoc. split; [reflexivity | lia].
Qed.

Lemma batch_fail_fast_witness :
  (fst (Ensemble.main_with Sample.one_call "/key.txt" "/corpus" "/out"
          "gpt-4o" 1000 Sample.world)
   = Raise (APIError "quota exceeded")) /\
  (fst (Polish.main_with Sample.one_call "/transcriptions" "/key.txt"
          "gpt-4o-mini" 200 Sample.world)
   = Raise (APIError "quota exceeded")).
Proof.
  split.
  - edestruct (proj1 (batch_fail_fast Sample.one_call)
                 "/key.txt" "/corpus" "/out" "gpt-4o" 1000 "sk-test"
                 ["/corpus/report1"] ["/corpus/report2"] "/corpus/empty"
                 Sample.world) as (H & _).
    + vm_compute. reflexivity.
    + vm_compute. reflexivity.
    + vm_compute. reflexivity.
    + vm_compute. reflexivity.
    + rewrite H. reflexivity.
  - edestruct (proj2 (batch_fail_fast Sample.one_call)
                 "/transcriptions" "/key.txt" "gpt-4o-mini" 200 "sk-test"
                 ["/transcriptions/ABBYY_OCR/ABBYY_001.txt"]
                 ["/transcriptions/ABBYY_OCR/ABBYY_003.txt"]
                 "/transcriptions/ABBYY_OCR/ABBYY_002"
                 Sample.world) as (H & _).
    + vm_compute. reflexivity.
    + vm_compute. reflexivity.
    + vm_compute. reflexivity.
    + vm_compute. reflexivity.
    + vm_compute. reflexivity.
    + vm_compute. reflexivity.
    + vm_compute. reflexivity.
    + rewrite H. reflexivity.
Defined.

(** *** A corpus root that is not there *)

Lemma lookup_error_kind (p : list string) (n : node) (e : exn) :
  FS.lookup p n = Raise e -> e = FileNotFoundError \/ e = NotADirectoryError.
Proof.
  revert n. induction p as [|c p IH]; intros n; cbn [FS.lookup];
    [discriminate|].
  destruct n as [d|es]; [intros H; inversion H; auto|].
  destruct (assoc c es); [apply IH | intros H; inversion H; auto].
Qed.

Lemma walk_error_kind (r : node) (cur raw : list string) (e : exn) :
  FS.walk r cur raw = Raise e ->
  e = FileNotFoundError \/ e = NotADirectoryError.
Proof.
  revert cur. induction raw as [|c raw IH]; intros cur; cbn [FS.walk];
    [discriminate|].
  destruct (FS.lookup cur r) as [[d|es]|e0] eqn:E.
  - intros H. inversion H. auto.
  - apply IH.
  - intros H. inversion H; subst. now apply lookup_error_kind in E.
Qed.

(** What does not lead anywhere is missing, or lies below a regular
    file. *)
Lemma stat_error_kind (w : World) (p : string) (e : exn) :
  stat w p = Raise e -> e = FileNotFoundError \/ e = NotADirectoryError.
Proof.
  unfold stat, locate. destruct (p =? ""); cbn [rbind].
  - intros H. inversion H. auto.
  - destruct (FS.walk (root w) _ _) as [cs|e0] eqn:E; cbn [rbind].
    + apply lookup_error_kind.
    + intros H. inversion H; subst. now apply walk_error_kind in E.
Qed.

Lemma stat_error (w : World) (p : string) (e : exn) :
  stat w p = Raise e -> is_OSError e = true.
Proof. intros H. now destruct (stat_error_kind w p e H) as [-> | ->]. Qed.

Lemma exists_false (w : World) (p : string) :
  fst (exists_ p w) = Ok false ->
  exists e, stat w p = Raise e /\ is_OSError e = true.
Proof.
  unfold exists_. cbn [fst]. destruct (stat w p) as [n|e] eqn:E.
  - discriminate.
  - intros _. exists e. split; [reflexivity | now apply stat_error in E].
Qed.

(** C4, as the code has it.  When the corpus root does not exist no call
    is made to the service and nothing is written, in both modes.  In
    ensemble mode [main], once it has read the key file, raises the
    file-system error of [os.listdir] on the root, [FileNotFoundError] or
    [NotADirectoryError], in a world it has not touched; nothing catches it,
    so the process ends with status 1 after a traceback that names this
    class.  In polish mode [main], once it has read the key file, does not
    raise: it prints the error line and returns, and the process ends with
    status 0 and without a traceback.  In both modes a key file that
    cannot be read ends the run before that, with its own exception, in a
    world not touched either. *)
Theorem missing_corpus_root (ext : Externals) :
  (forall (API_PATH DIR_PATH SAVE_DIR MODEL : string) (MAX_TOKENS : nat)
          (w : World),
     fst (exists_ DIR_PATH w) = Ok false ->
     exists e : exn,
       Ensemble.main_with ext API_PATH DIR_PATH SAVE_DIR MODEL MAX_TOKENS w
         = (Raise e, w) /\
       exit_status (Raise e) = 1 /\
       match fst (Ensemble.get_api_key ext API_PATH w) with
       | Ok _ =>
           fst (listdir DIR_PATH w) = Raise e /\
           is_OSError e = true /\
           (e = FileNotFoundError \/ e = NotADirectoryError) /\
           (traceback (Raise e) = Some "FileNotFoundError" \/
            traceback (Raise e) = Some "NotADirectoryError")
       | Raise e0 => e = e0
       end)
  /\
  (forall (DIR_PATH API_PATH MODEL : string) (MAX_TOKENS : nat) (w : World),
     fst (exists_ DIR_PATH w) = Ok false ->
     let r := Polish.main_with ext DIR_PATH API_PATH MODEL MAX_TOKENS w in
     root (snd r) = root w /\ requests (snd r) = requests w /\
     match fst (Polish.get_api_key ext API_PATH w) with
     | Ok _ =>
         r = (Ok tt,
              MkWorld (root w) (cwd w)
                (stdout w ++
                   [("Error: The directory " ++ DIR_PATH
                       ++ " does not exist.")%string])%list
                (requests w)) /\
         exit_status (fst r) = 0 /\ traceback (fst r) = None
     | Raise e0 =>
         r = (Raise e0, w) /\
         exit_status (fst r) = 1 /\ traceback (fst r) = Some (class_name e0)
     end).
Proof.
  split.
  - intros API_PATH DIR_PATH SAVE_DIR MODEL MAX_TOKENS w Hex.
    destruct (exists_false w DIR_PATH Hex) as (e & Hstat & Hos).
    assert (Hls : fst (listdir DIR_PATH w) = Raise e)
      by (unfold listdir; cbn [fst]; now rewrite Hstat).
    assert (Hsub : fst (Ensemble.subdirectories DIR_PATH w) = Raise e).
    { unfold Ensemble.subdirectories.
      rewrite (bind_readonly _ _ _ (readonly_listdir DIR_PATH)), Hls.
      reflexivity. }
    unfold Ensemble.main_with.
    rewrite (bind_readonly _ _ _ (ensemble_readonly_get_api_key ext API_PATH)).
    destruct (fst (Ensemble.get_api_key ext API_PATH w)) as [key|e0].
    + rewrite (bind_readonly _ _ _ (ensemble_readonly_subdirectories DIR_PATH)),
        Hsub.
      exists e. repeat split; try assumption.
      * now apply stat_error_kind in Hstat.
      * destruct (stat_error_kind w DIR_PATH e Hstat) as [-> | ->];
          [left | right]; reflexivity.
    + exists e0. repeat split.
  - intros DIR_PATH API_PATH MODEL MAX_TOKENS w Hex. cbv zeta.
    unfold Polish.main_with.
    rewrite (bind_readonly _ _ _ (polish_readonly_get_api_key ext API_PATH)).
    destruct (fst (Polish.get_api_key ext API_PATH w)) as [key|e0].
    + rewrite (bind_readonly _ _ _ (readonly_exists DIR_PATH)), Hex.
      cbn [negb]. repeat split.
    + repeat split.
Qed.

Lemma missing_corpus_root_witness :
  (exists e : exn,
     Ensemble.main_with Sample.echo "/key.txt" "/nowhere" "/out" "gpt-4o" 1000
       Sample.world = (Raise e, Sample.world) /\
     traceback (Raise e) = Some "FileNotFoundError") /\
  stdout (snd (Polish.main_with Sample.echo "/nowhere" "/key.txt"
                 "gpt-4o-mini" 200 Sample.world))
  = ["Error: The directory /nowhere does not exist."].
Proof.
  split.
  - destruct (proj1 (missing_corpus_root Sample.echo)
                "/key.txt" "/nowhere" "/out" "gpt-4o" 1000 Sample.world eq_refl)
      as (e & H & _ & H1).
    exists e. split; [exact H|].
    assert (K : fst (Ensemble.get_api_key Sample.echo "/key.txt" Sample.world)
                = Ok "sk-test") by (vm_compute; reflexivity).
    rewrite K in H1. destruct H1 as (L & _).
    assert (L' : fst (listdir "/nowhere" Sample.world)
                 = Raise FileNotFoundError) by (vm_compute; reflexivity).
    rewrite L' in L. inversion L. reflexivity.
  - pose proof (proj2 (missing_corpus_root Sample.echo)
                  "/nowhere" "/key.txt" "gpt-4o-mini" 200 Sample.world eq_refl)
      as H. cbv zeta in H. destruct H as (_ & _ & H).
    assert (K : fst (Polish.get_api_key Sample.echo "/key.txt" Sample.world)
                = Ok "sk-test") by (vm_compute; reflexivity).
    rewrite K in H. destruct H as (H & _). rewrite H. reflexivity.
Defined.

(** C4, as the claim states it, fails.  In polish mode, on a missing
    corpus root, [main] raises nothing and the process ends with status 0.
    In ensemble mode the key file is read first: when it does not decode,
    what [main] raises on a missing corpus root is a [UnicodeDecodeError],
    which is no file-system error. *)
Lemma polish_missing_root_returns :
  (fst (exists_ "/nowhere" Sample.world) = Ok false /\
   Polish.main_with Sample.echo "/nowhere" "/key.txt" "gpt-4o-mini" 200
     Sample.world
   = (Ok tt,
      MkWorld Sample.disk []
        ["Error: The directory /nowhere does not exist."] [])
   /\
   exit_status
     (fst (Polish.main_with Sample.echo "/nowhere" "/key.txt" "gpt-4o-mini"
             200 Sample.world)) = 0 /\
   ~ (exists e : exn,
        fst (Polish.main_with Sample.echo "/nowhere" "/key.txt" "gpt-4o-mini"
               200 Sample.world) = Raise e))
  /\
  (fst (exists_ "/nowhere" Sample.world_bad_key) = Ok false /\
   Ensemble.main_with Sample.utf8_only "/key.txt" "/nowhere" "/out" "gpt-4o"
     1000 Sample.world_bad_key
   = (Raise UnicodeDecodeError, Sample.world_bad_key) /\
   is_OSError UnicodeDecodeError = false).
Proof.
  split.
  - split; [reflexivity | split; [reflexivity | split; [reflexivity|]]].
    intros [e H]. vm_compute in H. discriminate.
  - repeat split.
Qed.

(** ** Enumeration *)

Lemma comprehension_filter {A B} (l : list A) (cond : A -> M bool)
  (value : A -> M B) (c : A -> bool) (v : A -> B) (w : World) :
  (forall x, In x l -> cond x w = (Ok (c x), w)) ->
  (forall x, value x w = (Ok (v x), w)) ->
  comprehension l cond value w = (Ok (map v (filter c l)), w).
Proof.
  intros Hc Hv. induction l as [|x l IH]; cbn [comprehension filter map].
  - reflexivity.
  - rewrite (bind_ok _ _ _ _ _ (Hc x (or_introl eq_refl))).
    assert (IH' : comprehension l cond value w = (Ok (map v (filter c l)), w))
      by (apply IH; intros y Hy; apply Hc; now right).
    destruct (c x); [|exact IH'].
    rewrite (bind_ok _ _ _ _ _ (Hv x)), (bind_ok _ _ _ _ _ IH').
    reflexivity.
Qed.

Lemma listdir_dir (w : World) (p : string) (es : list (string * node)) :
  stat w p = Ok (Dir es) -> listdir p w = (Ok (map fst es), w).
Proof. intros H. unfold listdir. now rewrite H. Qed.

Lemma filter_names (P : node -> bool) (es l : list (string * node)) :
  NoDup (map fst es) -> incl l es ->
  filter (fun d => match assoc d es with Some x => P x | None => false end)
    (map fst l)
  = map fst (filter (fun e => P (snd e)) l).
Proof.
  intros Hnd. induction l as [|[d x] l IH]; intros Hl; cbn [map filter fst snd].
  - reflexivity.
  - rewrite (assoc_In_NoDup d x es Hnd (Hl _ (or_introl eq_refl))).
    rewrite IH by (intros y Hy; apply Hl; now right).
    destruct (P x); reflexivity.
Qed.

Lemma ensemble_file_paths_eq (w : World) (s_path : string)
  (es : list (string * node)) :
  stat w s_path = Ok (Dir es) ->
  Ensemble.file_paths s_path w =
  (Ok (map (Path.join s_path)
         (filter (fun f => Str.endswith f ".txt") (map fst es))), w).
Proof.
  intros H. unfold Ensemble.file_paths.
  rewrite (bind_ok _ _ _ _ _ (listdir_dir w s_path es H)).
  now apply comprehension_filter.
Qed.

Lemma ensemble_subdirectories_eq (w : World) (DIR_PATH : string)
  (es : list (string * node)) :
  stat w DIR_PATH = Ok (Dir es) -> listing_ok es ->
  Ensemble.subdirectories DIR_PATH w =
  (Ok (map (Path.join DIR_PATH) (dir_names es)), w).
Proof.
  intros H [Hnd Hval]. unfold Ensemble.subdirectories.
  rewrite (bind_ok _ _ _ _ _ (listdir_dir w DIR_PATH es H)).
  unfold dir_names. rewrite <- (filter_names is_dir_node es es Hnd (incl_refl _)).
  apply comprehension_filter; [|reflexivity].
  intros d Hd. unfold isdir.
  rewrite Forall_forall in Hval. rewrite (stat_join w DIR_PATH d es H (Hval d Hd)).
  destruct (assoc d es) as [[data|es']|]; reflexivity.
Qed.

Lemma polish_file_paths_eq (w : World) (ABBYY_PATH : string)
  (es : list (string * node)) :
  stat w ABBYY_PATH = Ok (Dir es) -> listing_ok es ->
  Polish.file_paths ABBYY_PATH w =
  (Ok (map (Path.join ABBYY_PATH) (file_names es)), w).
Proof.
  intros H [Hnd Hval]. unfold Polish.file_paths.
  rewrite (bind_ok _ _ _ _ _ (listdir_dir w ABBYY_PATH es H)).
  unfold file_names. rewrite <- (filter_names is_file_node es es Hnd (incl_refl _)).
  apply comprehension_filter; [|reflexivity].
  intros d Hd. unfold isfile.
  rewrite Forall_forall in Hval. rewrite (stat_join w ABBYY_PATH d es H (Hval d Hd)).
  destruct (assoc d es) as [[data|es']|]; reflexivity.
Qed.

(** C10. In ensemble mode the documents are the entries of the corpus root
    that are directories, in listing order, regular files of the root being
    left out; inside a document's directory the candidates are the entries
    whose names end in [.txt], whatever they are, and these are the paths
    [get_ocrs] reads.  In polish mode the documents are the entries of the
    input directory that are regular files, whatever their names. *)
Theorem enumeration_of_documents (ext : Externals) :
  (forall (w : World) (DIR_PATH : string) (es : list (string * node)),
     stat w DIR_PATH = Ok (Dir es) -> listing_ok es ->
     Ensemble.subdirectories DIR_PATH w =
       (Ok (map (Path.join DIR_PATH) (dir_names es)), w) /\
     forall d : string,
       In d (dir_names es) <-> exists es', In (d, Dir es') es)
  /\
  (forall (w : World) (s_path : string) (es : list (string * node)),
     stat w s_path = Ok (Dir es) ->
     let candidates :=
       map (Path.join s_path)
         (filter (fun f => Str.endswith f ".txt") (map fst es)) in
     Ensemble.file_paths s_path w = (Ok candidates, w) /\
     Ensemble.get_ocrs ext s_path w =
       comprehension candidates (fun _ => ret true) (Ensemble.get_ocr ext) w /\
     forall f : string,
       In f (filter (fun f => Str.endswith f ".txt") (map fst es)) <->
       In f (map fst es) /\ exists stem, f = (stem ++ ".txt")%string)
  /\
  (forall (w : World) (ABBYY_PATH : string) (es : list (string * node)),
     stat w ABBYY_PATH = Ok (Dir es) -> listing_ok es ->
     Polish.file_paths ABBYY_PATH w =
       (Ok (map (Path.join ABBYY_PATH) (file_names es)), w) /\
     forall f : string,
       In f (file_names es) <-> exists data, In (f, File data) es).
Proof.
  split; [|split].
  - intros w DIR_PATH es H Hok. split; [now apply ensemble_subdirectories_eq|].
    intros d. unfold dir_names. rewrite in_map_iff. split.
    + intros [[d' x] [E Hin]]. cbn [fst] in E. subst d'.
      apply filter_In in Hin. destruct Hin as [Hin Hx]. cbn [snd] in Hx.
      destruct x as [data|es']; [discriminate | now exists es'].
    + intros [es' Hin]. exists (d, Dir es'). split; [reflexivity|].
      apply filter_In. now split.
  - intros w s_path es H candidates.
    pose proof (ensemble_file_paths_eq w s_path es H) as Hp.
    split; [exact Hp | split].
    + unfold Ensemble.get_ocrs. rewrite (bind_ok _ _ _ _ _ Hp).
      fold candidates. unfold bind.
      destruct (comprehension candidates _ _ w) as [[ocrs|e] w']; reflexivity.
    + intros f. rewrite filter_In. split; intros [Hin Hf]; (split; [exact Hin|]).
      * now apply endswith_inv.
      * destruct Hf as [stem ->]. apply endswith_append.
  - intros w ABBYY_PATH es H Hok. split; [now apply polish_file_paths_eq|].
    intros f. unfold file_names. rewrite in_map_iff. split.
    + intros [[f' x] [E Hin]]. cbn [fst] in E. subst f'.
      apply filter_In in Hin. destruct Hin as [Hin Hx]. cbn [snd] in Hx.
      destruct x as [data|es']; [now exists data | discriminate].
    + intros [data Hin]. exists (f, File data). split; [reflexivity|].
      apply filter_In. now split.
Qed.

Lemma sample_corpus_ok : listing_ok Sample.corpus.
Proof.
  split; [|repeat constructor].
  repeat constructor; cbn; intuition discriminate.
Qed.

Lemma sample_abbyy_ok : listing_ok Sample.abbyy_ocr.
Proof.
  split; [|repeat constructor].
  repeat constructor; cbn; intuition discriminate.
Qed.

Lemma enumeration_of_documents_witness :
  Ensemble.subdirectories "/corpus" Sample.world
  = (Ok ["/corpus/report1"; "/corpus/empty"; "/corpus/report2"], Sample.world)
  /\
  Ensemble.file_paths "/corpus/report1" Sample.world
  = (Ok ["/corpus/report1/a.txt"; "/corpus/report1/b.txt"], Sample.world) /\
  Polish.file_paths "/transcriptions/ABBYY_OCR" Sample.world
  = (Ok ["/transcriptions/ABBYY_OCR/ABBYY_001.txt";
         "/transcriptions/ABBYY_OCR/ABBYY_002";
         "/transcriptions/ABBYY_OCR/ABBYY_003.txt"], Sample.world).
Proof.
  destruct (enumeration_of_documents Sample.echo) as (H1 & H2 & H3).
  split; [|split].
  - exact (proj1 (H1 Sample.world "/corpus" Sample.corpus eq_refl
                    sample_corpus_ok)).
  - exact (proj1 (H2 Sample.world "/corpus/report1" Sample.report1 eq_refl)).
  - exact (proj1 (H3 Sample.world "/transcriptions/ABBYY_OCR" Sample.abbyy_ocr
                    eq_refl sample_abbyy_ok)).
Defined.

(** ** A document without candidates *)

Lemma sent_one (w w' : World) (req : request) :
  requests w' = (requests w ++ [req])%list -> sent w w' = [req_messages req].
Proof.
  intros H. unfold sent. rewrite H, skipn_app, Nat.sub_diag, skipn_all.
  reflexivity.
Qed.

Lemma sent_none (w w' : World) : requests w' = requests w -> sent w w' = [].
Proof. intros H. unfold sent. now rewrite H, skipn_all. Qed.

Lemma get_ocrs_no_txt (ext : Externals) (w : World) (s_path : string)
  (es : list (string * node)) :
  stat w s_path = Ok (Dir es) ->
  filter (fun f => Str.endswith f ".txt") (map fst es) = [] ->
  Ensemble.get_ocrs ext s_path w = (Ok [], w).
Proof.
  intros H Hno. unfold Ensemble.get_ocrs.
  rewrite (bind_ok _ _ _ _ _ (ensemble_file_paths_eq w s_path es H)), Hno.
  reflexivity.
Qed.

(** C2, as the code has it.  A document whose directory lists no name
    ending in [.txt] loads as the empty sequence of candidates, without
    raising.  It is sent to the service like any other, its payload being
    the system segment alone, and what the service answers is saved as its
    artifact. *)
Theorem empty_document_processed (ext : Externals) (c : client)
  (model : string) (max_tokens : nat) (s_path save_dir : string) (w : World)
  (es : list (string * node)) :
  stat w s_path = Ok (Dir es) ->
  filter (fun f => Str.endswith f ".txt") (map fst es) = [] ->
  let req :=
    Request c model [Message "system" Ensemble.system_prompt] max_tokens in
  let w1 := MkWorld (root w) (cwd w) (stdout w) (requests w ++ [req])%list in
  let r := Ensemble.process_subdirectory ext c model max_tokens s_path
             save_dir w in
  Ensemble.get_ocrs ext s_path w = (Ok [], w) /\
  sent w (snd r) = [[Message "system" Ensemble.system_prompt]] /\
  r = match completions_create ext (requests w) req with
      | Raise e => (Raise e, w1)
      | Ok resp =>
          match choices resp with
          | [] => (Raise IndexError, w1)
          | content :: _ =>
              Ensemble.save_response content (Path.basename s_path) save_dir w1
          end
      end.
Proof.
  intros H Hno. cbv zeta.
  pose proof (get_ocrs_no_txt ext w s_path es H Hno) as Hg.
  split; [exact Hg | split].
  - pose proof (process_subdirectory_effects ext c model max_tokens s_path
                  save_dir w) as He.
    cbv zeta in He. rewrite Hg in He. cbn [fst] in He.
    destruct He as (_ & _ & He). now apply sent_one in He.
  - unfold Ensemble.process_subdirectory.
    rewrite (bind_ok _ _ _ _ _ Hg), ensemble_bind_generate_response. cbv zeta.
    change (Ensemble.construct_messages [])
      with [Message "system" Ensemble.system_prompt].
    destruct (completions_create ext (requests w) _) as [resp|e]; [|reflexivity].
    unfold bind, first_choice_content.
    destruct (choices resp) as [|content rest]; reflexivity.
Qed.

Lemma empty_document_processed_witness :
  sent Sample.world
    (snd (Ensemble.process_subdirectory Sample.echo "sk-test" "gpt-4o" 1000
            "/corpus/empty" "/out" Sample.world))
  = [[Message "system" Ensemble.system_prompt]].
Proof.
  exact (proj1 (proj2 (empty_document_processed Sample.echo "sk-test" "gpt-4o"
                         1000 "/corpus/empty" "/out" Sample.world
                         [("notes.md", File "no transcription yet")]
                         eq_refl eq_refl))).
Defined.

(** C2, as the claim states it, fails: for a directory without [.txt]
    entries loading raises nothing, one call is made to the service, and
    the artifact is written. *)
Lemma empty_document_not_rejected :
  fst (listdir "/corpus/empty" Sample.world) = Ok ["notes.md"] /\
  Ensemble.get_ocrs Sample.echo "/corpus/empty" Sample.world
    = (Ok [], Sample.world) /\
  fst (Ensemble.process_subdirectory Sample.echo "sk-test" "gpt-4o" 1000
         "/corpus/empty" "/out" Sample.world) = Ok tt /\
  length
    (requests
       (snd (Ensemble.process_subdirectory Sample.echo "sk-test" "gpt-4o" 1000
               "/corpus/empty" "/out" Sample.world))) = 1 /\
  stat
    (snd (Ensemble.process_subdirectory Sample.echo "sk-test" "gpt-4o" 1000
            "/corpus/empty" "/out" Sample.world))
    "/out/empty-ensemble.txt" = Ok (File Ensemble.system_prompt) /\
  ~ (exists e : exn,
       fst (Ensemble.get_ocrs Sample.echo "/corpus/empty" Sample.world)
       = Raise e).
Proof.
  split; [reflexivity|]. split; [reflexivity|]. split; [reflexivity|].
  split; [reflexivity|]. split; [vm_compute; reflexivity|].
  intros [e H]. vm_compute in H. discriminate.
Qed.

(** ** Writing the artifact *)

Lemma write_text_ok (p : string) (content : option string) (w w' : World) :
  write_text p content w = (Ok tt, w') ->
  exists (text : string) (cs : list string),
    content = Some text /\ locate w p = Ok cs /\ locate w' p = Ok cs /\
    FS.lookup cs (root w') = Ok (File text) /\
    cwd w' = cwd w /\ stdout w' = stdout w /\ requests w' = requests w.
Proof.
  intros H.
  pose proof (write_text_grows p content w) as G. rewrite H in G.
  cbn [snd] in G.
  unfold write_text, bind in H.
  destruct (open_w p w) as [[[]|e] w1] eqn:Ho; [|discriminate].
  pose proof (open_w_grows p w) as G1. rewrite Ho in G1. cbn [snd] in G1.
  unfold open_w in Ho.
  destruct (locate w p) as [cs|e] eqn:L; [|discriminate].
  destruct (FS.store cs "" (root w)) as [n1|e] eqn:S1; [|discriminate].
  inversion Ho; subst w1. clear Ho.
  destruct content as [text|]; [|discriminate].
  unfold file_write in H. rewrite (locate_grows _ _ p cs G1 L) in H.
  cbn [root set_root] in H.
  destruct (FS.store cs text n1) as [n2|e] eqn:S2; [|discriminate].
  inversion H; subst w'. exists text, cs.
  split; [reflexivity | split; [reflexivity|]].
  split; [now apply (locate_grows w) | split].
  - now apply lookup_store in S2.
  - cbn. auto.
Qed.

Lemma ensemble_name_valid (s_name : string) :
  Str.has_char Str.sep s_name = false ->
  Path.valid_name (s_name ++ "-ensemble.txt") = true.
Proof.
  intros H. unfold Path.valid_name.
  rewrite has_char_append, H. cbn [orb negb andb].
  assert (L : forall t, String.length t < 13 ->
                (s_name ++ "-ensemble.txt" =? t) = false).
  { intros t Ht. apply String.eqb_neq. intros E.
    apply (f_equal String.length) in E. rewrite length_append in E.
    cbn [String.length] in E. lia. }
  rewrite !L by (cbn; lia). reflexivity.
Qed.

Lemma basename_has_no_sep (p : string) :
  Str.has_char Str.sep (Path.basename p) = false.
Proof.
  induction p as [|c p IH]; [reflexivity|].
  cbn [Path.basename].
  destruct (Str.has_char Str.sep (String c p)) eqn:E; assumption.
Qed.

Lemma store_child (cs : list string) (name data : string) (n : node)
  (es : list (string * node)) :
  FS.lookup cs n = Ok (Dir es) ->
  (forall es', assoc name es <> Some (Dir es')) ->
  exists n', FS.store (cs ++ [name])%list data n = Ok n'.
Proof.
  intros H Hname. revert n H.
  induction cs as [|c cs IH]; intros n H; cbn [List.app FS.lookup] in *.
  - inversion H; subst n. cbn [FS.store].
    destruct (assoc name es) as [[d|es']|] eqn:E.
    + eexists. reflexivity.
    + now destruct (Hname es').
    + eexists. reflexivity.
  - destruct n as [d|es0]; [discriminate|]. cbn [FS.store].
    destruct (assoc c es0) as [n0|]; [|discriminate].
    destruct (IH n0 H) as [n' ->]. eexists. reflexivity.
Qed.

(** [save_response] ends well as soon as [os.makedirs] does and the path of
    the artifact is not that of a directory. *)
Lemma save_response_succeeds (content s_name save_dir : string)
  (w w1 : World) :
  Str.has_char Str.sep s_name = false ->
  makedirs save_dir w = (Ok tt, w1) ->
  fst (isdir (Path.join save_dir (s_name ++ "-ensemble.txt")) w1) = Ok false ->
  exists w',
    Ensemble.save_response (Some content) s_name save_dir w = (Ok tt, w').
Proof.
  intros Hs Hmk Hnd.
  pose proof (ensemble_name_valid s_name Hs) as Hv.
  unfold Ensemble.save_response. rewrite (bind_ok _ _ _ _ _ Hmk). cbv zeta.
  set (name := s_name ++ "-ensemble.txt") in *.
  destruct (makedirs_ok save_dir w w1 Hmk) as [(cs & L1 & [es1 Hes1]) _].
  assert (R1 : locate w1 (Path.join save_dir name) = Ok (cs ++ [name])%list)
    by (apply locate_join; [exact L1 | now exists es1 | exact Hv]).
  assert (Hname1 : forall es', assoc name es1 <> Some (Dir es')).
  { intros es' E. unfold isdir in Hnd. cbn [fst] in Hnd.
    rewrite (locate_stat _ _ _ R1), (lookup_child cs name _ es1 Hes1), E
      in Hnd.
    discriminate. }
  destruct (store_child cs name "" (root w1) es1 Hes1 Hname1) as [n2 Hn2].
  pose proof (locate_grows _ _ _ _ (store_grows w1 _ _ n2 Hn2) R1) as R2.
  pose proof (lookup_store _ _ _ _ Hn2) as Hf2.
  destruct (lookup_parent _ _ _ _ Hf2) as [es2 Hes2].
  assert (Hname2 : forall es', assoc name es2 <> Some (Dir es')).
  { intros es' E. rewrite (lookup_child cs name n2 es2 Hes2), E in Hf2.
    discriminate. }
  destruct (store_child cs name content n2 es2 Hes2 Hname2) as [n3 Hn3].
  exists (set_root (set_root w1 n2) n3).
  unfold write_text, bind, open_w, file_write.
  rewrite R1, Hn2, R2. cbn [root set_root]. rewrite Hn3. reflexivity.
Qed.



(** ** The polish artifact *)

Lemma replace_from_skip (old new t s : string) :
  Str.replace_from old new (String.length t) (t ++ s) =
  Str.replace_from old new 0 s.
Proof.
  induction t as [|c t IH]; cbn [String.length String.append].
  - destruct s; reflexivity.
  - cbn [Str.replace_from]. exact IH.
Qed.

Lemma replace_at_occurrence (c : ascii) (old new s : string) :
  Str.replace (String c old ++ s) (String c old) new =
  new ++ Str.replace s (String c old) new.
Proof.
  unfold Str.replace. cbn [String.append Str.replace_from].
  change (String c (old ++ s)) with (String c old ++ s).
  rewrite prefix_append. cbn [String.length].
  replace (S (String.length old) - 1) with (String.length old) by lia.
  now rewrite replace_from_skip.
Qed.

Lemma replace_elsewhere (c d : ascii) (old new s : string) :
  String.prefix (String c old) (String d s) = false ->
  Str.replace (String d s) (String c old) new =
  String d (Str.replace s (String c old) new).
Proof. intros H. unfold Str.replace. cbn [Str.replace_from]. now rewrite H. Qed.

Lemma replace_absent (c : ascii) (old new s : string) :
  Str.contains s (String c old) = false ->
  Str.replace s (String c old) new = s.
Proof.
  induction s as [|d s IH]; [reflexivity|].
  cbn [Str.contains]. intros H. apply orb_false_iff in H. destruct H as [Hp Hs].
  rewrite (replace_elsewhere _ _ _ _ _ Hp), (IH Hs). reflexivity.
Qed.

Lemma has_char_replace_from (c : ascii) (old new : string) (k : nat)
  (s : string) :
  Str.has_char c s = false -> Str.has_char c new = false ->
  Str.has_char c (Str.replace_from old new k s) = false.
Proof.
  intros Hs Hn. revert k. induction s as [|d s IH]; intros k; [reflexivity|].
  cbn [Str.has_char] in Hs. apply orb_false_iff in Hs. destruct Hs as [Hd Hs].
  cbn [Str.replace_from]. destruct k as [|k]; [|now apply IH].
  destruct (String.prefix old (String d s)).
  - rewrite has_char_append, Hn. now apply IH.
  - cbn [Str.has_char]. rewrite Hd. now apply IH.
Qed.

Lemma stat_frame (w w' : World) (p : string) :
  root w' = root w -> cwd w' = cwd w -> stat w' p = stat w p.
Proof. intros Hr Hc. unfold stat. now rewrite (locate_frame w w' p Hr Hc), Hr. Qed.

Lemma polish_get_ocr_frame (ext : Externals) (w w' : World) (p : string) :
  root w' = root w -> cwd w' = cwd w ->
  fst (Polish.get_ocr ext p w') = fst (Polish.get_ocr ext p w).
Proof.
  intros Hr Hc.
  unfold Polish.get_ocr, Polish.get_encoding, read_text, read_bytes, bind,
    lift, ret.
  rewrite (stat_frame w w' p Hr Hc).
  destruct (stat w p) as [[data|es]|e]; cbn [fst]; try reflexivity.
  rewrite (stat_frame w w' p Hr Hc).
  destruct (stat w p) as [[data'|es]|e]; cbn [fst]; try reflexivity.
  destruct (text_decode ext _ _); reflexivity.
Qed.

(** One iteration that ends well has read the transcription, sent its
    payload, and stored the first choice of the answer at [save_path]. *)
Lemma polish_body_ok (ext : Externals) (c : client) (MODEL : string)
  (MAX_TOKENS : nat) (OUT_PATH file_path : string) (w w' : World) :
  Polish.main_loop_body ext c MODEL MAX_TOKENS OUT_PATH file_path w
    = (Ok tt, w') ->
  exists (ocr : string) (resp : response) (text : string)
         (rest : list (option string)),
    fst (Polish.get_ocr ext file_path w) = Ok ocr /\
    completions_create ext (requests w)
      (Request c MODEL (Polish.construct_messages ocr) MAX_TOKENS) = Ok resp /\
    choices resp = Some text :: rest /\
    requests w' =
      (requests w ++
         [Request c MODEL (Polish.construct_messages ocr) MAX_TOKENS])%list /\
    stat w' (Polish.save_path OUT_PATH file_path) = Ok (File text).
Proof.
  unfold Polish.main_loop_body.
  rewrite (bind_ok _ _ _ _ _ (print_frame _ w)).
  rewrite (bind_readonly _ _ _ (polish_readonly_get_ocr ext file_path)).
  match goal with
  | |- context [fst (Polish.get_ocr ext file_path ?w0)] =>
      rewrite (polish_get_ocr_frame ext w w0 file_path eq_refl eq_refl)
  end.
  destruct (fst (Polish.get_ocr ext file_path w)) as [ocr|e]; [|discriminate].
  rewrite polish_bind_generate_response. cbv zeta. cbn [requests].
  destruct (completions_create ext (requests w) _) as [resp|e] eqn:Hresp;
    [|discriminate].
  rewrite (bind_readonly _ _ _ (readonly_first_choice_content resp)).
  unfold first_choice_content.
  destruct (choices resp) as [|content rest] eqn:Hch; [discriminate|].
  cbn [fst ret]. unfold bind.
  destruct (write_text _ content _) as [[[]|e] w2] eqn:Hw; [|discriminate].
  rewrite print_frame. intros H. inversion H; subst w'. clear H.
  destruct (write_text_ok _ _ _ _ Hw)
    as (text & cs & -> & _ & R & Hf & _ & _ & Hq).
  exists ocr, resp, text, rest.
  cbn [root cwd stdout requests] in *.
  split; [reflexivity | split; [exact Hresp | split; [exact Hch | split]]].
  - exact Hq.
  - match goal with
    | |- stat ?w3 ?q = _ =>
        rewrite (stat_frame w2 w3 q eq_refl eq_refl), (locate_stat _ _ _ R)
    end.
    exact Hf.
Qed.

(** C7. The polished text of the file named [f] of the input directory is
    written under the output root, in the entry named as [f] with every
    occurrence of [ABBYY] replaced by [PROCESSED] (leftmost first, without
    overlap); ["ABBYY_001.txt"] gives ["PROCESSED_001.txt"]. *)
Theorem polish_artifact_name :
  (forall OUT_PATH ABBYY_PATH f : string,
     Str.has_char Str.sep f = false ->
     Polish.save_path OUT_PATH (Path.join ABBYY_PATH f) =
       Path.join OUT_PATH (Str.replace f "ABBYY" "PROCESSED") /\
     Str.has_char Str.sep (Str.replace f "ABBYY" "PROCESSED") = false) /\
  (forall s : string,
     Str.replace ("ABBYY" ++ s) "ABBYY" "PROCESSED" =
     "PROCESSED" ++ Str.replace s "ABBYY" "PROCESSED") /\
  (forall (d : ascii) (s : string),
     String.prefix "ABBYY" (String d s) = false ->
     Str.replace (String d s) "ABBYY" "PROCESSED" =
     String d (Str.replace s "ABBYY" "PROCESSED")) /\
  (forall s : string,
     Str.contains s "ABBYY" = false ->
     Str.replace s "ABBYY" "PROCESSED" = s) /\
  Polish.save_path "/t/PROCESSED_OCR" (Path.join "/t/ABBYY_OCR" "ABBYY_001.txt")
    = "/t/PROCESSED_OCR/PROCESSED_001.txt" /\
  (forall (ext : Externals) (c : client) (MODEL : string) (MAX_TOKENS : nat)
          (OUT_PATH file_path : string) (w w' : World),
     Polish.main_loop_body ext c MODEL MAX_TOKENS OUT_PATH file_path w
       = (Ok tt, w') ->
     exists text : string,
       stat w' (Polish.save_path OUT_PATH file_path) = Ok (File text)).
Proof.
  split; [|split; [|split; [|split; [|split]]]].
  - intros OUT_PATH ABBYY_PATH f Hf. unfold Polish.save_path.
    rewrite (basename_join ABBYY_PATH f Hf). split; [reflexivity|].
    now apply has_char_replace_from.
  - intros s. apply (replace_at_occurrence "A" "BBYY").
  - intros d s. apply replace_elsewhere.
  - intros s. apply replace_absent.
  - reflexivity.
  - intros ext c MODEL MAX_TOKENS OUT_PATH file_path w w' H.
    destruct (polish_body_ok ext c MODEL MAX_TOKENS OUT_PATH file_path w w' H)
      as (ocr & resp & text & rest & _ & _ & _ & _ & Hs).
    now exists text.
Qed.

Lemma polish_artifact_name_witness :
  Polish.save_path "/t/PROCESSED_OCR" (Path.join "/t/ABBYY_OCR" "ABBYY_001.txt")
  = Path.join "/t/PROCESSED_OCR" "PROCESSED_001.txt" /\
  exists text : string,
    stat
      (snd (Polish.main_loop_body Sample.echo "sk-test" "gpt-4o-mini" 200
              "/out" "/transcriptions/ABBYY_OCR/ABBYY_001.txt" Sample.world))
      "/out/PROCESSED_001.txt" = Ok (File text).
Proof.
  destruct polish_artifact_name as (H1 & _ & _ & _ & _ & H6). split.
  - exact (proj1 (H1 "/t/PROCESSED_OCR" "/t/ABBYY_OCR" "ABBYY_001.txt" eq_refl)).
  - exact (H6 Sample.echo "sk-test" "gpt-4o-mini" 200 "/out"
             "/transcriptions/ABBYY_OCR/ABBYY_001.txt" Sample.world _ eq_refl).
Defined.

(** ** What one polish iteration sends *)

Lemma polish_body_sent (ext : Externals) (c : client) (MODEL : string)
  (MAX_TOKENS : nat) (OUT_PATH file_path : string) (w : World) (ocr : string) :
  fst (Polish.get_ocr ext file_path w) = Ok ocr ->
  requests
    (snd (Polish.main_loop_body ext c MODEL MAX_TOKENS OUT_PATH file_path w))
  = (requests w ++
       [Request c MODEL (Polish.construct_messages ocr) MAX_TOKENS])%list.
Proof.
  intros Hocr. unfold Polish.main_loop_body.
  rewrite (bind_ok _ _ _ _ _ (print_frame _ w)).
  rewrite (bind_readonly _ _ _ (polish_readonly_get_ocr ext file_path)).
  match goal with
  | |- context [fst (Polish.get_ocr ext file_path ?w0)] =>
      rewrite (polish_get_ocr_frame ext w w0 file_path eq_refl eq_refl)
  end.
  rewrite Hocr, polish_bind_generate_response. cbv zeta. cbn [requests].
  destruct (completions_create ext (requests w) _) as [resp|e]; [|reflexivity].
  rewrite (bind_readonly _ _ _ (readonly_first_choice_content resp)).
  destruct (fst (first_choice_content resp _)) as [content|e]; [|reflexivity].
  unfold bind.
  match goal with
  | |- context [write_text ?p content ?w1] =>
      pose proof (write_text_frame p content w1) as H;
      destruct (write_text p content w1) as [[[]|e] w2]
  end;
  cbv zeta in H; cbn [snd] in H; destruct H as (_ & _ & Hr);
  cbn [snd print requests]; exact Hr.
Qed.

(** * Further properties of the scripts *)

(** ** What writing leaves alone *)

Section Frames.
Variables (q : list string) (d : string).

Lemma makedirs_keeps (p : string) (w : World) :
  file_holds q d w -> file_holds q d (snd (makedirs p w)).
Proof.
  unfold file_holds, makedirs. intros H.
  destruct (p =? ""); [exact H|].
  destruct (FS.mkwalk (root w) _ _) as [n|e] eqn:E; [|exact H].
  cbn [snd root set_root]. now apply (mkwalk_keeps_files _ _ _ _ q d E).
Qed.

Lemma open_w_keeps (p : string) (w : World) :
  resolve w p <> Some q -> file_holds q d w -> file_holds q d (snd (open_w p w)).
Proof.
  unfold file_holds, open_w, resolve. intros Hne H.
  destruct (locate w p) as [cs|]; [|exact H].
  destruct (FS.store cs "" (root w)) as [n|e] eqn:E; [|exact H].
  cbn [snd root set_root].
  apply (store_keeps_files cs q "" (root w) n d E); [congruence | exact H].
Qed.

Lemma file_write_keeps (p : string) (content : option string) (w : World) :
  resolve w p <> Some q -> file_holds q d w -> file_holds q d (snd (file_write p content w)).
Proof.
  unfold file_holds, file_write, resolve. intros Hne H.
  destruct content as [text|]; [|exact H].
  destruct (locate w p) as [cs|]; [|exact H].
  destruct (FS.store cs text (root w)) as [n|e] eqn:E; [|exact H].
  cbn [snd root set_root].
  apply (store_keeps_files cs q text (root w) n d E); [congruence | exact H].
Qed.

Lemma write_text_keeps (p : string) (content : option string) (w : World) :
  resolve w p <> Some q -> file_holds q d w -> file_holds q d (snd (write_text p content w)).
Proof.
  intros Hne H. unfold write_text, bind.
  pose proof (open_w_keeps p w Hne H) as H1.
  pose proof (open_w_grows p w) as G.
  destruct (open_w p w) as [[[]|e] w1] eqn:Ho; cbn [snd] in *; [|exact H1].
  apply file_write_keeps; [|exact H1].
  unfold open_w in Ho. unfold resolve in *.
  destruct (locate w p) as [cs|e] eqn:L.
  - now rewrite (locate_grows w w1 p cs G L).
  - inversion Ho.
Qed.

End Frames.

Lemma grows_frame_trans (w0 w w' : World) :
  root w' = root w -> cwd w' = cwd w -> grows w0 w -> grows w0 w'.
Proof.
  intros Hr Hc G. apply (grows_trans w0 w w' G). now apply grows_frame.
Qed.

Lemma makedirs_preserves_grows (w0 : World) (p : string) :
  preserves (grows w0) (makedirs p).
Proof. intros w G. apply (grows_trans w0 w _ G), makedirs_grows. Qed.

Lemma write_text_preserves_grows (w0 : World) (p : string)
  (content : option string) :
  preserves (grows w0) (write_text p content).
Proof. intros w G. apply (grows_trans w0 w _ G), write_text_grows. Qed.

(** ** Invariants of computations *)

Lemma preserves_ret {A} (P : World -> Prop) (a : A) : preserves P (ret a).
Proof. intros w H. exact H. Qed.

Lemma preserves_raise {A} (P : World -> Prop) (e : exn) :
  preserves P (@raise A e).
Proof. intros w H. exact H. Qed.

Lemma preserves_readonly {A} (P : World -> Prop) (m : M A) :
  readonly m -> preserves P m.
Proof. intros Hm w H. now rewrite Hm. Qed.

Lemma preserves_bind {A B} (P : World -> Prop) (m : M A) (k : A -> M B) :
  preserves P m -> (forall a, preserves P (k a)) -> preserves P (bind m k).
Proof.
  intros Hm Hk w H. unfold bind. specialize (Hm w H).
  destruct (m w) as [[a|e] w']; cbn [snd] in *; [now apply Hk | exact Hm].
Qed.

Lemma preserves_for_each {A} (P : World -> Prop) (l : list A)
  (body : A -> M unit) :
  (forall x, preserves P (body x)) -> preserves P (for_each l body).
Proof.
  intros Hb. induction l as [|x l IH]; cbn [for_each].
  - apply preserves_ret.
  - apply preserves_bind; [apply Hb | intros _; exact IH].
Qed.

(** A property of the file system and of the working directory alone. *)
Lemma preserves_print (P : World -> Prop) (line : string) :
  (forall w w', root w' = root w -> cwd w' = cwd w -> P w -> P w') ->
  preserves P (print line).
Proof. intros HP w H. now apply (HP w). Qed.

Lemma file_holds_frame (q : list string) (d : string) (w w' : World) :
  root w' = root w -> cwd w' = cwd w -> file_holds q d w -> file_holds q d w'.
Proof. unfold file_holds. intros -> _ H. exact H. Qed.

(** ** The key file *)

Lemma is_white_space_In (e : string) :
  Str.is_white_space e = true <-> In e Str.white_space.
Proof.
  unfold Str.is_white_space. rewrite existsb_exists. split.
  - intros (x & Hx & E). apply String.eqb_eq in E. now subst x.
  - intros H. exists e. split; [exact H | apply String.eqb_refl].
Qed.

Lemma lstrip_eq (a : ascii) (s1 : string) :
  Str.lstrip (String a s1) =
  if Str.is_white_space (String a "") then Str.lstrip s1
  else
    match s1 with
    | "" => String a s1
    | String b s2 =>
        if Str.is_white_space (String a (String b "")) then Str.lstrip s2
        else
          match s2 with
          | "" => String a s1
          | String c s3 =>
              if Str.is_white_space (String a (String b (String c "")))
              then Str.lstrip s3
              else String a s1
          end
    end.
Proof. destruct s1 as [|b [|c s3]]; reflexivity. Qed.

Lemma rstrip_eq (c : ascii) (s : string) :
  Str.rstrip (String c s) =
  if Str.is_white_space (String c (Str.rstrip s)) then ""
  else String c (Str.rstrip s).
Proof. reflexivity. Qed.

(** One white space character in front is dropped. *)
Lemma lstrip_white (e s : string) :
  In e Str.white_space -> Str.lstrip (e ++ s) = Str.lstrip s.
Proof.
  intros H. vm_compute in H.
  repeat (destruct H as [H|H]; [subst e; reflexivity|]).
  destruct H.
Qed.

Lemma rstrip_white (e s : string) :
  In e Str.white_space -> Str.rstrip s = "" -> Str.rstrip (e ++ s) = "".
Proof.
  intros H Hs. vm_compute in H.
  repeat (destruct H as [H|H];
          [subst e; cbn [String.append]; rewrite !rstrip_eq, Hs; reflexivity|]).
  destruct H.
Qed.

(** A text that is white space from end to end is empty, or a white space
    character before such a text. *)
Lemma blank_inv (ws : string) :
  Str.blank ws = true ->
  ws = "" \/
  exists e ws',
    In e Str.white_space /\ ws = e ++ ws' /\ Str.blank ws' = true /\
    String.length ws' < String.length ws.
Proof.
  unfold Str.blank. destruct ws as [|a s1]; [now left|]. right.
  rewrite lstrip_eq in H.
  destruct (Str.is_white_space (String a "")) eqn:E1.
  { apply is_white_space_In in E1. exists (String a ""), s1.
    cbn [String.append String.length]. repeat split; auto. }
  destruct s1 as [|b s2]; [discriminate|].
  destruct (Str.is_white_space (String a (String b ""))) eqn:E2.
  { apply is_white_space_In in E2. exists (String a (String b "")), s2.
    cbn [String.append String.length]. repeat split; auto. }
  destruct s2 as [|c s3]; [discriminate|].
  destruct (Str.is_white_space (String a (String b (String c "")))) eqn:E3;
    [|discriminate].
  apply is_white_space_In in E3.
  exists (String a (String b (String c ""))), s3.
  cbn [String.append String.length]. repeat split; auto.
Qed.

Lemma blank_ind (P : string -> Prop) :
  P "" ->
  (forall e ws, In e Str.white_space -> Str.blank ws = true -> P ws ->
                P (e ++ ws)) ->
  forall ws, Str.blank ws = true -> P ws.
Proof.
  intros P0 Pstep ws. remember (String.length ws) as n eqn:En.
  revert ws En. induction n as [n IH] using lt_wf_ind. intros ws -> H.
  destruct (blank_inv ws H) as [-> | (e & ws' & He & -> & Hb & Hl)];
    [exact P0|].
  apply Pstep; auto. now apply (IH (String.length ws')).
Qed.

Lemma lstrip_blank (ws s : string) :
  Str.blank ws = true -> Str.lstrip (ws ++ s) = Str.lstrip s.
Proof.
  intros H. revert s. pattern ws. apply blank_ind; [reflexivity | | exact H].
  intros e ws0 He _ IH s. now rewrite append_assoc, (lstrip_white e _ He).
Qed.

Lemma rstrip_blank (ws : string) :
  Str.blank ws = true -> Str.rstrip ws = "".
Proof.
  intros H. pattern ws. apply blank_ind; [reflexivity | | exact H].
  intros e ws0 He _ IH. now apply rstrip_white.
Qed.

Lemma rstrip_append_blank (ws s : string) :
  Str.blank ws = true -> Str.rstrip (s ++ ws) = Str.rstrip s.
Proof.
  intros H. induction s as [|c s IH]; cbn [String.append].
  - now apply rstrip_blank.
  - now rewrite !rstrip_eq, IH.
Qed.

(** White space after a text begins with the first byte of a white space
    character, which is none of the later bytes of one. *)
Lemma blank_lead (ws : string) :
  Str.blank ws = true ->
  ws = "" \/ exists b ws', ws = String b ws' /\ Str.lead b = true.
Proof.
  intros H. destruct (blank_inv ws H) as [-> | (e & ws' & He & -> & _)];
    [now left|].
  right. vm_compute in He.
  repeat (destruct He as [He|He];
          [subst e; cbn [String.append]; eexists; eexists;
           split; reflexivity|]).
  destruct He.
Qed.

Lemma lead_second (a b : ascii) :
  Str.lead b = true -> Str.is_white_space (String a (String b "")) = false.
Proof.
  intros H. destruct (Str.is_white_space _) eqn:E; [|reflexivity].
  apply is_white_space_In in E. vm_compute in E.
  repeat (destruct E as [E|E];
          [try discriminate E; inversion E; subst; vm_compute in H;
           discriminate H|]).
  destruct E.
Qed.

Lemma lead_in_third (a b c : ascii) :
  Str.lead b = true \/ Str.lead c = true ->
  Str.is_white_space (String a (String b (String c ""))) = false.
Proof.
  intros H. destruct (Str.is_white_space _) eqn:E; [|reflexivity].
  apply is_white_space_In in E. vm_compute in E.
  repeat (destruct E as [E|E];
          [try discriminate E; inversion E; subst;
           destruct H as [H|H]; vm_compute in H; discriminate H|]).
  destruct E.
Qed.

Lemma lstrip_length (s : string) :
  String.length (Str.lstrip s) <= String.length s.
Proof.
  remember (String.length s) as n eqn:En. revert s En.
  induction n as [n IH] using lt_wf_ind. intros s ->.
  destruct s as [|a s1]; [auto|]. rewrite lstrip_eq.
  assert (L : forall t, String.length t < String.length (String a s1) ->
                String.length (Str.lstrip t) <= String.length t)
    by (intros t Ht; now apply (IH (String.length t))).
  cbn [String.length] in *.
  destruct (Str.is_white_space (String a "")).
  { specialize (L s1). lia. }
  destruct s1 as [|b s2]; [cbn [String.length]; lia|].
  cbn [String.length] in *.
  destruct (Str.is_white_space (String a (String b ""))).
  { specialize (L s2). lia. }
  destruct s2 as [|c s3]; [cbn [String.length]; lia|].
  cbn [String.length] in *.
  destruct (Str.is_white_space (String a (String b (String c "")))).
  { specialize (L s3). lia. }
  cbn [String.length]. lia.
Qed.

Lemma rstrip_length (s : string) :
  String.length (Str.rstrip s) <= String.length s.
Proof.
  induction s as [|c s IH]; [auto|]. rewrite rstrip_eq.
  destruct (Str.is_white_space _); cbn [String.length]; lia.
Qed.

(** A text that [lstrip] leaves at its length begins with no white space:
    none of its first one, two and three bytes is a white space
    character. *)
Lemma lstrip_fixed_inv (a : ascii) (s1 : string) :
  String.length (Str.lstrip (String a s1)) = String.length (String a s1) ->
  Str.is_white_space (String a "") = false /\
  (forall b s2, s1 = String b s2 ->
     Str.is_white_space (String a (String b "")) = false /\
     forall c s3, s2 = String c s3 ->
       Str.is_white_space (String a (String b (String c ""))) = false).
Proof.
  rewrite lstrip_eq. cbn [String.length].
  destruct (Str.is_white_space (String a "")).
  { pose proof (lstrip_length s1). lia. }
  intros H. split; [reflexivity|]. intros b s2 ->.
  cbn [String.length] in H.
  destruct (Str.is_white_space (String a (String b ""))).
  { pose proof (lstrip_length s2). lia. }
  split; [reflexivity|]. intros c s3 ->. cbn [String.length] in H.
  destruct (Str.is_white_space (String a (String b (String c ""))));
    [|reflexivity].
  pose proof (lstrip_length s3). lia.
Qed.

Lemma strip_fixed_length (key : string) :
  Str.strip key = key ->
  String.length (Str.lstrip key) = String.length key /\
  Str.rstrip (Str.lstrip key) = key.
Proof.
  intros H. split; [|exact H]. apply (f_equal String.length) in H.
  unfold Str.strip in H.
  pose proof (rstrip_length (Str.lstrip key)). pose proof (lstrip_length key).
  lia.
Qed.

(** A text that [strip] leaves as it is begins with no white space. *)
Lemma strip_fixed_lstrip (key : string) :
  Str.strip key = key -> Str.lstrip key = key.
Proof.
  intros H. destruct (strip_fixed_length key H) as [Hl _].
  destruct key as [|a s1]; [reflexivity|].
  destruct (lstrip_fixed_inv a s1 Hl) as [E1 E].
  rewrite lstrip_eq, E1. destruct s1 as [|b s2]; [reflexivity|].
  destruct (E b s2 eq_refl) as [E2 E']. rewrite E2.
  destruct s2 as [|c s3]; [reflexivity|].
  now rewrite (E' c s3 eq_refl).
Qed.

(** White space after such a text does not make it begin with white
    space. *)
Lemma lstrip_before_blank (key ws : string) :
  Str.lstrip key = key -> key <> "" -> Str.blank ws = true ->
  Str.lstrip (key ++ ws) = key ++ ws.
Proof.
  intros Hk Hne Hb. destruct key as [|a s1]; [contradiction|].
  assert (Hl : String.length (Str.lstrip (String a s1))
               = String.length (String a s1)) by now rewrite Hk.
  destruct (lstrip_fixed_inv a s1 Hl) as [E1 E].
  cbn [String.append]. rewrite lstrip_eq, E1.
  destruct s1 as [|b s2]; cbn [String.append].
  - destruct (blank_lead ws Hb) as [-> | (b & ws1 & -> & Hlead)];
      [reflexivity|].
    rewrite (lead_second a b Hlead).
    destruct ws1 as [|c ws2]; [reflexivity|].
    now rewrite (lead_in_third a b c (or_introl Hlead)).
  - destruct (E b s2 eq_refl) as [E2 E']. rewrite E2.
    destruct s2 as [|c s3]; cbn [String.append].
    + destruct (blank_lead ws Hb) as [-> | (c & ws1 & -> & Hlead)];
        [reflexivity|].
      now rewrite (lead_in_third a b c (or_intror Hlead)).
    + now rewrite (E' c s3 eq_refl).
Qed.

Lemma strip_surrounded (ws1 ws2 key : string) :
  Str.blank ws1 = true -> Str.blank ws2 = true ->
  Str.strip key = key ->
  Str.strip (ws1 ++ key ++ ws2) = key.
Proof.
  intros H1 H2 Hk. pose proof (strip_fixed_lstrip key Hk) as Hl.
  unfold Str.strip in *. rewrite (lstrip_blank ws1 _ H1).
  destruct (string_dec key "") as [-> | Hne].
  - cbn [String.append]. rewrite <- (append_nil_r ws2), (lstrip_blank ws2 "" H2).
    reflexivity.
  - rewrite (lstrip_before_blank key ws2 Hl Hne H2).
    rewrite (rstrip_append_blank ws2 key H2). now rewrite Hl in Hk.
Qed.

Lemma read_text_file (ext : Externals) (w : World) (p data : string)
  (enc : option string) :
  stat w p = Ok (File data) ->
  read_text ext p enc w = (text_decode ext enc data, w).
Proof.
  intros H. unfold read_text, bind, read_bytes, lift. rewrite H.
  destruct (text_decode ext enc data); reflexivity.
Qed.

Lemma read_text_error (ext : Externals) (w : World) (p : string)
  (enc : option string) :
  (forall data, stat w p <> Ok (File data)) ->
  exists e, read_text ext p enc w = (Raise e, w) /\ is_OSError e = true.
Proof.
  intros H. unfold read_text, bind, read_bytes.
  destruct (stat w p) as [[data|es]|e] eqn:E.
  - now destruct (H data).
  - exists IsADirectoryError. split; reflexivity.
  - exists e. split; [reflexivity | now apply stat_error in E].
Qed.

(** X1. [get_api_key] hands over the key without the white space around it:
    when the key file decodes to a key wrapped in white space (the usual
    final newline, or any white space of Unicode, a no-break space for
    one), the result is the key itself, and the world is left as it was.
    When the path is not that of a regular file it raises a file-system
    error.  Both scripts agree. *)
Theorem get_api_key_strips (ext : Externals) (w : World) (p : string) :
  (forall data ws1 key ws2 : string,
     stat w p = Ok (File data) ->
     text_decode ext None data = Ok (ws1 ++ key ++ ws2) ->
     Str.blank ws1 = true ->
     Str.blank ws2 = true ->
     Str.strip key = key ->
     Ensemble.get_api_key ext p w = (Ok key, w) /\
     Polish.get_api_key ext p w = (Ok key, w)) /\
  ((forall data, stat w p <> Ok (File data)) ->
   exists e : exn,
     is_OSError e = true /\
     Ensemble.get_api_key ext p w = (Raise e, w) /\
     Polish.get_api_key ext p w = (Raise e, w)).
Proof.
  split.
  - intros data ws1 key ws2 Hs Hd H1 H2 Hk.
    unfold Ensemble.get_api_key, Polish.get_api_key.
    rewrite (bind_ok _ _ _ _ _
               (eq_trans (read_text_file ext w p data None Hs)
                         (f_equal (fun r => (r, w)) Hd))).
    unfold ret. rewrite (strip_surrounded ws1 ws2 key H1 H2 Hk).
    split; reflexivity.
  - intros H. destruct (read_text_error ext w p None H) as (e & He & Hos).
    exists e. split; [exact Hos|].
    unfold Ensemble.get_api_key, Polish.get_api_key.
    rewrite (bind_raise _ _ _ _ _ He). split; reflexivity.
Qed.

Lemma get_api_key_strips_witness :
  Ensemble.get_api_key Sample.echo "/key.txt" Sample.world
    = (Ok "sk-test", Sample.world) /\
  Polish.get_api_key Sample.echo "/key.txt" Sample.world_nbsp_key
    = (Ok "sk-test", Sample.world_nbsp_key) /\
  exists e : exn,
    Polish.get_api_key Sample.echo "/corpus" Sample.world
      = (Raise e, Sample.world).
Proof.
  split; [|split].
  - exact (proj1 (proj1 (get_api_key_strips Sample.echo Sample.world "/key.txt")
                   ("sk-test" ++ nl) "" "sk-test" nl
                   eq_refl eq_refl eq_refl eq_refl eq_refl)).
  - exact (proj2 (proj1 (get_api_key_strips Sample.echo Sample.world_nbsp_key
                           "/key.txt")
                   ("sk-test" ++ Str.of_bytes [194; 160] ++ nl) "" "sk-test"
                   (Str.of_bytes [194; 160] ++ nl)
                   eq_refl eq_refl eq_refl eq_refl eq_refl)).
  - destruct (proj2 (get_api_key_strips Sample.echo Sample.world "/corpus"))
      as (e & _ & _ & H).
    + intros data H. vm_compute in H. discriminate.
    + exists e. exact H.
Defined.

(** ** Loading the candidates *)

Lemma ensemble_get_ocr_node (ext : Externals) (w : World) (p : string)
  (n : node) :
  stat w p = Ok n -> Ensemble.get_ocr ext p w = (read_node ext n, w).
Proof.
  intros H.
  unfold Ensemble.get_ocr, Ensemble.get_encoding, read_text, read_bytes, bind,
    lift, ret.
  rewrite H. destruct n as [data|es]; [|reflexivity].
  rewrite H. cbn [read_node].
  destruct (text_decode ext (chardet_detect ext data) data); reflexivity.
Qed.

Lemma ensemble_get_ocr_missing (ext : Externals) (w : World) (p : string)
  (e : exn) :
  stat w p = Raise e -> Ensemble.get_ocr ext p w = (Raise e, w).
Proof.
  intros H.
  unfold Ensemble.get_ocr, Ensemble.get_encoding, read_text, read_bytes, bind.
  now rewrite H.
Qed.

Lemma polish_get_ocr_eq (ext : Externals) (w : World) (p : string) :
  Polish.get_ocr ext p w = Ensemble.get_ocr ext p w.
Proof. reflexivity. Qed.

(** X2. [get_ocr] decodes the bytes of a regular file under the encoding
    that [chardet] detects on these same bytes; on a directory it raises
    [IsADirectoryError], on a path that leads nowhere the file-system error
    of the lookup.  It never changes the world, and the two scripts
    agree. *)
Theorem get_ocr_outcomes (ext : Externals) (w : World) (p : string) :
  (forall data : string,
     stat w p = Ok (File data) ->
     Ensemble.get_ocr ext p w
       = (text_decode ext (chardet_detect ext data) data, w) /\
     Ensemble.get_encoding ext p w = (Ok (chardet_detect ext data), w)) /\
  (forall es : list (string * node),
     stat w p = Ok (Dir es) ->
     Ensemble.get_ocr ext p w = (Raise IsADirectoryError, w)) /\
  (forall e : exn,
     stat w p = Raise e ->
     Ensemble.get_ocr ext p w = (Raise e, w) /\ is_OSError e = true) /\
  Polish.get_ocr ext p w = Ensemble.get_ocr ext p w /\
  snd (Ensemble.get_ocr ext p w) = w.
Proof.
  split; [|split; [|split; [|split]]].
  - intros data H. split.
    + apply (ensemble_get_ocr_node ext w p (File data) H).
    + unfold Ensemble.get_encoding, bind, read_bytes. now rewrite H.
  - intros es H. apply (ensemble_get_ocr_node ext w p (Dir es) H).
  - intros e H. split; [now apply ensemble_get_ocr_missing|].
    now apply stat_error in H.
  - reflexivity.
  - apply ensemble_readonly_get_ocr.
Qed.

Lemma get_ocr_outcomes_witness :
  Ensemble.get_ocr Sample.echo "/corpus/report1/a.txt" Sample.world
    = (Ok "Hello wrold", Sample.world) /\
  Ensemble.get_ocr Sample.echo "/corpus/report1" Sample.world
    = (Raise IsADirectoryError, Sample.world) /\
  Ensemble.get_ocr Sample.echo "/corpus/report1/a.txt/x" Sample.world
    = (Raise NotADirectoryError, Sample.world).
Proof.
  destruct (get_ocr_outcomes Sample.echo Sample.world "/corpus/report1/a.txt")
    as (H1 & _).
  destruct (get_ocr_outcomes Sample.echo Sample.world "/corpus/report1")
    as (_ & H2 & _).
  destruct (get_ocr_outcomes Sample.echo Sample.world "/corpus/report1/a.txt/x")
    as (_ & _ & H3 & _).
  split; [|split].
  - exact (proj1 (H1 "Hello wrold" eq_refl)).
  - exact (H2 Sample.report1 eq_refl).
  - exact (proj1 (H3 NotADirectoryError eq_refl)).
Defined.

Lemma comprehension_all {A B} (l : list A) (value : A -> M B) (vs : list B)
  (w : World) :
  Forall2 (fun x v => value x w = (Ok v, w)) l vs ->
  comprehension l (fun _ => ret true) value w = (Ok vs, w).
Proof.
  induction 1 as [|x v l vs Hx Hl IH]; cbn [comprehension]; [reflexivity|].
  unfold bind at 1. cbn [ret].
  rewrite (bind_ok _ _ _ _ _ Hx), (bind_ok _ _ _ _ _ IH). reflexivity.
Qed.

Lemma comprehension_first_raise {A B} (pre post : list A) (x : A)
  (value : A -> M B) (e : exn) (w : World) :
  (forall y, In y pre -> exists v, value y w = (Ok v, w)) ->
  value x w = (Raise e, w) ->
  comprehension (pre ++ x :: post)%list (fun _ => ret true) value w
    = (Raise e, w).
Proof.
  intros Hpre Hx. induction pre as [|y pre IH]; cbn [List.app comprehension].
  - unfold bind at 1. cbn [ret]. now rewrite (bind_raise _ _ _ _ _ Hx).
  - unfold bind at 1. cbn [ret].
    destruct (Hpre y (or_introl eq_refl)) as [v Hv].
    rewrite (bind_ok _ _ _ _ _ Hv).
    rewrite (bind_raise _ _ _ _ _ (IH (fun z Hz => Hpre z (or_intror Hz)))).
    reflexivity.
Qed.

(** Reading the entry [f] of the directory [s_path]. *)
Lemma get_ocr_entry (ext : Externals) (w : World) (s_path f : string)
  (es : list (string * node)) (n : node) :
  stat w s_path = Ok (Dir es) -> listing_ok es -> In (f, n) es ->
  Ensemble.get_ocr ext (Path.join s_path f) w = (read_node ext n, w).
Proof.
  intros H [Hnd Hval] Hin. apply ensemble_get_ocr_node.
  rewrite Forall_forall in Hval.
  rewrite (stat_join w s_path f es H
             (Hval f (in_map fst es (f, n) Hin))).
  now rewrite (assoc_In_NoDup f n es Hnd Hin).
Qed.

(** X3. When every entry of the document's directory named [*.txt] is a
    regular file that decodes, [get_ocrs] returns the decoded texts of
    exactly these entries, one per entry and in listing order, and leaves
    the world as it was. *)
Theorem get_ocrs_in_order (ext : Externals) (w : World) (s_path : string)
  (es : list (string * node)) :
  stat w s_path = Ok (Dir es) -> listing_ok es ->
  (forall f, In f (filter (fun f => Str.endswith f ".txt") (map fst es)) ->
     exists n text, In (f, n) es /\ read_node ext n = Ok text) ->
  exists ocrs : list string,
    Ensemble.get_ocrs ext s_path w = (Ok ocrs, w) /\
    Forall2
      (fun f text => exists n, In (f, n) es /\ read_node ext n = Ok text)
      (filter (fun f => Str.endswith f ".txt") (map fst es)) ocrs.
Proof.
  intros H Hok Hall.
  set (names := filter (fun f => Str.endswith f ".txt") (map fst es)) in *.
  assert (Hc : exists ocrs,
             Forall2 (fun f text =>
                        exists n, In (f, n) es /\ read_node ext n = Ok text)
               names ocrs /\
             Forall2 (fun p v => Ensemble.get_ocr ext p w = (Ok v, w))
               (map (Path.join s_path) names) ocrs).
  { clearbody names. induction names as [|f names IH].
    - exists []. split; constructor.
    - destruct (Hall f (or_introl eq_refl)) as (n & text & Hin & Hr).
      destruct (IH (fun g Hg => Hall g (or_intror Hg))) as (ocrs & F1 & F2).
      exists (text :: ocrs). split; constructor; try assumption.
      + now exists n.
      + rewrite (get_ocr_entry ext w s_path f es n H Hok Hin). now rewrite Hr. }
  destruct Hc as (ocrs & F1 & F2). exists ocrs. split; [|exact F1].
  unfold Ensemble.get_ocrs.
  rewrite (bind_ok _ _ _ _ _ (ensemble_file_paths_eq w s_path es H)).
  fold names. rewrite (bind_ok _ _ _ _ _ (comprehension_all _ _ _ _ F2)).
  reflexivity.
Qed.

Lemma get_ocrs_in_order_witness :
  Ensemble.get_ocrs Sample.echo "/corpus/report1" Sample.world
  = (Ok ["Hello wrold"; "Hello world"], Sample.world).
Proof.
  destruct (get_ocrs_in_order Sample.echo Sample.world "/corpus/report1"
              Sample.report1 eq_refl) as (ocrs & H & F).
  - split; [|repeat constructor].
    repeat constructor; cbn; intuition discriminate.
  - intros f [<-|[<-|[]]].
    + exists (File "Hello wrold"), "Hello wrold". split; [now left | reflexivity].
    + exists (File "Hello world"), "Hello world".
      split; [right; now left | reflexivity].
  - rewrite H. vm_compute in H. inversion H. reflexivity.
Defined.

(** X4. [get_ocrs] stops at the first candidate it cannot read.  When the
    candidates before the entry [f] can be read and [f] cannot (it is a
    directory named [*.txt], or its bytes do not decode), [get_ocrs] raises
    the error of [f]; processing the document then raises the same error
    without sending anything to the service and without writing
    anything. *)
Theorem get_ocrs_first_failure (ext : Externals) (w : World)
  (s_path : string) (es : list (string * node)) (pre post : list string)
  (f : string) (n : node) (e : exn) :
  stat w s_path = Ok (Dir es) -> listing_ok es ->
  filter (fun f => Str.endswith f ".txt") (map fst es)
    = (pre ++ f :: post)%list ->
  (forall g, In g pre ->
     exists n' text, In (g, n') es /\ read_node ext n' = Ok text) ->
  In (f, n) es -> read_node ext n = Raise e ->
  Ensemble.get_ocrs ext s_path w = (Raise e, w) /\
  (forall (c : client) (model : string) (max_tokens : nat)
          (save_dir : string),
     Ensemble.process_subdirectory ext c model max_tokens s_path save_dir w
       = (Raise e, w)) /\
  (forall es', n = Dir es' -> e = IsADirectoryError).
Proof.
  intros H Hok Hnames Hpre Hin Hf.
  assert (Hg : Ensemble.get_ocrs ext s_path w = (Raise e, w)).
  { unfold Ensemble.get_ocrs.
    rewrite (bind_ok _ _ _ _ _ (ensemble_file_paths_eq w s_path es H)).
    rewrite Hnames, map_app. cbn [map].
    apply bind_raise. apply comprehension_first_raise.
    - intros y Hy. apply in_map_iff in Hy. destruct Hy as (g & <- & Hg).
      destruct (Hpre g Hg) as (n' & text & Hin' & Hr).
      exists text. rewrite (get_ocr_entry ext w s_path g es n' H Hok Hin').
      now rewrite Hr.
    - rewrite (get_ocr_entry ext w s_path f es n H Hok Hin). now rewrite Hf. }
  split; [exact Hg | split].
  - intros c model max_tokens save_dir. unfold Ensemble.process_subdirectory.
    now apply bind_raise.
  - intros es' ->. cbn [read_node] in Hf. now inversion Hf.
Qed.

Lemma get_ocrs_first_failure_witness :
  Ensemble.process_subdirectory Sample.echo "sk-test" "gpt-4o" 1000
    "/docs/scan" "/out" Sample.world_broken
  = (Raise IsADirectoryError, Sample.world_broken).
Proof.
  refine (proj1 (proj2
    (get_ocrs_first_failure Sample.echo Sample.world_broken "/docs/scan"
       Sample.scan ["a.txt"] ["c.txt"] "b.txt"
       (Dir [("inner", File "not a transcription")]) IsADirectoryError
       eq_refl _ eq_refl _ _ eq_refl)) "sk-test" "gpt-4o" 1000 "/out").
  - split; [|repeat constructor].
    repeat constructor; cbn; intuition discriminate.
  - intros g [<-|[]]. exists (File "Page one"), "Page one".
    split; [now left | reflexivity].
  - right. now left.
Defined.

(** ** When the service fails, and when it answers *)

(** X5. A call that fails leaves the file system as it was.  When the
    candidates are loaded and the service raises, or answers without any
    choice ([IndexError]), the document's processing raises with the call
    logged and nothing created, written or truncated; an artifact of an
    earlier run stays as it is.  The same holds for an iteration of the
    polish script. *)
Theorem failed_call_writes_nothing (ext : Externals) (c : client)
  (model : string) (max_tokens : nat) (w : World) :
  (forall (s_path save_dir : string) (ocrs : list string) (e : exn),
     let req :=
       Request c model (Ensemble.construct_messages ocrs) max_tokens in
     fst (Ensemble.get_ocrs ext s_path w) = Ok ocrs ->
     completions_create ext (requests w) req = Raise e \/
     (completions_create ext (requests w) req = Ok (Response [])
      /\ e = IndexError) ->
     Ensemble.process_subdirectory ext c model max_tokens s_path save_dir w
       = (Raise e,
          MkWorld (root w) (cwd w) (stdout w) (requests w ++ [req])%list))
  /\
  (forall (file_path OUT_PATH : string) (ocr : string) (e : exn),
     let req := Request c model (Polish.construct_messages ocr) max_tokens in
     fst (Polish.get_ocr ext file_path w) = Ok ocr ->
     completions_create ext (requests w) req = Raise e \/
     (completions_create ext (requests w) req = Ok (Response [])
      /\ e = IndexError) ->
     Polish.main_loop_body ext c model max_tokens OUT_PATH file_path w
       = (Raise e,
          MkWorld (root w) (cwd w)
            (stdout w ++ [("Processing file: " ++ file_path)%string])%list
            (requests w ++ [req])%list)).
Proof.
  split.
  - intros s_path save_dir ocrs e req Hocrs Hc.
    unfold Ensemble.process_subdirectory.
    rewrite (bind_readonly _ _ _ (ensemble_readonly_get_ocrs ext s_path)), Hocrs.
    rewrite ensemble_bind_generate_response. cbv zeta. fold req.
    destruct Hc as [Hc | [Hc ->]]; rewrite Hc; reflexivity.
  - intros file_path OUT_PATH ocr e req Hocr Hc.
    unfold Polish.main_loop_body.
    rewrite (bind_ok _ _ _ _ _ (print_frame _ w)).
    rewrite (bind_readonly _ _ _ (polish_readonly_get_ocr ext file_path)).
    match goal with
    | |- context [fst (Polish.get_ocr ext file_path ?w0)] =>
        rewrite (polish_get_ocr_frame ext w w0 file_path eq_refl eq_refl)
    end.
    rewrite Hocr, polish_bind_generate_response. cbv zeta. cbn [requests].
    fold req. destruct Hc as [Hc | [Hc ->]]; rewrite Hc; reflexivity.
Qed.

Lemma failed_call_writes_nothing_witness :
  root
    (snd (Ensemble.process_subdirectory Sample.one_call "sk-test" "gpt-4o" 1000
            "/corpus/report1" "/out" Sample.world_later))
  = Sample.disk.
Proof.
  rewrite (proj1 (failed_call_writes_nothing Sample.one_call "sk-test" "gpt-4o"
                    1000 Sample.world_later)
             "/corpus/report1" "/out" ["Hello wrold"; "Hello world"]
             (APIError "quota exceeded") eq_refl (or_introl eq_refl)).
  reflexivity.
Defined.

Lemma save_response_ok_content (content s_name save_dir : string)
  (w w' : World) :
  Ensemble.save_response (Some content) s_name save_dir w = (Ok tt, w') ->
  stat w' (Path.join save_dir (s_name ++ "-ensemble.txt")) = Ok (File content)
  /\ cwd w' = cwd w /\ stdout w' = stdout w /\ requests w' = requests w.
Proof.
  intros H.
  pose proof (save_response_frame (Some content) s_name save_dir w) as F.
  rewrite H in F. cbv zeta in F. cbn [snd] in F. split; [|exact F].
  unfold Ensemble.save_response, bind in H.
  destruct (makedirs save_dir w) as [[[]|e] w1]; [|discriminate].
  destruct (write_text_ok _ _ _ _ H) as (text & cs & Et & _ & R & Hf & _).
  inversion Et; subst text. now rewrite (locate_stat _ _ _ R).
Qed.

(** A document's processing that ends well. *)
Lemma process_subdirectory_ok (ext : Externals) (c : client)
  (model : string) (max_tokens : nat) (s_path save_dir : string)
  (w w' : World) :
  Ensemble.process_subdirectory ext c model max_tokens s_path save_dir w
    = (Ok tt, w') ->
  exists (ocrs : list string) (resp : response) (text : string)
         (rest : list (option string)),
    let req :=
      Request c model (Ensemble.construct_messages ocrs) max_tokens in
    Ensemble.get_ocrs ext s_path w = (Ok ocrs, w) /\
    completions_create ext (requests w) req = Ok resp /\
    choices resp = Some text :: rest /\
    requests w' = (requests w ++ [req])%list /\
    stdout w' = stdout w /\ cwd w' = cwd w /\
    stat w' (Path.join save_dir (Path.basename s_path ++ "-ensemble.txt"))
      = Ok (File text).
Proof.
  unfold Ensemble.process_subdirectory.
  pose proof (ensemble_readonly_get_ocrs ext s_path w) as Hro.
  rewrite (bind_readonly _ _ _ (ensemble_readonly_get_ocrs ext s_path)).
  destruct (Ensemble.get_ocrs ext s_path w) as [[ocrs|e] w0] eqn:Hg;
    cbn [fst snd] in *; [|discriminate]. subst w0.
  rewrite ensemble_bind_generate_response. cbv zeta.
  destruct (completions_create ext (requests w) _) as [resp|e] eqn:Hresp;
    [|discriminate].
  rewrite (bind_readonly _ _ _ (readonly_first_choice_content resp)).
  unfold first_choice_content.
  destruct (choices resp) as [|content rest] eqn:Hch; [discriminate|].
  cbn [fst ret]. intros H.
  destruct content as [text|].
  - destruct (save_response_ok_content _ _ _ _ _ H) as (Hs & Hc & Ho & Hq).
    exists ocrs, resp, text, rest. cbv zeta.
    split; [reflexivity | split; [exact Hresp | split; [exact Hch|]]].
    split; [exact Hq | split; [exact Ho | split; [exact Hc | exact Hs]]].
  - exfalso. unfold Ensemble.save_response, bind in H.
    destruct (makedirs save_dir _) as [[[]|e] w1]; [|discriminate].
    destruct (write_text_ok _ _ _ _ H) as (text & cs & Et & _). discriminate.
Qed.

(** X6. The artifact of a document holds the first choice of the answer to
    the payload built from its candidates.  When the processing of a
    document ends well, the candidates were loaded, exactly one call was
    made with the payload built from them, the answer had a first choice
    with text, and that text, unchanged, is the content of
    [<save_dir>/<base name of the directory>-ensemble.txt]; nothing was
    printed. *)
Theorem ensemble_artifact_content (ext : Externals) (c : client)
  (model : string) (max_tokens : nat) (s_path save_dir : string)
  (w w' : World) :
  Ensemble.process_subdirectory ext c model max_tokens s_path save_dir w
    = (Ok tt, w') ->
  exists (ocrs : list string) (resp : response) (text : string)
         (rest : list (option string)),
    let req :=
      Request c model (Ensemble.construct_messages ocrs) max_tokens in
    Ensemble.get_ocrs ext s_path w = (Ok ocrs, w) /\
    completions_create ext (requests w) req = Ok resp /\
    choices resp = Some text :: rest /\
    requests w' = (requests w ++ [req])%list /\
    stdout w' = stdout w /\ cwd w' = cwd w /\
    stat w' (Path.join save_dir (Path.basename s_path ++ "-ensemble.txt"))
      = Ok (File text).
Proof.
  intros H.
  destruct (process_subdirectory_ok ext c model max_tokens s_path save_dir
              w w' H)
    as (ocrs & resp & text & rest & H').
  now exists ocrs, resp, text, rest.
Qed.

Lemma ensemble_artifact_content_witness :
  exists text : string,
    stat
      (snd (Ensemble.process_subdirectory Sample.echo "sk-test" "gpt-4o" 1000
              "/corpus/report2" "/out" Sample.world))
      "/out/report2-ensemble.txt" = Ok (File text).
Proof.
  destruct (ensemble_artifact_content Sample.echo "sk-test" "gpt-4o" 1000
              "/corpus/report2" "/out" Sample.world _ eq_refl)
    as (ocrs & resp & text & rest & _ & _ & _ & _ & _ & _ & H).
  exists text. exact H.
Defined.

(** X7. The polished file holds the first choice of the answer to the
    payload built from the transcription.  When an iteration of the polish
    script ends well, the transcription was read, exactly one call was made
    with its payload, and the text of the first choice, unchanged, is the
    content of the file at [save_path]. *)
Theorem polish_artifact_content (ext : Externals) (c : client)
  (MODEL : string) (MAX_TOKENS : nat) (OUT_PATH file_path : string)
  (w w' : World) :
  Polish.main_loop_body ext c MODEL MAX_TOKENS OUT_PATH file_path w
    = (Ok tt, w') ->
  exists (ocr : string) (resp : response) (text : string)
         (rest : list (option string)),
    let req := Request c MODEL (Polish.construct_messages ocr) MAX_TOKENS in
    fst (Polish.get_ocr ext file_path w) = Ok ocr /\
    completions_create ext (requests w) req = Ok resp /\
    choices resp = Some text :: rest /\
    requests w' = (requests w ++ [req])%list /\
    stdout w' = (stdout w ++ polish_progress OUT_PATH file_path)%list /\
    stat w'
      (Path.join OUT_PATH
         (Str.replace (Path.basename file_path) "ABBYY" "PROCESSED"))
      = Ok (File text).
Proof.
  intros H.
  destruct (polish_body_ok ext c MODEL MAX_TOKENS OUT_PATH file_path w w' H)
    as (ocr & resp & text & rest & H1 & H2 & H3 & H4 & H5).
  exists ocr, resp, text, rest. cbv zeta.
  repeat (split; [assumption|]). split; [|exact H5].
  pose proof (polish_body_effects ext c MODEL MAX_TOKENS OUT_PATH file_path w)
    as E.
  rewrite H in E. cbv zeta in E. cbn [fst snd] in E. now destruct E as (_ & _ & E).
Qed.

Lemma polish_artifact_content_witness :
  exists text : string,
    stat
      (snd (Polish.main_loop_body Sample.echo "sk-test" "gpt-4o-mini" 200
              "/out" "/transcriptions/ABBYY_OCR/ABBYY_002" Sample.world))
      "/out/PROCESSED_002" = Ok (File text).
Proof.
  destruct (polish_artifact_content Sample.echo "sk-test" "gpt-4o-mini" 200
              "/out" "/transcriptions/ABBYY_OCR/ABBYY_002" Sample.world _
              eq_refl)
    as (ocr & resp & text & rest & _ & _ & _ & _ & _ & H).
  exists text. exact H.
Defined.

(** ** Saving again, and saving nothing *)

(** What [save_response] needs to get as far as writing. *)
Lemma save_response_opens (s_name save_dir : string) (w w1 : World) :
  Str.has_char Str.sep s_name = false ->
  makedirs save_dir w = (Ok tt, w1) ->
  fst (isdir (Path.join save_dir (s_name ++ "-ensemble.txt")) w1) = Ok false ->
  exists w2,
    open_w (Path.join save_dir (s_name ++ "-ensemble.txt")) w1 = (Ok tt, w2) /\
    stat w2 (Path.join save_dir (s_name ++ "-ensemble.txt")) = Ok (File "").
Proof.
  intros Hs Hmk Hnd.
  pose proof (ensemble_name_valid s_name Hs) as Hv.
  set (name := s_name ++ "-ensemble.txt") in *.
  destruct (makedirs_ok save_dir w w1 Hmk) as [(cs & L1 & [es1 Hes1]) _].
  assert (R1 : locate w1 (Path.join save_dir name) = Ok (cs ++ [name])%list)
    by (apply locate_join; [exact L1 | now exists es1 | exact Hv]).
  assert (Hname1 : forall es', assoc name es1 <> Some (Dir es')).
  { intros es' E. unfold isdir in Hnd. cbn [fst] in Hnd.
    rewrite (locate_stat _ _ _ R1), (lookup_child cs name _ es1 Hes1), E
      in Hnd.
    discriminate. }
  destruct (store_child cs name "" (root w1) es1 Hes1 Hname1) as [n2 Hn2].
  exists (set_root w1 n2). unfold open_w. rewrite R1, Hn2.
  split; [reflexivity|].
  rewrite (locate_stat _ _ _
             (locate_grows _ _ _ _ (store_grows w1 _ _ n2 Hn2) R1)).
  cbn [root set_root]. now apply lookup_store in Hn2.
Qed.

(** X8. An answer whose first choice carries no text costs the artifact.
    [save_response] opens the file for writing before it writes: with a
    content that is not a text it raises [TypeError] and leaves the
    artifact empty, also when an earlier run had filled it. *)
Theorem save_response_without_text (s_name save_dir : string)
  (w w1 : World) :
  Str.has_char Str.sep s_name = false ->
  makedirs save_dir w = (Ok tt, w1) ->
  fst (isdir (Path.join save_dir (s_name ++ "-ensemble.txt")) w1) = Ok false ->
  exists w' : World,
    Ensemble.save_response None s_name save_dir w = (Raise TypeError, w') /\
    stat w' (Path.join save_dir (s_name ++ "-ensemble.txt")) = Ok (File "").
Proof.
  intros Hs Hmk Hnd.
  destruct (save_response_opens s_name save_dir w w1 Hs Hmk Hnd)
    as (w2 & Hopen & Hstat).
  exists w2. split; [|exact Hstat].
  unfold Ensemble.save_response. rewrite (bind_ok _ _ _ _ _ Hmk). cbv zeta.
  unfold write_text. rewrite (bind_ok _ _ _ _ _ Hopen). reflexivity.
Qed.

Lemma save_response_without_text_witness :
  fst (Ensemble.process_subdirectory Sample.no_text "sk-test" "gpt-4o" 1000
         "/corpus/report2" "/out" Sample.world) = Raise TypeError /\
  exists w' : World,
    Ensemble.save_response None "scan" "/out" Sample.world_broken
      = (Raise TypeError, w') /\
    stat w' "/out/scan-ensemble.txt" = Ok (File "").
Proof.
  split; [reflexivity|].
  exact (save_response_without_text "scan" "/out" Sample.world_broken
           (snd (makedirs "/out" Sample.world_broken)) eq_refl eq_refl eq_refl).
Defined.

(** X9. A second run replaces the artifact.  After [save_response] has
    saved a content for a document, saving another content for the same
    document and output root ends well too, and the artifact then holds
    the later content: nothing of the earlier one is kept, and nothing
    warns of it. *)
Theorem save_response_overwrites (c1 c2 s_name save_dir : string)
  (w w1 : World) :
  Str.has_char Str.sep s_name = false ->
  Ensemble.save_response (Some c1) s_name save_dir w = (Ok tt, w1) ->
  exists w2 : World,
    Ensemble.save_response (Some c2) s_name save_dir w1 = (Ok tt, w2) /\
    stat w2 (Path.join save_dir (s_name ++ "-ensemble.txt")) = Ok (File c2) /\
    stdout w2 = stdout w /\ requests w2 = requests w.
Proof.
  intros Hs H1.
  destruct (save_response_ok_content c1 s_name save_dir w w1 H1)
    as (Hf1 & Hc1 & Ho1 & Hq1).
  pose proof (ensemble_name_valid s_name Hs) as Hv.
  set (name := s_name ++ "-ensemble.txt") in *.
  assert (Hdir : exists es, stat w1 save_dir = Ok (Dir es)).
  { assert (Hne : save_dir <> "").
    { unfold Ensemble.save_response, bind in H1.
      destruct (makedirs save_dir w) as [[[]|e] w0] eqn:Hmk; [|discriminate].
      destruct (makedirs_ok save_dir w w0 Hmk) as [(cs & L & _) _].
      now apply locate_nonempty in L. }
    destruct (stat_locate _ _ _ Hf1) as (pc & L & _).
    destruct (locate_join_inv w1 save_dir name pc Hne Hv L)
      as (cs & Ls & [es Hes] & _).
    exists es. now rewrite (locate_stat _ _ _ Ls). }
  destruct Hdir as [es Hes].
  pose proof (makedirs_existing save_dir w1 es Hes) as Hmk.
  assert (Hnd : fst (isdir (Path.join save_dir name) (set_root w1 (root w1)))
                = Ok false).
  { unfold isdir. cbn [fst].
    rewrite (stat_frame w1 (set_root w1 (root w1)) _ eq_refl eq_refl), Hf1.
    reflexivity. }
  destruct (save_response_succeeds c2 s_name save_dir w1 _ Hs Hmk Hnd)
    as [w2 H2].
  exists w2. split; [exact H2|].
  destruct (save_response_ok_content c2 s_name save_dir w1 w2 H2)
    as (Hf2 & _ & Ho2 & Hq2).
  split; [exact Hf2 | split; congruence].
Qed.

Lemma save_response_overwrites_witness :
  exists w2 : World,
    Ensemble.save_response (Some "a later result") "scan" "/out"
      (snd (Ensemble.save_response (Some "Hello") "scan" "/out"
              Sample.world_broken))
    = (Ok tt, w2) /\
    stat w2 "/out/scan-ensemble.txt" = Ok (File "a later result").
Proof.
  destruct (save_response_overwrites "Hello" "a later result" "scan" "/out"
              Sample.world_broken _ eq_refl eq_refl) as (w2 & H & Hs & _).
  exists w2. split; [exact H | exact Hs].
Defined.

(** ** What a run leaves alone *)

Section EnsembleInvariants.
Context (ext : Externals) (P : World -> Prop).
Hypothesis P_frame :
  forall w w', root w' = root w -> cwd w' = cwd w -> P w -> P w'.

Lemma ensemble_generate_preserves (c : client) (model : string)
  (messages : list message) (max_tokens : nat) :
  preserves P (Ensemble.generate_response ext c model messages max_tokens).
Proof. intros w H. now apply (P_frame w). Qed.

Lemma ensemble_process_preserves (c : client) (model : string)
  (max_tokens : nat) (s_path save_dir : string) :
  (forall content s_name,
     Str.has_char Str.sep s_name = false ->
     preserves P (Ensemble.save_response content s_name save_dir)) ->
  preserves P
    (Ensemble.process_subdirectory ext c model max_tokens s_path save_dir).
Proof.
  intros Hsave. unfold Ensemble.process_subdirectory.
  apply preserves_bind;
    [apply preserves_readonly, ensemble_readonly_get_ocrs|].
  intros ocrs. apply preserves_bind; [apply ensemble_generate_preserves|].
  intros resp. apply preserves_bind;
    [apply preserves_readonly, readonly_first_choice_content|].
  intros content. apply Hsave, basename_has_no_sep.
Qed.

Lemma ensemble_main_preserves (API_PATH DIR_PATH SAVE_DIR MODEL : string)
  (MAX_TOKENS : nat) :
  (forall content s_name,
     Str.has_char Str.sep s_name = false ->
     preserves P (Ensemble.save_response content s_name SAVE_DIR)) ->
  preserves P
    (Ensemble.main_with ext API_PATH DIR_PATH SAVE_DIR MODEL MAX_TOKENS).
Proof.
  intros Hsave. unfold Ensemble.main_with.
  apply preserves_bind;
    [apply preserves_readonly, ensemble_readonly_get_api_key|].
  intros key. apply preserves_bind;
    [apply preserves_readonly, ensemble_readonly_subdirectories|].
  intros docs. apply preserves_bind; [|intros _; now apply preserves_print].
  apply preserves_for_each. intros s_path. unfold Ensemble.main_loop_body.
  apply preserves_bind; [now apply preserves_print|].
  intros _. now apply ensemble_process_preserves.
Qed.

End EnsembleInvariants.

Lemma save_response_keeps (content : option string) (s_name save_dir : string)
  (q : list string) (d : string) :
  Str.has_char Str.sep s_name = false ->
  Str.endswith (last q "") "-ensemble.txt" = false ->
  preserves (file_holds q d) (Ensemble.save_response content s_name save_dir).
Proof.
  intros Hs Hq. unfold Ensemble.save_response.
  apply preserves_bind; [intros w; apply makedirs_keeps|].
  intros _ w. cbv zeta. apply write_text_keeps. intros R.
  apply (resolve_join_last w save_dir _ q (ensemble_name_valid s_name Hs)) in R.
  rewrite R, endswith_append in Hq. discriminate.
Qed.

Lemma save_response_grows (content : option string)
  (s_name save_dir : string) (w0 : World) :
  preserves (grows w0) (Ensemble.save_response content s_name save_dir).
Proof.
  unfold Ensemble.save_response.
  apply preserves_bind; [apply makedirs_preserves_grows|].
  intros _. cbv zeta. apply write_text_preserves_grows.
Qed.

Lemma ensemble_main_grows (ext : Externals)
  (API_PATH DIR_PATH SAVE_DIR MODEL : string) (MAX_TOKENS : nat) (w : World) :
  grows w
    (snd (Ensemble.main_with ext API_PATH DIR_PATH SAVE_DIR MODEL MAX_TOKENS
            w)).
Proof.
  apply (ensemble_main_preserves ext (grows w) (grows_frame_trans w)
           API_PATH DIR_PATH SAVE_DIR MODEL MAX_TOKENS
           (fun content s_name _ =>
              save_response_grows content s_name SAVE_DIR w)
           w (grows_refl w)).
Qed.

(** X10. A run of the ensemble script never alters a transcription.
    Whatever the corpus, the output root, the service and the way the run
    ends, every regular file whose name does not end in [-ensemble.txt]
    holds after [main] what it held before. *)
Theorem ensemble_keeps_inputs (ext : Externals)
  (API_PATH DIR_PATH SAVE_DIR MODEL : string) (MAX_TOKENS : nat) (w : World)
  (p : string) (q : list string) (d : string) :
  resolve w p = Some q ->
  stat w p = Ok (File d) ->
  Str.endswith (last q "") "-ensemble.txt" = false ->
  stat (snd (Ensemble.main_with ext API_PATH DIR_PATH SAVE_DIR MODEL
               MAX_TOKENS w)) p
    = Ok (File d).
Proof.
  intros R Hs Hq. apply resolve_locate in R.
  assert (Hw : file_holds q d w).
  { unfold file_holds. now rewrite (locate_stat _ _ _ R) in Hs. }
  pose proof (ensemble_main_preserves ext (file_holds q d)
                (file_holds_frame q d) API_PATH DIR_PATH SAVE_DIR MODEL
                MAX_TOKENS
                (fun content s_name Hn =>
                   save_response_keeps content s_name SAVE_DIR q d Hn Hq)
                w Hw) as Hf.
  pose proof (ensemble_main_grows ext API_PATH DIR_PATH SAVE_DIR MODEL
                MAX_TOKENS w) as G.
  rewrite (locate_stat _ _ _ (locate_grows _ _ _ _ G R)). exact Hf.
Qed.

Lemma ensemble_keeps_inputs_witness :
  stat
    (snd (Ensemble.main_with Sample.echo "/key.txt" "/corpus" "/corpus/report2"
            "gpt-4o" 1000 Sample.world))
    "/corpus/report2/a.txt" = Ok (File "Second").
Proof.
  exact (ensemble_keeps_inputs Sample.echo "/key.txt" "/corpus"
           "/corpus/report2" "gpt-4o" 1000 Sample.world
           "/corpus/report2/a.txt" ["corpus"; "report2"; "a.txt"] "Second"
           eq_refl eq_refl eq_refl).
Defined.

(** Where [os.path.join(a, g)] leads for a [g] without separator, be it a
    name, empty, [.] or [..]: to the entry [g] of the directory that [a]
    leads to, or to a directory. *)
Lemma locate_join_sepfree (w : World) (a g : string) (pc : list string) :
  a <> "" -> Str.has_char Str.sep g = false ->
  locate w (Path.join a g) = Ok pc ->
  exists c, locate w a = Ok c /\ dir_at c w /\
            (pc = (c ++ [g])%list \/ dir_at pc w).
Proof.
  intros Ha Hg H.
  assert (H' : rbind (locate w a) (fun c => FS.walk (root w) c [g]) = Ok pc).
  { destruct (locate_join_walk w a g Ha Hg) as [E|E]; rewrite E in H;
      [|exact H].
    destruct (locate w a) as [c|e]; cbn [rbind] in *; [|discriminate].
    destruct (FS.lookup c (root w)) as [[d|es]|e]; try discriminate.
    exact H. }
  destruct (locate w a) as [c|e]; cbn [rbind] in H'; [|discriminate].
  apply walk_cons_inv in H'. destruct H' as [[es Hes] Hw].
  cbn [FS.walk] in Hw. exists c. split; [reflexivity|].
  split; [now exists es|].
  destruct ((g =? "") || (g =? ".")).
  - inversion Hw; subst pc. right. now exists es.
  - destruct (g =? "..").
    + inversion Hw; subst pc. right. now apply lookup_removelast in Hes.
    + inversion Hw. now left.
Qed.

Section PolishInvariants.
Context (ext : Externals) (P : World -> Prop).
Hypothesis P_frame :
  forall w w', root w' = root w -> cwd w' = cwd w -> P w -> P w'.

Lemma polish_generate_preserves (c : client) (model : string)
  (messages : list message) (max_tokens : nat) :
  preserves P (Polish.generate_response ext c model messages max_tokens).
Proof. intros w H. now apply (P_frame w). Qed.

Lemma polish_body_preserves (c : client) (MODEL : string) (MAX_TOKENS : nat)
  (OUT_PATH file_path : string) :
  (forall content,
     preserves P (write_text (Polish.save_path OUT_PATH file_path) content)) ->
  preserves P
    (Polish.main_loop_body ext c MODEL MAX_TOKENS OUT_PATH file_path).
Proof.
  intros Hwrite. unfold Polish.main_loop_body.
  apply preserves_bind; [now apply preserves_print|]. intros _.
  apply preserves_bind; [apply preserves_readonly, polish_readonly_get_ocr|].
  intros ocr. apply preserves_bind; [apply polish_generate_preserves|].
  intros resp. apply preserves_bind;
    [apply preserves_readonly, readonly_first_choice_content|].
  intros content. cbv zeta.
  apply preserves_bind; [apply Hwrite | intros _; now apply preserves_print].
Qed.

(** What [main] does once the output directory is there. *)
Lemma polish_loop_preserves (c : client) (MODEL : string) (MAX_TOKENS : nat)
  (ABBYY_PATH OUT_PATH : string) :
  (forall file_path content,
     preserves P (write_text (Polish.save_path OUT_PATH file_path) content)) ->
  preserves P
    (bind (Polish.file_paths ABBYY_PATH)
       (fun file_paths =>
          bind (for_each file_paths
                  (Polish.main_loop_body ext c MODEL MAX_TOKENS OUT_PATH))
            (fun _ => print "DONE"))).
Proof.
  intros Hwrite.
  apply preserves_bind; [apply preserves_readonly, polish_readonly_file_paths|].
  intros files. apply preserves_bind; [|intros _; now apply preserves_print].
  apply preserves_for_each. intros file_path.
  apply polish_body_preserves, Hwrite.
Qed.

End PolishInvariants.

(** A write of the polish script goes to an entry of the output
    directory. *)
Lemma polish_write_keeps (w1 : World) (OUT_PATH file_path : string)
  (content : option string) (out_cs q : list string) (d : string) :
  locate w1 OUT_PATH = Ok out_cs ->
  (forall g, q <> (out_cs ++ [g])%list) ->
  preserves (fun w => grows w1 w /\ file_holds q d w)
    (write_text (Polish.save_path OUT_PATH file_path) content).
Proof.
  intros R Hg w [G Hf]. split.
  - apply (grows_trans w1 w _ G), write_text_grows.
  - apply write_text_keeps; [|exact Hf]. intros E.
    apply resolve_locate in E. unfold Polish.save_path in E.
    assert (Hsep : Str.has_char Str.sep
                     (Str.replace (Path.basename file_path) "ABBYY"
                        "PROCESSED") = false)
      by (apply has_char_replace_from;
          [apply basename_has_no_sep | reflexivity]).
    destruct (locate_join_sepfree w OUT_PATH _ q (locate_nonempty _ _ _ R)
                Hsep E) as (c & Lc & _ & [Eq | [es Hes]]).
    + rewrite (locate_grows _ _ _ _ G R) in Lc. inversion Lc; subst c.
      exact (Hg _ Eq).
    + unfold file_holds in Hf. congruence.
Qed.

(** X11. A run of the polish script never alters a file outside the output
    directory.  Whatever the input, the service and the way the run ends,
    every regular file that is not an entry of the directory that
    [DIR_PATH/PROCESSED_OCR] leads to (the transcriptions of [ABBYY_OCR]
    among them) holds after [main] what it held before.  The paths are
    taken as the kernel walks them, so that a [DIR_PATH] through [..] names
    the output directory it leads to. *)
Theorem polish_keeps_inputs (ext : Externals)
  (DIR_PATH API_PATH MODEL : string) (MAX_TOKENS : nat) (w : World)
  (p : string) (q : list string) (d : string) :
  resolve w p = Some q ->
  stat w p = Ok (File d) ->
  (forall (out_cs : list string) (g : string),
     resolve w (Path.join DIR_PATH "PROCESSED_OCR") = Some out_cs ->
     q <> (out_cs ++ [g])%list) ->
  stat (snd (Polish.main_with ext DIR_PATH API_PATH MODEL MAX_TOKENS w)) p
    = Ok (File d).
Proof.
  intros R Hs Hg. apply resolve_locate in R.
  assert (Hw : file_holds q d w).
  { unfold file_holds. now rewrite (locate_stat _ _ _ R) in Hs. }
  set (P := fun w' => grows w w' /\ file_holds q d w').
  assert (HP : P (snd (Polish.main_with ext DIR_PATH API_PATH MODEL
                         MAX_TOKENS w))).
  { assert (P0 : forall o, P (MkWorld (root w) (cwd w) o (requests w))).
    { intros o. split; [now apply grows_frame | exact Hw]. }
    unfold Polish.main_with.
    rewrite (bind_readonly _ _ _ (polish_readonly_get_api_key ext API_PATH)).
    destruct (fst (Polish.get_api_key ext API_PATH w)) as [key|e];
      [|split; [apply grows_refl | exact Hw]].
    rewrite (bind_readonly _ _ _ (readonly_exists DIR_PATH)).
    unfold exists_ at 1. cbn [fst].
    destruct (stat w DIR_PATH) as [nd|e] eqn:Hd; cbn [negb];
      [|exact (P0 _)].
    rewrite (bind_readonly _ _ _ (readonly_exists _)).
    unfold exists_ at 1. cbn [fst].
    destruct (stat w (Path.join DIR_PATH "ABBYY_OCR")) as [na|e] eqn:Ha;
      cbn [negb]; [|exact (P0 _)].
    assert (Hne : DIR_PATH <> "").
    { destruct (stat_locate _ _ _ Hd) as (c & L & _).
      now apply locate_nonempty in L. }
    destruct (stat_locate _ _ _ Ha) as (pa & La & _).
    destruct (locate_join_inv w DIR_PATH "ABBYY_OCR" pa Hne eq_refl La)
      as (cs & Ld & Dd & _).
    pose proof (locate_join w DIR_PATH "PROCESSED_OCR" cs Ld Dd eq_refl)
      as Lout.
    unfold bind at 1.
    pose proof (makedirs_keeps q d (Path.join DIR_PATH "PROCESSED_OCR") w Hw)
      as Hk.
    pose proof (makedirs_grows (Path.join DIR_PATH "PROCESSED_OCR") w) as G1.
    destruct (makedirs (Path.join DIR_PATH "PROCESSED_OCR") w)
      as [[[]|e] w1] eqn:Hmk; cbn [snd] in *; [|now split].
    assert (H1 : preserves (fun w' => grows w1 w' /\ file_holds q d w')
                   (bind (Polish.file_paths (Path.join DIR_PATH "ABBYY_OCR"))
                      (fun file_paths =>
                         bind (for_each file_paths
                                 (Polish.main_loop_body ext (OpenAI key) MODEL
                                    MAX_TOKENS
                                    (Path.join DIR_PATH "PROCESSED_OCR")))
                           (fun _ => print "DONE")))).
    { apply polish_loop_preserves.
      - intros wa wb Hr Hc [Ga Fa]. split.
        + now apply (grows_frame_trans w1 wa).
        + now apply (file_holds_frame q d wa).
      - intros file_path content.
        apply (polish_write_keeps w1 _ file_path content
                 (cs ++ ["PROCESSED_OCR"])%list q d).
        + now apply (locate_grows w).
        + intros g. apply Hg. now apply resolve_locate. }
    destruct (H1 w1 (conj (grows_refl w1) Hk)) as [G2 F2].
    split; [exact (grows_trans _ _ _ G1 G2) | exact F2]. }
  destruct HP as [G Hf].
  rewrite (locate_stat _ _ _ (locate_grows _ _ _ _ G R)). exact Hf.
Qed.

Lemma polish_keeps_inputs_witness :
  stat
    (snd (Polish.main_with Sample.echo "/transcriptions" "/key.txt"
            "gpt-4o-mini" 200 Sample.world))
    "/transcriptions/ABBYY_OCR/ABBYY_001.txt" = Ok (File "Frist").
Proof.
  refine (polish_keeps_inputs Sample.echo "/transcriptions" "/key.txt"
            "gpt-4o-mini" 200 Sample.world
            "/transcriptions/ABBYY_OCR/ABBYY_001.txt"
            ["transcriptions"; "ABBYY_OCR"; "ABBYY_001.txt"] "Frist"
            eq_refl eq_refl _).
  intros out_cs g H E. vm_compute in H. inversion H; subst out_cs.
  inversion E.
Defined.

(** ** A run that ends well *)

Lemma ensemble_body_grows (ext : Externals) (c : client) (MODEL : string)
  (MAX_TOKENS : nat) (SAVE_DIR s_path : string) (w0 : World) :
  preserves (grows w0)
    (Ensemble.main_loop_body ext c MODEL MAX_TOKENS SAVE_DIR s_path).
Proof.
  unfold Ensemble.main_loop_body.
  apply preserves_bind; [apply preserves_print, grows_frame_trans|].
  intros _. apply ensemble_process_preserves; [apply grows_frame_trans|].
  intros content s_name _. apply save_response_grows.
Qed.

Lemma ensemble_body_ok (ext : Externals) (c : client) (MODEL : string)
  (MAX_TOKENS : nat) (SAVE_DIR s_path : string) (w w' : World) :
  Ensemble.main_loop_body ext c MODEL MAX_TOKENS SAVE_DIR s_path w
    = (Ok tt, w') ->
  stdout w' = (stdout w ++ [ensemble_progress s_path])%list /\
  cwd w' = cwd w /\
  length (requests w') = length (requests w) + 1 /\
  exists text,
    stat w' (Path.join SAVE_DIR (Path.basename s_path ++ "-ensemble.txt"))
      = Ok (File text).
Proof.
  unfold Ensemble.main_loop_body.
  rewrite (bind_ok _ _ _ _ _ (print_frame _ w)). intros H.
  destruct (process_subdirectory_ok _ _ _ _ _ _ _ _ H)
    as (ocrs & resp & text & rest & _ & _ & _ & Hq & Ho & Hc & Hs).
  cbn [stdout cwd requests] in *. rewrite Ho, Hc, Hq, length_app. cbn [length].
  split; [reflexivity | split; [reflexivity | split; [reflexivity|]]].
  now exists text.
Qed.

Lemma ensemble_loop_complete (ext : Externals) (c : client) (MODEL : string)
  (MAX_TOKENS : nat) (SAVE_DIR : string) (l : list string) (w w' : World) :
  for_each l (Ensemble.main_loop_body ext c MODEL MAX_TOKENS SAVE_DIR) w
    = (Ok tt, w') ->
  stdout w' = (stdout w ++ map ensemble_progress l)%list /\
  cwd w' = cwd w /\
  length (requests w') = length (requests w) + length l /\
  forall s_path, In s_path l ->
    exists text,
      stat w' (Path.join SAVE_DIR (Path.basename s_path ++ "-ensemble.txt"))
        = Ok (File text).
Proof.
  revert w. induction l as [|x l IH]; intros w; cbn [for_each].
  - intros H. inversion H; subst. cbn. rewrite app_nil_r.
    repeat split; auto. intros s [].
  - unfold bind.
    destruct (Ensemble.main_loop_body ext c MODEL MAX_TOKENS SAVE_DIR x w)
      as [[[]|e] w1] eqn:Hx; [|discriminate].
    intros H.
    destruct (ensemble_body_ok _ _ _ _ _ _ _ _ Hx) as (Ho & Hc & Hq & text & Hs).
    destruct (IH w1 H) as (Ho' & Hc' & Hq' & Hall).
    rewrite Ho', Ho, <- app_assoc, Hc', Hc, Hq', Hq. cbn [map length List.app].
    split; [reflexivity | split; [reflexivity | split; [lia|]]].
    intros s [<-|Hin]; [|now apply Hall].
    pose proof (preserves_for_each (grows w1) l _
                  (fun y => ensemble_body_grows ext c MODEL MAX_TOKENS
                              SAVE_DIR y w1) w1 (grows_refl w1)) as Hk.
    rewrite H in Hk. now apply (stat_grows w1 w' _ text Hk).
Qed.

(** X12. A run of the ensemble script that ends well has processed every
    subdirectory of the corpus root: it printed one progress line per
    document, in enumeration order, then [DONE]; it made exactly one call
    per document; and for every document there is an artifact
    [<SAVE_DIR>/<name>-ensemble.txt]. *)
Theorem ensemble_run_completes (ext : Externals)
  (API_PATH DIR_PATH SAVE_DIR MODEL : string) (MAX_TOKENS : nat)
  (w w' : World) :
  Ensemble.main_with ext API_PATH DIR_PATH SAVE_DIR MODEL MAX_TOKENS w
    = (Ok tt, w') ->
  exists docs : list string,
    Ensemble.subdirectories DIR_PATH w = (Ok docs, w) /\
    stdout w' = (stdout w ++ map ensemble_progress docs ++ ["DONE"])%list /\
    length (requests w') = length (requests w) + length docs /\
    forall s_path, In s_path docs ->
      exists text,
        stat w' (Path.join SAVE_DIR (Path.basename s_path ++ "-ensemble.txt"))
          = Ok (File text).
Proof.
  unfold Ensemble.main_with.
  rewrite (bind_readonly _ _ _ (ensemble_readonly_get_api_key ext API_PATH)).
  destruct (fst (Ensemble.get_api_key ext API_PATH w)) as [key|e];
    [|discriminate].
  pose proof (ensemble_readonly_subdirectories DIR_PATH w) as Hro.
  rewrite (bind_readonly _ _ _ (ensemble_readonly_subdirectories DIR_PATH)).
  destruct (Ensemble.subdirectories DIR_PATH w) as [[docs|e] w0];
    cbn [fst snd] in *; [|discriminate]. subst w0.
  unfold bind.
  destruct (for_each docs _ w) as [[[]|e] w1] eqn:Hloop; [|discriminate].
  rewrite print_frame. intros H. inversion H; subst w'. clear H.
  destruct (ensemble_loop_complete _ _ _ _ _ _ _ _ Hloop)
    as (Ho & Hc & Hq & Hall).
  exists docs. cbn [stdout requests].
  split; [reflexivity | split; [|split; [exact Hq|]]].
  - now rewrite Ho, <- app_assoc.
  - intros s Hin. destruct (Hall s Hin) as [text Hs]. exists text.
    now rewrite <- Hs; apply stat_frame.
Qed.

Lemma ensemble_run_completes_witness :
  exists text : string,
    stat
      (snd (Ensemble.main_with Sample.echo "/key.txt" "/corpus" "/out" "gpt-4o"
              1000 Sample.world))
      "/out/report1-ensemble.txt" = Ok (File text).
Proof.
  assert (Hrun : Ensemble.main_with Sample.echo "/key.txt" "/corpus" "/out"
                   "gpt-4o" 1000 Sample.world
                 = (Ok tt,
                    snd (Ensemble.main_with Sample.echo "/key.txt" "/corpus"
                           "/out" "gpt-4o" 1000 Sample.world)))
    by (vm_compute; reflexivity).
  destruct (ensemble_run_completes Sample.echo "/key.txt" "/corpus" "/out"
              "gpt-4o" 1000 Sample.world _ Hrun)
    as (docs & Hd & _ & _ & Hall).
  apply (Hall "/corpus/report1").
  assert (Hdocs : Ensemble.subdirectories "/corpus" Sample.world
                  = (Ok ["/corpus/report1"; "/corpus/empty"; "/corpus/report2"],
                     Sample.world))
    by (vm_compute; reflexivity).
  rewrite Hdocs in Hd. inversion Hd. now left.
Defined.

Lemma polish_body_grows (ext : Externals) (c : client) (MODEL : string)
  (MAX_TOKENS : nat) (OUT_PATH file_path : string) (w0 : World) :
  preserves (grows w0)
    (Polish.main_loop_body ext c MODEL MAX_TOKENS OUT_PATH file_path).
Proof.
  apply polish_body_preserves; [apply grows_frame_trans|].
  intros content. apply write_text_preserves_grows.
Qed.

Lemma polish_loop_complete (ext : Externals) (c : client) (MODEL : string)
  (MAX_TOKENS : nat) (OUT_PATH : string) (l : list string) (w w' : World) :
  for_each l (Polish.main_loop_body ext c MODEL MAX_TOKENS OUT_PATH) w
    = (Ok tt, w') ->
  stdout w' = (stdout w ++ flat_map (polish_progress OUT_PATH) l)%list /\
  cwd w' = cwd w /\
  length (requests w') = length (requests w) + length l /\
  forall file_path, In file_path l ->
    exists text,
      stat w' (Polish.save_path OUT_PATH file_path) = Ok (File text).
Proof.
  revert w. induction l as [|x l IH]; intros w; cbn [for_each].
  - intros H. inversion H; subst. cbn. rewrite app_nil_r.
    repeat split; auto. intros s [].
  - unfold bind.
    destruct (Polish.main_loop_body ext c MODEL MAX_TOKENS OUT_PATH x w)
      as [[[]|e] w1] eqn:Hx; [|discriminate].
    intros H.
    destruct (polish_body_ok _ _ _ _ _ _ _ _ Hx)
      as (ocr & resp & text & rest & _ & _ & _ & Hq & Hs).
    pose proof (polish_body_effects ext c MODEL MAX_TOKENS OUT_PATH x w) as E.
    rewrite Hx in E. cbv zeta in E. cbn [fst snd] in E.
    destruct E as (Hc & _ & Ho).
    destruct (IH w1 H) as (Ho' & Hc' & Hq' & Hall).
    rewrite Ho', Ho, <- app_assoc, Hc', Hc, Hq', Hq, length_app.
    cbn [flat_map length].
    split; [reflexivity | split; [reflexivity | split; [lia|]]].
    intros s [<-|Hin]; [|now apply Hall].
    pose proof (preserves_for_each (grows w1) l _
                  (fun y => polish_body_grows ext c MODEL MAX_TOKENS
                              OUT_PATH y w1) w1 (grows_refl w1)) as Hk.
    rewrite H in Hk. now apply (stat_grows w1 w' _ text Hk).
Qed.

(** X13. A run of the polish script that passes both guards and ends well
    has created the output directory, then processed every regular file of
    [ABBYY_OCR]: it printed the two lines of each file in enumeration
    order, then [DONE]; it made exactly one call per file; and every file
    has its polished counterpart at [save_path]. *)
Theorem polish_run_completes (ext : Externals)
  (DIR_PATH API_PATH MODEL : string) (MAX_TOKENS : nat) (w w' : World) :
  let ABBYY_PATH := Path.join DIR_PATH "ABBYY_OCR" in
  let OUT_PATH := Path.join DIR_PATH "PROCESSED_OCR" in
  fst (exists_ DIR_PATH w) = Ok true ->
  fst (exists_ ABBYY_PATH w) = Ok true ->
  Polish.main_with ext DIR_PATH API_PATH MODEL MAX_TOKENS w = (Ok tt, w') ->
  exists (w1 : World) (files : list string),
    makedirs OUT_PATH w = (Ok tt, w1) /\
    Polish.file_paths ABBYY_PATH w1 = (Ok files, w1) /\
    stdout w' =
      (stdout w ++ flat_map (polish_progress OUT_PATH) files ++ ["DONE"])%list
    /\
    length (requests w') = length (requests w) + length files /\
    forall file_path, In file_path files ->
      exists text,
        stat w' (Polish.save_path OUT_PATH file_path) = Ok (File text).
Proof.
  intros ABBYY_PATH OUT_PATH Hdir Habbyy. unfold Polish.main_with.
  rewrite (bind_readonly _ _ _ (polish_readonly_get_api_key ext API_PATH)).
  destruct (fst (Polish.get_api_key ext API_PATH w)) as [key|e];
    [|discriminate].
  rewrite (bind_readonly _ _ _ (readonly_exists DIR_PATH)), Hdir. cbn [negb].
  rewrite (bind_readonly _ _ _ (readonly_exists _)).
  fold ABBYY_PATH. rewrite Habbyy. cbn [negb]. fold OUT_PATH.
  unfold bind at 1.
  pose proof (makedirs_frame OUT_PATH w) as F. cbv zeta in F.
  destruct (makedirs OUT_PATH w) as [[[]|e] w1]; cbn [snd] in F;
    [|discriminate].
  destruct F as (_ & Fo & Fq).
  pose proof (polish_readonly_file_paths ABBYY_PATH w1) as Hro.
  rewrite (bind_readonly _ _ _ (polish_readonly_file_paths ABBYY_PATH)).
  destruct (Polish.file_paths ABBYY_PATH w1) as [[files|e] w0] eqn:Hfiles;
    cbn [fst snd] in *; [|discriminate]. subst w0.
  unfold bind.
  destruct (for_each files _ w1) as [[[]|e] w2] eqn:Hloop; [|discriminate].
  rewrite print_frame. intros H. inversion H; subst w'. clear H.
  destruct (polish_loop_complete _ _ _ _ _ _ _ _ Hloop)
    as (Ho & Hc & Hq & Hall).
  exists w1, files. cbn [stdout requests].
  split; [reflexivity | split; [exact Hfiles | split; [|split]]].
  - now rewrite Ho, Fo, <- app_assoc.
  - now rewrite Hq, Fq.
  - intros s Hin. destruct (Hall s Hin) as [text Hs]. exists text.
    now rewrite <- Hs; apply stat_frame.
Qed.

Lemma polish_run_completes_witness :
  exists text : string,
    stat
      (snd (Polish.main_with Sample.echo "/transcriptions" "/key.txt"
              "gpt-4o-mini" 200 Sample.world))
      "/transcriptions/PROCESSED_OCR/PROCESSED_003.txt" = Ok (File text).
Proof.
  assert (Hrun : Polish.main_with Sample.echo "/transcriptions" "/key.txt"
                   "gpt-4o-mini" 200 Sample.world
                 = (Ok tt,
                    snd (Polish.main_with Sample.echo "/transcriptions"
                           "/key.txt" "gpt-4o-mini" 200 Sample.world)))
    by (vm_compute; reflexivity).
  destruct (polish_run_completes Sample.echo "/transcriptions" "/key.txt"
              "gpt-4o-mini" 200 Sample.world _ eq_refl eq_refl Hrun)
    as (w1 & files & Hmk & Hf & _ & _ & Hall).
  apply (Hall "/transcriptions/ABBYY_OCR/ABBYY_003.txt").
  vm_compute in Hmk. inversion Hmk; subst w1.
  vm_compute in Hf. inversion Hf. right. right. now left.
Defined.

(** X14. The second guard of the polish script.  When the working
    directory exists and its [ABBYY_OCR] subdirectory does not, [main]
    prints the error line naming that subdirectory and returns: it raises
    nothing, makes no call, and does not create the output directory. *)
Theorem polish_missing_input_dir (ext : Externals)
  (DIR_PATH API_PATH MODEL : string) (MAX_TOKENS : nat) (key : string)
  (w : World) :
  fst (Polish.get_api_key ext API_PATH w) = Ok key ->
  fst (exists_ DIR_PATH w) = Ok true ->
  fst (exists_ (Path.join DIR_PATH "ABBYY_OCR") w) = Ok false ->
  Polish.main_with ext DIR_PATH API_PATH MODEL MAX_TOKENS w
  = (Ok tt,
     MkWorld (root w) (cwd w)
       (stdout w ++
          [("Error: The directory " ++ Path.join DIR_PATH "ABBYY_OCR"
              ++ " does not exist.")%string])%list
       (requests w)).
Proof.
  intros Hkey Hdir Habbyy. unfold Polish.main_with.
  rewrite (bind_readonly _ _ _ (polish_readonly_get_api_key ext API_PATH)),
    Hkey.
  rewrite (bind_readonly _ _ _ (readonly_exists DIR_PATH)), Hdir. cbn [negb].
  rewrite (bind_readonly _ _ _ (readonly_exists _)), Habbyy. reflexivity.
Qed.

Lemma polish_missing_input_dir_witness :
  stdout
    (snd (Polish.main_with Sample.echo "/corpus" "/key.txt" "gpt-4o-mini" 200
            Sample.world))
  = ["Error: The directory /corpus/ABBYY_OCR does not exist."].
Proof.
  rewrite (polish_missing_input_dir Sample.echo "/corpus" "/key.txt"
             "gpt-4o-mini" 200 "sk-test" Sample.world eq_refl eq_refl eq_refl).
  reflexivity.
Defined.

(** ** Nothing to process *)

(** X15. A corpus without documents.  When the corpus root holds no
    subdirectory, the ensemble script prints [DONE] and nothing else: it
    makes no call and does not create the output root.  When [ABBYY_OCR]
    holds no regular file, the polish script has created its output
    directory before it finds that out, and then prints [DONE] without
    making a call. *)
Theorem nothing_to_process (ext : Externals) (key MODEL : string)
  (MAX_TOKENS : nat) (w : World) (es : list (string * node)) :
  (forall API_PATH DIR_PATH SAVE_DIR : string,
     fst (Ensemble.get_api_key ext API_PATH w) = Ok key ->
     stat w DIR_PATH = Ok (Dir es) -> listing_ok es -> dir_names es = [] ->
     Ensemble.main_with ext API_PATH DIR_PATH SAVE_DIR MODEL MAX_TOKENS w
     = (Ok tt,
        MkWorld (root w) (cwd w) (stdout w ++ ["DONE"])%list (requests w)))
  /\
  (forall (DIR_PATH API_PATH : string) (w1 : World),
     let ABBYY_PATH := Path.join DIR_PATH "ABBYY_OCR" in
     let OUT_PATH := Path.join DIR_PATH "PROCESSED_OCR" in
     fst (Polish.get_api_key ext API_PATH w) = Ok key ->
     fst (exists_ DIR_PATH w) = Ok true ->
     fst (exists_ ABBYY_PATH w) = Ok true ->
     makedirs OUT_PATH w = (Ok tt, w1) ->
     stat w1 ABBYY_PATH = Ok (Dir es) -> listing_ok es -> file_names es = [] ->
     Polish.main_with ext DIR_PATH API_PATH MODEL MAX_TOKENS w
     = (Ok tt,
        MkWorld (root w1) (cwd w) (stdout w ++ ["DONE"])%list (requests w))
     /\ fst (isdir OUT_PATH w1) = Ok true).
Proof.
  split.
  - intros API_PATH DIR_PATH SAVE_DIR Hkey Hs Hok Hno.
    unfold Ensemble.main_with.
    rewrite (bind_readonly _ _ _ (ensemble_readonly_get_api_key ext API_PATH)),
      Hkey.
    rewrite (bind_ok _ _ _ _ _ (ensemble_subdirectories_eq w DIR_PATH es Hs Hok)).
    rewrite Hno. reflexivity.
  - intros DIR_PATH API_PATH w1 ABBYY_PATH OUT_PATH Hkey Hdir Habbyy Hmk Hs Hok
      Hno.
    pose proof (makedirs_frame OUT_PATH w) as F. rewrite Hmk in F.
    cbv zeta in F. cbn [snd] in F. destruct F as (Fc & Fo & Fq).
    split.
    + unfold Polish.main_with.
      rewrite (bind_readonly _ _ _ (polish_readonly_get_api_key ext API_PATH)),
        Hkey.
      rewrite (bind_readonly _ _ _ (readonly_exists DIR_PATH)), Hdir.
      cbn [negb]. rewrite (bind_readonly _ _ _ (readonly_exists _)).
      fold ABBYY_PATH. rewrite Habbyy. cbn [negb]. fold OUT_PATH.
      rewrite (bind_ok _ _ _ _ _ Hmk).
      rewrite (bind_ok _ _ _ _ _ (polish_file_paths_eq w1 ABBYY_PATH es Hs Hok)).
      rewrite Hno. cbn [map for_each]. unfold bind, ret. rewrite print_frame.
      now rewrite Fc, Fo, Fq.
    + destruct (makedirs_ok OUT_PATH w w1 Hmk) as [(cs & L & [es1 Hes1]) _].
      unfold isdir. cbn [fst]. now rewrite (locate_stat _ _ _ L), Hes1.
Qed.

Lemma nothing_to_process_witness :
  Ensemble.main_with Sample.echo "/key.txt" "/corpus/report1" "/fresh"
    "gpt-4o" 1000 Sample.world
  = (Ok tt, MkWorld Sample.disk [] ["DONE"] []) /\
  stdout
    (snd (Polish.main_with Sample.echo "/corpus" "/key.txt" "gpt-4o-mini" 200
            (MkWorld (Dir [("key.txt", File "k");
                           ("corpus", Dir [("ABBYY_OCR", Dir [])])])
               [] [] [])))
  = ["DONE"].
Proof.
  split.
  - refine (proj1 (nothing_to_process Sample.echo "sk-test" "gpt-4o" 1000
                     Sample.world Sample.report1)
              "/key.txt" "/corpus/report1" "/fresh" eq_refl eq_refl _ eq_refl).
    split; [|repeat constructor].
    repeat constructor; cbn; intuition discriminate.
  - rewrite (proj1 (proj2 (nothing_to_process Sample.echo "k" "gpt-4o-mini" 200
                             (MkWorld (Dir [("key.txt", File "k");
                                            ("corpus", Dir [("ABBYY_OCR", Dir [])])])
                                [] [] []) [])
                      "/corpus" "/key.txt" _ eq_refl eq_refl eq_refl eq_refl
                      eq_refl (conj (NoDup_nil _) (Forall_nil _)) eq_refl)).
    reflexivity.
Defined.

(** ** What every call carries *)

Lemma ensemble_body_requests (ext : Externals) (c : client) (MODEL : string)
  (MAX_TOKENS : nat) (SAVE_DIR s_path : string) (w : World) :
  let w' := snd (Ensemble.main_loop_body ext c MODEL MAX_TOKENS SAVE_DIR
                   s_path w) in
  requests w' = requests w \/
  exists ocrs,
    requests w' =
    (requests w ++
       [Request c MODEL (Ensemble.construct_messages ocrs) MAX_TOKENS])%list.
Proof.
  unfold Ensemble.main_loop_body.
  rewrite (bind_ok _ _ _ _ _ (print_frame _ w)).
  match goal with
  | |- context [Ensemble.process_subdirectory _ _ _ _ _ _ ?w1] =>
      pose proof (process_subdirectory_effects ext c MODEL MAX_TOKENS s_path
                    SAVE_DIR w1) as H;
      destruct (fst (Ensemble.get_ocrs ext s_path w1)) as [ocrs|e]
  end; cbv zeta in *; destruct H as (_ & _ & H).
  - right. exists ocrs. exact H.
  - left. now rewrite H.
Qed.

Lemma polish_body_requests (ext : Externals) (c : client) (MODEL : string)
  (MAX_TOKENS : nat) (OUT_PATH file_path : string) (w : World) :
  let w' := snd (Polish.main_loop_body ext c MODEL MAX_TOKENS OUT_PATH
                   file_path w) in
  requests w' = requests w \/
  exists ocr,
    requests w' =
    (requests w ++
       [Request c MODEL (Polish.construct_messages ocr) MAX_TOKENS])%list.
Proof.
  cbv zeta.
  destruct (fst (Polish.get_ocr ext file_path w)) as [ocr|e] eqn:Hocr.
  - right. exists ocr. now apply polish_body_sent.
  - left. unfold Polish.main_loop_body.
    rewrite (bind_ok _ _ _ _ _ (print_frame _ w)).
    rewrite (bind_readonly _ _ _ (polish_readonly_get_ocr ext file_path)).
    match goal with
    | |- context [fst (Polish.get_ocr ext file_path ?w0)] =>
        rewrite (polish_get_ocr_frame ext w w0 file_path eq_refl eq_refl)
    end.
    now rewrite Hocr.
Qed.

Lemma requests_grow_loop {A} (good : request -> Prop) (body : A -> M unit)
  (l : list A) (w0 : World) :
  (forall x w,
     requests (snd (body x w)) = requests w \/
     exists r, good r /\ requests (snd (body x w)) = (requests w ++ [r])%list) ->
  preserves
    (fun w => exists new,
       requests w = (requests w0 ++ new)%list /\ Forall good new)
    (for_each l body).
Proof.
  intros Hb. apply preserves_for_each. intros x w (new & E & F).
  destruct (Hb x w) as [H | (r & Hr & H)]; rewrite H.
  - now exists new.
  - exists (new ++ [r])%list. rewrite E, app_assoc. split; [reflexivity|].
    apply Forall_app. split; [exact F | now constructor].
Qed.

(** X16. Every call a run makes carries the configuration of the run.  All
    the requests that [main] adds to the log, however the run ends, bear
    the key read from the key file, the model and the token limit set at
    the head of [main], and a payload that is the value of the builder at
    some candidates (ensemble) or at some text (polish). *)
Theorem calls_carry_configuration (ext : Externals) (key MODEL : string)
  (MAX_TOKENS : nat) (w : World) :
  (forall API_PATH DIR_PATH SAVE_DIR : string,
     fst (Ensemble.get_api_key ext API_PATH w) = Ok key ->
     exists new : list request,
       requests (snd (Ensemble.main_with ext API_PATH DIR_PATH SAVE_DIR MODEL
                        MAX_TOKENS w))
       = (requests w ++ new)%list /\
       Forall
         (fun r => exists ocrs,
            r = Request key MODEL (Ensemble.construct_messages ocrs) MAX_TOKENS)
         new)
  /\
  (forall DIR_PATH API_PATH : string,
     fst (Polish.get_api_key ext API_PATH w) = Ok key ->
     exists new : list request,
       requests (snd (Polish.main_with ext DIR_PATH API_PATH MODEL MAX_TOKENS
                        w))
       = (requests w ++ new)%list /\
       Forall
         (fun r => exists ocr,
            r = Request key MODEL (Polish.construct_messages ocr) MAX_TOKENS)
         new).
Proof.
  assert (Hnil : forall good : request -> Prop,
             exists new, requests w = (requests w ++ new)%list /\
                         Forall good new)
    by (intros good; exists []; now rewrite app_nil_r).
  split.
  - intros API_PATH DIR_PATH SAVE_DIR Hkey. unfold Ensemble.main_with.
    rewrite (bind_readonly _ _ _ (ensemble_readonly_get_api_key ext API_PATH)),
      Hkey.
    rewrite (bind_readonly _ _ _ (ensemble_readonly_subdirectories DIR_PATH)).
    destruct (fst (Ensemble.subdirectories DIR_PATH w)) as [docs|e];
      [|apply Hnil].
    unfold bind at 1.
    pose proof (requests_grow_loop
                  (fun r => exists ocrs,
                     r = Request key MODEL (Ensemble.construct_messages ocrs)
                           MAX_TOKENS)
                  (Ensemble.main_loop_body ext (OpenAI key) MODEL MAX_TOKENS
                     SAVE_DIR) docs w) as Hl.
    specialize (Hl (fun x w1 =>
      match ensemble_body_requests ext (OpenAI key) MODEL MAX_TOKENS SAVE_DIR
              x w1 with
      | or_introl H => or_introl H
      | or_intror (ex_intro _ ocrs H) =>
          or_intror (ex_intro _ _ (conj (ex_intro _ ocrs eq_refl) H))
      end) w (Hnil _)).
    destruct (for_each docs _ w) as [[[]|e] w1]; cbn [snd] in *; exact Hl.
  - intros DIR_PATH API_PATH Hkey. unfold Polish.main_with.
    rewrite (bind_readonly _ _ _ (polish_readonly_get_api_key ext API_PATH)),
      Hkey.
    rewrite (bind_readonly _ _ _ (readonly_exists DIR_PATH)).
    destruct (fst (exists_ DIR_PATH w)) as [[|]|e]; cbn [negb];
      try apply Hnil.
    rewrite (bind_readonly _ _ _ (readonly_exists _)).
    destruct (fst (exists_ _ w)) as [[|]|e]; cbn [negb]; try apply Hnil.
    unfold bind at 1.
    pose proof (makedirs_frame (Path.join DIR_PATH "PROCESSED_OCR") w) as F.
    cbv zeta in F.
    destruct (makedirs _ w) as [[[]|e] w1]; cbn [snd] in F;
      destruct F as (_ & _ & Fq); [|cbn [snd]; rewrite Fq; apply Hnil].
    rewrite (bind_readonly _ _ _ (polish_readonly_file_paths _)).
    destruct (fst (Polish.file_paths _ w1)) as [files|e];
      [|cbn [snd]; rewrite Fq; apply Hnil].
    unfold bind at 1.
    pose proof (requests_grow_loop
                  (fun r => exists ocr,
                     r = Request key MODEL (Polish.construct_messages ocr)
                           MAX_TOKENS)
                  (Polish.main_loop_body ext (OpenAI key) MODEL MAX_TOKENS
                     (Path.join DIR_PATH "PROCESSED_OCR")) files w) as Hl.
    specialize (Hl (fun x w2 =>
      match polish_body_requests ext (OpenAI key) MODEL MAX_TOKENS
              (Path.join DIR_PATH "PROCESSED_OCR") x w2 with
      | or_introl H => or_introl H
      | or_intror (ex_intro _ ocr H) =>
          or_intror (ex_intro _ _ (conj (ex_intro _ ocr eq_refl) H))
      end) w1).
    cbv beta in Hl. rewrite Fq in Hl. specialize (Hl (Hnil _)).
    destruct (for_each files _ w1) as [[[]|e] w2]; cbn [snd] in *; exact Hl.
Qed.

Lemma calls_carry_configuration_witness :
  exists new : list request,
    requests (snd (Ensemble.main_with Sample.one_call "/key.txt" "/corpus"
                     "/out" "gpt-4o" 1000 Sample.world))
    = new /\
    Forall
      (fun r => req_api_key r = "sk-test" /\ req_model r = "gpt-4o") new.
Proof.
  destruct (proj1 (calls_carry_configuration Sample.one_call "sk-test" "gpt-4o"
                     1000 Sample.world)
              "/key.txt" "/corpus" "/out" eq_refl) as (new & E & F).
  exists new. split; [exact E|].
  apply (Forall_impl _ (P := fun r => exists ocrs,
            r = Request "sk-test" "gpt-4o"
                  (Ensemble.construct_messages ocrs) 1000)); [|exact F].
  intros r [ocrs ->]. split; reflexivity.
Defined.

(** ** What an aborted run leaves behind *)

(** X17. A run that aborts keeps what it had done.  When the documents of
    [pre] went through and the next one raised, the artifact of every
    document of [pre] is in place in the world in which [main] ends: the
    output is left partly filled, with nothing to tell the documents done
    from those not reached.  This holds for both scripts. *)
Theorem aborted_run_keeps_artifacts (ext : Externals) (key MODEL : string)
  (MAX_TOKENS : nat) (pre post : list string) (d : string) (e : exn) :
  (forall (API_PATH DIR_PATH SAVE_DIR : string) (w w2 w3 : World),
     let body :=
       Ensemble.main_loop_body ext (OpenAI key) MODEL MAX_TOKENS SAVE_DIR in
     fst (Ensemble.get_api_key ext API_PATH w) = Ok key ->
     fst (Ensemble.subdirectories DIR_PATH w) = Ok (pre ++ d :: post)%list ->
     for_each pre body w = (Ok tt, w2) ->
     body d w2 = (Raise e, w3) ->
     forall s_path, In s_path pre ->
       exists text,
         stat
           (snd (Ensemble.main_with ext API_PATH DIR_PATH SAVE_DIR MODEL
                   MAX_TOKENS w))
           (Path.join SAVE_DIR (Path.basename s_path ++ "-ensemble.txt"))
         = Ok (File text))
  /\
  (forall (DIR_PATH API_PATH : string) (w w1 w2 w3 : World),
     let ABBYY_PATH := Path.join DIR_PATH "ABBYY_OCR" in
     let OUT_PATH := Path.join DIR_PATH "PROCESSED_OCR" in
     let body :=
       Polish.main_loop_body ext (OpenAI key) MODEL MAX_TOKENS OUT_PATH in
     fst (Polish.get_api_key ext API_PATH w) = Ok key ->
     fst (exists_ DIR_PATH w) = Ok true ->
     fst (exists_ ABBYY_PATH w) = Ok true ->
     makedirs OUT_PATH w = (Ok tt, w1) ->
     fst (Polish.file_paths ABBYY_PATH w1) = Ok (pre ++ d :: post)%list ->
     for_each pre body w1 = (Ok tt, w2) ->
     body d w2 = (Raise e, w3) ->
     forall file_path, In file_path pre ->
       exists text,
         stat
           (snd (Polish.main_with ext DIR_PATH API_PATH MODEL MAX_TOKENS w))
           (Polish.save_path OUT_PATH file_path)
         = Ok (File text)).
Proof.
  split.
  - intros API_PATH DIR_PATH SAVE_DIR w w2 w3 body Hkey Hdirs Hpre Hd s Hin.
    assert (Hmain : Ensemble.main_with ext API_PATH DIR_PATH SAVE_DIR MODEL
                      MAX_TOKENS w = (Raise e, w3)).
    { unfold Ensemble.main_with.
      rewrite (bind_readonly _ _ _ (ensemble_readonly_get_api_key ext API_PATH)),
        Hkey.
      rewrite (bind_readonly _ _ _ (ensemble_readonly_subdirectories DIR_PATH)),
        Hdirs.
      apply bind_raise. now apply for_each_raise with (w2 := w2). }
    rewrite Hmain. cbn [snd].
    destruct (ensemble_loop_complete _ _ _ _ _ _ _ _ Hpre) as (_ & _ & _ & Hall).
    destruct (Hall s Hin) as [text Hs].
    pose proof (ensemble_body_grows ext (OpenAI key) MODEL MAX_TOKENS
                  SAVE_DIR d w2 w2 (grows_refl w2)) as Hk.
    fold body in Hk. rewrite Hd in Hk. cbn [snd] in Hk.
    now apply (stat_grows w2 w3 _ text Hk).
  - intros DIR_PATH API_PATH w w1 w2 w3 ABBYY_PATH OUT_PATH body Hkey Hdir
      Habbyy Hmk Hfiles Hpre Hd s Hin.
    assert (Hmain : Polish.main_with ext DIR_PATH API_PATH MODEL MAX_TOKENS w
                    = (Raise e, w3)).
    { unfold Polish.main_with.
      rewrite (bind_readonly _ _ _ (polish_readonly_get_api_key ext API_PATH)),
        Hkey.
      rewrite (bind_readonly _ _ _ (readonly_exists DIR_PATH)), Hdir.
      cbn [negb]. rewrite (bind_readonly _ _ _ (readonly_exists _)).
      fold ABBYY_PATH. rewrite Habbyy. cbn [negb].
      fold OUT_PATH. rewrite (bind_ok _ _ _ _ _ Hmk).
      rewrite (bind_readonly _ _ _ (polish_readonly_file_paths _)), Hfiles.
      apply bind_raise. now apply for_each_raise with (w2 := w2). }
    rewrite Hmain. cbn [snd].
    destruct (polish_loop_complete _ _ _ _ _ _ _ _ Hpre) as (_ & _ & _ & Hall).
    destruct (Hall s Hin) as [text Hs].
    pose proof (polish_body_grows ext (OpenAI key) MODEL MAX_TOKENS
                  OUT_PATH d w2 w2 (grows_refl w2)) as Hk.
    fold body in Hk. rewrite Hd in Hk. cbn [snd] in Hk.
    now apply (stat_grows w2 w3 _ text Hk).
Qed.

Lemma aborted_run_keeps_artifacts_witness :
  exists text : string,
    stat
      (snd (Ensemble.main_with Sample.one_call "/key.txt" "/corpus" "/out"
              "gpt-4o" 1000 Sample.world))
      "/out/report1-ensemble.txt" = Ok (File text).
Proof.
  refine (proj1 (aborted_run_keeps_artifacts Sample.one_call "sk-test" "gpt-4o"
                   1000 ["/corpus/report1"] ["/corpus/report2"] "/corpus/empty"
                   (APIError "quota exceeded"))
            "/key.txt" "/corpus" "/out" Sample.world
            (snd (for_each ["/corpus/report1"]
                    (Ensemble.main_loop_body Sample.one_call "sk-test" "gpt-4o"
                       1000 "/out") Sample.world))
            (snd (Ensemble.main_loop_body Sample.one_call "sk-test" "gpt-4o"
                    1000 "/out" "/corpus/empty"
                    (snd (for_each ["/corpus/report1"]
                            (Ensemble.main_loop_body Sample.one_call "sk-test"
                               "gpt-4o" 1000 "/out") Sample.world))))
            _ _ _ _ "/corpus/report1" (or_introl eq_refl));
    vm_compute; reflexivity.
Defined.
